(** * Compass aggregation-pipeline editor: reducer, pipeline generation,
      stage execution, and the saved-items aggregator.

    Shallow embedding of
      - packages/compass-aggregations/src/modules/pipeline.js
      - packages/compass-saved-aggregations-queries/src/stores/aggregations-queries-items.ts

    JavaScript arrays and objects are references: the pipeline state is a
    reference to an array whose slots are references to stage objects.  The
    embedding keeps an explicit store of stage objects and of arrays, so
    that "same reference", "fresh copy" and "input not mutated" are
    statements about locations of that store. *)

From Stdlib Require Import ZArith Lia.
From stdpp Require Import base option list strings gmap.

Local Open Scope Z_scope.

(** ** JavaScript values that the modules only pass around *)

(** A result document returned by the database driver; the modules never
    look inside one, it is kept as its JSON text. *)
Inductive Doc := doc (json : string).

(** A compiled stage (what [generateStage] returns and what is sent to the
    driver), kept as its JSON text. *)
Inductive Exec := exec (json : string).

(** An [Error] object; only its [message] is read. *)
Record JsError := { message : string }.

(** How a JavaScript evaluation can end abruptly.  [TypeError] is the
    exception the engine throws on a property access of [undefined].
    [Untyped] marks an evaluation that leaves the typed data below: the empty
    object that [Object.assign({}, undefined)] builds from an [undefined]
    slot is no stage object, a location may not be in the store, an
    action may lack the fields its handler reads, and the string that the
    inherited [toString] returns is no pipeline. *)
Inductive Abrupt := TypeError | Untyped.

Inductive Completion (A : Type) :=
| Normal (a : A)
| Threw (e : Abrupt).
Arguments Normal {A} a.
Arguments Threw {A} e.

(** ** Array operations on indices that are JavaScript numbers *)

Module JsArray.

(** [arr[i]] for an integer [i]; [None] is [undefined] (a hole or an index
    outside the array). *)
Definition get {A} (arr : list (option A)) (i : Z) : option A :=
  if 0 <=? i then mjoin (arr !! Z.to_nat i) else None.

(** The position [Array.prototype.splice] starts at: a negative [start]
    counts from the end, and the result is clamped to [0 .. length]. *)
Definition relative_start (len : nat) (start : Z) : nat :=
  if start <? 0 then Z.to_nat (Z.max (Z.of_nat len + start) 0)
  else Z.to_nat (Z.min start (Z.of_nat len)).

(** [arr.splice(start, deleteCount, ...items)]: the array after the call
    and the array of removed elements it returns. *)
Definition splice {A} (arr : list A) (start : Z) (deleteCount : nat)
    (items : list A) : list A * list A :=
  let k := relative_start (length arr) start in
  (take k arr ++ items ++ drop (k + deleteCount) arr,
   take deleteCount (drop k arr)).

(** [arr.includes(v)] for an array of strings and a value that is a string
    or [null]. *)
Definition includes (arr : list string) (v : option string) : bool :=
  match v with
  | Some s => bool_decide (s ∈ arr)
  | None => false
  end.

End JsArray.

(** ** Property lookup on an object literal *)

Module JsObject.

(** What [obj[key]] finds for an object literal [obj] that has no own
    property [key]: the lookup goes on to [Object.prototype].  The members
    are grouped by what they do when the value found is called as a plain
    function in strict code, [fn(state, action)], so with [this] undefined
    and an array as first argument. *)
Inductive Inherited :=
| Constructor  (* [Object]: returns its first argument, an object *)
| ToString     (* returns the string '[object Undefined]' *)
| NeedsThis    (* converts [this] to an object first: a TypeError *)
| Proto.       (* [__proto__]: [Object.prototype] itself, no function *)

Definition inherited (key : string) : option Inherited :=
  if bool_decide (key = "constructor"%string) then Some Constructor
  else if bool_decide (key = "toString"%string) then Some ToString
  else if bool_decide (key = "__proto__"%string) then Some Proto
  else if bool_decide
            (key ∈ ["hasOwnProperty"; "isPrototypeOf"; "propertyIsEnumerable";
                    "toLocaleString"; "valueOf"; "__defineGetter__";
                    "__defineSetter__"; "__lookupGetter__";
                    "__lookupSetter__"]%string)
  then Some NeedsThis
  else None.

End JsObject.

(** ** modules/pipeline.js *)

Module Pipeline.

(** *** Action names and constants *)

Definition PREFIX : string := "aggregations/pipeline".
Definition STAGE_ADDED : string := PREFIX +:+ "/STAGE_ADDED".
Definition STAGE_ADDED_AFTER : string := PREFIX +:+ "/STAGE_ADDED_AFTER".
Definition STAGE_CHANGED : string := PREFIX +:+ "/STAGE_CHANGED".
Definition STAGE_COLLAPSE_TOGGLED : string := PREFIX +:+ "/STAGE_COLLAPSE_TOGGLED".
Definition STAGE_DELETED : string := PREFIX +:+ "/STAGE_DELETED".
Definition STAGE_MOVED : string := PREFIX +:+ "/STAGE_MOVED".
Definition STAGE_OPERATOR_SELECTED : string := PREFIX +:+ "/STAGE_OPERATOR_SELECTED".
Definition STAGE_TOGGLED : string := PREFIX +:+ "/STAGE_TOGGLED".
Definition STAGE_PREVIEW_UPDATED : string := PREFIX +:+ "/STAGE_PREVIEW_UPDATED".
Definition LOADING_STAGE_RESULTS : string := PREFIX +:+ "/LOADING_STAGE_RESULTS".

(** One element of the array handed to the driver: a frozen limit object
    [{ $limit: n }] of this module, or a compiled stage. *)
Inductive PipelineEntry :=
| Limit (n : Z)
| Compiled (e : Exec).

Definition LIMIT : PipelineEntry := Limit 20.
Definition LARGE_LIMIT : PipelineEntry := Limit 100000.

(** [state.inputDocuments.count]: a number, or the text ['N/A'] (the
    constant [NA]) while the count is not known. *)
Inductive Count :=
| NA
| CountNum (n : Z).

Definition REQUIRED_AS_FIRST_STAGE : list string :=
  ["$collStats"; "$currentOp"; "$indexStats"; "$listLocalSessions";
   "$listSessions"]%string.

Definition FULL_SCAN_OPS : list string :=
  ["$group"; "$bucket"; "$bucketAuto"]%string.

Definition OUT : string := "$out".

(** The line feed character, and the default snippet ['{\n  \n}']. *)
Definition LF : string := String (Ascii.ascii_of_nat 10) EmptyString.

Definition DEFAULT_SNIPPET : string := "{" +:+ LF +:+ "  " +:+ LF +:+ "}".

(** *** Stages *)

(** A stage id is the hex text of an [ObjectId] ([addStage]) or a
    millisecond timestamp ([AddAfterStage]). *)
Inductive StageId :=
| HexId (hex : string)
| TimeId (ms : Z).

(** A stage object.  [stageOperator], [syntaxError] and [error] are [null]
    or a string; [isComplete] is [None] when it was assigned [undefined]
    (the three-argument [stagePreviewUpdated] call of [executeStage]);
    [executor], [snippet] and [fromStageOperators] are absent from
    [EMPTY_STAGE] and [None] until they are first assigned.  The preview
    documents array is only ever replaced, never updated in place, so it
    is kept as a value. *)
Record Stage := {
  id : StageId;
  stageOperator : option string;
  stage : string;
  isValid : bool;
  isEnabled : bool;
  isExpanded : bool;
  isLoading : bool;
  isComplete : option bool;
  previewDocuments : list Doc;
  syntaxError : option string;
  error : option string;
  executor : option Exec;
  snippet : option string;
  fromStageOperators : option bool
}.

(** Property assignments [s.f = v]. *)
Definition set_id (v : StageId) (s : Stage) : Stage :=
  {| id := v; stageOperator := stageOperator s; stage := stage s;
     isValid := isValid s; isEnabled := isEnabled s;
     isExpanded := isExpanded s; isLoading := isLoading s;
     isComplete := isComplete s; previewDocuments := previewDocuments s;
     syntaxError := syntaxError s; error := error s;
     executor := executor s; snippet := snippet s;
     fromStageOperators := fromStageOperators s |}.

Definition set_stageOperator (v : option string) (s : Stage) : Stage :=
  {| id := id s; stageOperator := v; stage := stage s;
     isValid := isValid s; isEnabled := isEnabled s;
     isExpanded := isExpanded s; isLoading := isLoading s;
     isComplete := isComplete s; previewDocuments := previewDocuments s;
     syntaxError := syntaxError s; error := error s;
     executor := executor s; snippet := snippet s;
     fromStageOperators := fromStageOperators s |}.

Definition set_stage (v : string) (s : Stage) : Stage :=
  {| id := id s; stageOperator := stageOperator s; stage := v;
     isValid := isValid s; isEnabled := isEnabled s;
     isExpanded := isExpanded s; isLoading := isLoading s;
     isComplete := isComplete s; previewDocuments := previewDocuments s;
     syntaxError := syntaxError s; error := error s;
     executor := executor s; snippet := snippet s;
     fromStageOperators := fromStageOperators s |}.

Definition set_isEnabled (v : bool) (s : Stage) : Stage :=
  {| id := id s; stageOperator := stageOperator s; stage := stage s;
     isValid := isValid s; isEnabled := v;
     isExpanded := isExpanded s; isLoading := isLoading s;
     isComplete := isComplete s; previewDocuments := previewDocuments s;
     syntaxError := syntaxError s; error := error s;
     executor := executor s; snippet := snippet s;
     fromStageOperators := fromStageOperators s |}.

Definition set_isExpanded (v : bool) (s : Stage) : Stage :=
  {| id := id s; stageOperator := stageOperator s; stage := stage s;
     isValid := isValid s; isEnabled := isEnabled s;
     isExpanded := v; isLoading := isLoading s;
     isComplete := isComplete s; previewDocuments := previewDocuments s;
     syntaxError := syntaxError s; error := error s;
     executor := executor s; snippet := snippet s;
     fromStageOperators := fromStageOperators s |}.

Definition set_isLoading (v : bool) (s : Stage) : Stage :=
  {| id := id s; stageOperator := stageOperator s; stage := stage s;
     isValid := isValid s; isEnabled := isEnabled s;
     isExpanded := isExpanded s; isLoading := v;
     isComplete := isComplete s; previewDocuments := previewDocuments s;
     syntaxError := syntaxError s; error := error s;
     executor := executor s; snippet := snippet s;
     fromStageOperators := fromStageOperators s |}.

Definition set_isComplete (v : option bool) (s : Stage) : Stage :=
  {| id := id s; stageOperator := stageOperator s; stage := stage s;
     isValid := isValid s; isEnabled := isEnabled s;
     isExpanded := isExpanded s; isLoading := isLoading s;
     isComplete := v; previewDocuments := previewDocuments s;
     syntaxError := syntaxError s; error := error s;
     executor := executor s; snippet := snippet s;
     fromStageOperators := fromStageOperators s |}.

Definition set_previewDocuments (v : list Doc) (s : Stage) : Stage :=
  {| id := id s; stageOperator := stageOperator s; stage := stage s;
     isValid := isValid s; isEnabled := isEnabled s;
     isExpanded := isExpanded s; isLoading := isLoading s;
     isComplete := isComplete s; previewDocuments := v;
     syntaxError := syntaxError s; error := error s;
     executor := executor s; snippet := snippet s;
     fromStageOperators := fromStageOperators s |}.

Definition set_error (v : option string) (s : Stage) : Stage :=
  {| id := id s; stageOperator := stageOperator s; stage := stage s;
     isValid := isValid s; isEnabled := isEnabled s;
     isExpanded := isExpanded s; isLoading := isLoading s;
     isComplete := isComplete s; previewDocuments := previewDocuments s;
     syntaxError := syntaxError s; error := v;
     executor := executor s; snippet := snippet s;
     fromStageOperators := fromStageOperators s |}.

Definition set_executor (v : option Exec) (s : Stage) : Stage :=
  {| id := id s; stageOperator := stageOperator s; stage := stage s;
     isValid := isValid s; isEnabled := isEnabled s;
     isExpanded := isExpanded s; isLoading := isLoading s;
     isComplete := isComplete s; previewDocuments := previewDocuments s;
     syntaxError := syntaxError s; error := error s;
     executor := v; snippet := snippet s;
     fromStageOperators := fromStageOperators s |}.

Definition set_snippet (v : option string) (s : Stage) : Stage :=
  {| id := id s; stageOperator := stageOperator s; stage := stage s;
     isValid := isValid s; isEnabled := isEnabled s;
     isExpanded := isExpanded s; isLoading := isLoading s;
     isComplete := isComplete s; previewDocuments := previewDocuments s;
     syntaxError := syntaxError s; error := error s;
     executor := executor s; snippet := v;
     fromStageOperators := fromStageOperators s |}.

Definition set_fromStageOperators (v : option bool) (s : Stage) : Stage :=
  {| id := id s; stageOperator := stageOperator s; stage := stage s;
     isValid := isValid s; isEnabled := isEnabled s;
     isExpanded := isExpanded s; isLoading := isLoading s;
     isComplete := isComplete s; previewDocuments := previewDocuments s;
     syntaxError := syntaxError s; error := error s;
     executor := executor s; snippet := snippet s;
     fromStageOperators := v |}.

(** *** The store: stage objects and arrays of references to them *)

Definition loc := nat.

(** [objs] holds the stage objects and [arrs] the arrays, each addressed by
    its position; a slot of an array is a reference to an object, or [None]
    for [undefined].  Allocation appends, so a location that exists keeps
    its address and a new one is never an old one. *)
Record Heap := {
  objs : list Stage;
  arrs : list (list (option loc))
}.

(** A computation over a state [S] that returns a value or ends abruptly. *)
Definition Run (S A : Type) : Type := S -> S * Completion A.

#[global] Instance Run_ret {S} : MRet (Run S) := fun A a h => (h, Normal a).

#[global] Instance Run_bind {S} : MBind (Run S) := fun A B f m h =>
  match m h with
  | (h', Normal a) => f a h'
  | (h', Threw e) => (h', Threw e)
  end.

(** Computations over the store. *)
Abbreviation Js := (Run Heap).

Definition threw {S A} (e : Abrupt) : Run S A := fun h => (h, Threw e).

(** [{ ...s }] and [Object.assign({}, s)]: a new object with the fields of
    [s]. *)
Definition newObject (s : Stage) : Js loc := fun h =>
  ({| objs := objs h ++ [s]; arrs := arrs h |}, Normal (length (objs h))).

Definition newArray (elems : list (option loc)) : Js loc := fun h =>
  ({| objs := objs h; arrs := arrs h ++ [elems] |}, Normal (length (arrs h))).

Definition readObject (l : loc) : Js Stage := fun h =>
  match objs h !! l with
  | Some s => (h, Normal s)
  | None => (h, Threw Untyped)
  end.

Definition readArray (a : loc) : Js (list (option loc)) := fun h =>
  match arrs h !! a with
  | Some elems => (h, Normal elems)
  | None => (h, Threw Untyped)
  end.

Definition writeArray (a : loc) (elems : list (option loc)) : Js unit := fun h =>
  match arrs h !! a with
  | Some _ => ({| objs := objs h; arrs := <[a := elems]> (arrs h) |}, Normal tt)
  | None => (h, Threw Untyped)
  end.

Definition updateObject (l : loc) (upd : Stage -> Stage) : Js unit := fun h =>
  match objs h !! l with
  | Some s => ({| objs := <[l := upd s]> (objs h); arrs := arrs h |}, Normal tt)
  | None => (h, Threw Untyped)
  end.

(** [arr[i]]. *)
Definition getElem (a : loc) (i : Z) : Js (option loc) :=
  elems ← readArray a; mret (JsArray.get elems i).

(** [arr[i].f] for a field [f]: a [TypeError] when [arr[i]] is
    [undefined]. *)
Definition getProp {A} (a : loc) (i : Z) (f : Stage -> A) : Js A :=
  o ← getElem a i;
  match o with
  | Some l => s ← readObject l; mret (f s)
  | None => threw TypeError
  end.

(** [arr[i].f = v], with [upd] the assignment to [f]: a [TypeError] when
    [arr[i]] is [undefined]. *)
Definition setProp (a : loc) (i : Z) (upd : Stage -> Stage) : Js unit :=
  o ← getElem a i;
  match o with
  | Some l => updateObject l upd
  | None => threw TypeError
  end.

(** [arr.splice(start, deleteCount, ...items)], returning the removed
    elements. *)
Definition spliceArray (a : loc) (start : Z) (deleteCount : nat)
    (items : list (option loc)) : Js (list (option loc)) :=
  elems ← readArray a;
  let '(elems', removed) := JsArray.splice elems start deleteCount items in
  writeArray a elems';; mret removed.

(** [arr.push(x)]. *)
Definition pushArray (a : loc) (x : option loc) : Js unit :=
  elems ← readArray a; writeArray a (elems ++ [x]).

(** [Object.assign({}, s)] for a slot [s].  For an [undefined] slot
    JavaScript returns the empty object, which is not a [Stage]. *)
Definition assignEmpty (s : option loc) : Js loc :=
  match s with
  | Some l => v ← readObject l; newObject v
  | None => threw Untyped
  end.

Fixpoint mapJs {A B} (f : A -> Js B) (xs : list A) : Js (list B) :=
  match xs with
  | [] => mret []
  | x :: xs' => y ← f x; ys ← mapJs f xs'; mret (y :: ys)
  end.

(** [const copyState = (state) => (state.map(s => Object.assign({}, s)));] *)
Definition copyState (state : loc) : Js loc :=
  elems ← readArray state;
  copies ← mapJs assignEmpty elems;
  newArray (Some <$> copies).

(** *** Actions *)

(** The [error] of a preview: [undefined], when the action creator got no
    third argument or got [undefined], or else [null] ([None]) or an [Error]
    object.  The reducer tells [undefined] from [null]. *)
Inductive ErrorArg :=
| ErrorUndefined
| ErrorValue (e : option JsError).

#[warning="-uniform-inheritance"] Coercion ErrorValue : option >-> ErrorArg.

(** The actions built by the action creators of the module, named after
    them, and [otherAction] for an action of any other shape (it has a
    [type] and none of the fields read below). *)
Inductive Action :=
| stageAdded
| stageAddedAfter (index : Z)
| stageChanged (value : string) (index : Z)
| stageCollapseToggled (index : Z)
| stageDeleted (index : Z)
| stageMoved (fromIndex toIndex : Z)
| stageOperatorSelected (index : Z) (operator : option string) (isCommenting : bool)
| stageToggled (index : Z)
| stagePreviewUpdated (docs : list Doc) (index : Z) (error : ErrorArg)
    (isComplete : option bool)
| loadingStageResults (index : Z)
| otherAction (type : string).

(** [action.type]. *)
Definition action_type (a : Action) : string :=
  match a with
  | stageAdded => STAGE_ADDED
  | stageAddedAfter _ => STAGE_ADDED_AFTER
  | stageChanged _ _ => STAGE_CHANGED
  | stageCollapseToggled _ => STAGE_COLLAPSE_TOGGLED
  | stageDeleted _ => STAGE_DELETED
  | stageMoved _ _ => STAGE_MOVED
  | stageOperatorSelected _ _ _ => STAGE_OPERATOR_SELECTED
  | stageToggled _ => STAGE_TOGGLED
  | stagePreviewUpdated _ _ _ _ => STAGE_PREVIEW_UPDATED
  | loadingStageResults _ => LOADING_STAGE_RESULTS
  | otherAction type => type
  end.

(** An entry of [STAGE_OPERATORS] (package mongodb-ace-autocompleter). *)
Module Operator.
Record t := {
  name : string;
  snippet : option string;
  comment : option string
}.
End Operator.

(** What the two impure calls of the reducer return during one call of
    it: [new ObjectId().toHexString()] and [new Date().getTime()]. *)
Record Env := {
  newObjectId : string;
  dateNow : Z
}.

(** [x || d] for [x] a string or [undefined]: the empty string is falsy. *)
Definition or_default (x : option string) (d : string) : string :=
  match x with
  | Some s => if bool_decide (s = ""%string) then d else s
  | None => d
  end.

Section Reducer.

(** The operator table of mongodb-ace-autocompleter, and the id
    [EMPTY_STAGE] received when the module was loaded. *)
Variable STAGE_OPERATORS : list Operator.t.
Variable EMPTY_STAGE_id : string.

Definition EMPTY_STAGE : Stage :=
  {| id := HexId EMPTY_STAGE_id;
     stageOperator := None;
     stage := ""%string;
     isValid := true;
     isEnabled := true;
     isExpanded := true;
     isLoading := false;
     isComplete := Some false;
     previewDocuments := [];
     syntaxError := None;
     error := None;
     executor := None;
     snippet := None;
     fromStageOperators := None |}.

(** [STAGE_OPERATORS.find(op => op.name === name)] *)
Definition getStageOperator (name : option string) : option Operator.t :=
  List.find (fun op => bool_decide (Some (Operator.name op) = name))
    STAGE_OPERATORS.

(** The handlers.  Each reads the fields of the action that its action
    creator builds; given an action of another shape it is [Untyped]. *)
Definition changeStage (state : loc) (action : Action) : Js loc :=
  match action with
  | stageChanged value index =>
      newState ← copyState state;
      setProp newState index (set_stage value);;
      setProp newState index (set_isComplete (Some false));;
      setProp newState index (set_fromStageOperators (Some false));;
      mret newState
  | _ => threw Untyped
  end.

Definition addStage (env : Env) (state : loc) : Js loc :=
  newState ← copyState state;
  newStage ← newObject EMPTY_STAGE;
  updateObject newStage (set_id (HexId (newObjectId env)));;
  pushArray newState (Some newStage);;
  mret newState.

Definition AddAfterStage (env : Env) (state : loc) (action : Action) : Js loc :=
  match action with
  | stageAddedAfter index =>
      newState ← copyState state;
      newStage ← newObject EMPTY_STAGE;
      updateObject newStage (set_id (TimeId (dateNow env)));;
      spliceArray newState (index + 1) 0 [Some newStage];;
      mret newState
  | _ => threw Untyped
  end.

Definition deleteStage (state : loc) (action : Action) : Js loc :=
  match action with
  | stageDeleted index =>
      newState ← copyState state;
      spliceArray newState index 1 [];;
      mret newState
  | _ => threw Untyped
  end.

Definition moveStage (state : loc) (action : Action) : Js loc :=
  match action with
  | stageMoved fromIndex toIndex =>
      if bool_decide (fromIndex = toIndex) then mret state
      else
        newState ← copyState state;
        removed ← spliceArray newState fromIndex 1 [];
        spliceArray newState toIndex 0 [JsArray.get removed 0];;
        mret newState
  | _ => threw Untyped
  end.

Definition selectStageOperator (state : loc) (action : Action) : Js loc :=
  match action with
  | stageOperatorSelected index operatorName isCommenting =>
      current ← getProp state index stageOperator;
      if bool_decide (operatorName ≠ current) then
        newState ← copyState state;
        let operatorDetails := getStageOperator operatorName in
        let snippet :=
          or_default (operatorDetails ≫= Operator.snippet) DEFAULT_SNIPPET in
        let comment := or_default (operatorDetails ≫= Operator.comment) "" in
        let value := if isCommenting then (comment +:+ snippet)%string else snippet in
        setProp newState index (set_stageOperator operatorName);;
        setProp newState index (set_stage value);;
        setProp newState index (set_snippet (Some value));;
        setProp newState index (set_isExpanded true);;
        setProp newState index (set_isComplete (Some false));;
        setProp newState index (set_fromStageOperators (Some true));;
        mret newState
      else mret state
  | _ => threw Untyped
  end.

Definition toggleStage (state : loc) (action : Action) : Js loc :=
  match action with
  | stageToggled index =>
      newState ← copyState state;
      isEnabled' ← getProp newState index isEnabled;
      setProp newState index (set_isEnabled (negb isEnabled'));;
      mret newState
  | _ => threw Untyped
  end.

Definition toggleStageCollapse (state : loc) (action : Action) : Js loc :=
  match action with
  | stageCollapseToggled index =>
      newState ← copyState state;
      isExpanded' ← getProp newState index isExpanded;
      setProp newState index (set_isExpanded (negb isExpanded'));;
      mret newState
  | _ => threw Untyped
  end.

Definition updateStagePreview (state : loc) (action : Action) : Js loc :=
  match action with
  | stagePreviewUpdated documents index error isComplete =>
      newState ← copyState state;
      (* (action.error === null) ? action.documents : [] *)
      setProp newState index
        (set_previewDocuments
           (match error with ErrorValue None => documents | _ => [] end));;
      (* action.error ? action.error.message : null *)
      setProp newState index
        (set_error
           (match error with ErrorValue (Some e) => Some (message e) | _ => None end));;
      setProp newState index (set_isLoading false);;
      setProp newState index (set_isComplete isComplete);;
      mret newState
  | _ => threw Untyped
  end.

Definition stageResultsLoading (state : loc) (action : Action) : Js loc :=
  match action with
  | loadingStageResults index =>
      newState ← copyState state;
      setProp newState index (set_isLoading true);;
      mret newState
  | _ => threw Untyped
  end.

(** [MAPPINGS]: the handler stored under each action name.  These are the
    own properties of the object; [reducer] below adds what a lookup finds
    in [Object.prototype]. *)
Definition MAPPINGS : gmap string (Env -> loc -> Action -> Js loc) :=
  list_to_map [
    (STAGE_CHANGED, fun _ => changeStage);
    (STAGE_ADDED, fun env state _ => addStage env state);
    (STAGE_ADDED_AFTER, AddAfterStage);
    (STAGE_DELETED, fun _ => deleteStage);
    (STAGE_MOVED, fun _ => moveStage);
    (STAGE_OPERATOR_SELECTED, fun _ => selectStageOperator);
    (STAGE_TOGGLED, fun _ => toggleStage);
    (STAGE_COLLAPSE_TOGGLED, fun _ => toggleStageCollapse);
    (STAGE_PREVIEW_UPDATED, fun _ => updateStagePreview);
    (LOADING_STAGE_RESULTS, fun _ => stageResultsLoading)
  ].

(** [const fn = MAPPINGS[action.type]; return fn ? fn(state, action) : state].
    [MAPPINGS] is an object literal, so a type that names no handler may
    still name a member of [Object.prototype], which is truthy and is
    called. *)
Definition reducer (env : Env) (state : loc) (action : Action) : Js loc :=
  match MAPPINGS !! action_type action with
  | Some fn => fn env state action
  | None =>
      match JsObject.inherited (action_type action) with
      | None => mret state
      | Some JsObject.Constructor => mret state
      | Some JsObject.ToString => threw Untyped
      | Some JsObject.NeedsThis | Some JsObject.Proto => threw TypeError
      end
  end.

End Reducer.

(** *** Pipeline generation *)

(** [state.collation] when it is not [null]: an object, given by its own
    enumerable properties, each with the JSON text of its value. *)
Definition Collation : Type := list (string * string).

(** The fields of the store state that the module reads.  [pipeline] has
    type [P]: a reference to the pipeline array in [State loc], the stages
    read out of the store in [State (list Stage)]. *)
Record State (P : Type) := {
  namespace : string;
  inputDocuments_count : Count;
  pipeline : P;
  sample : bool;
  collation : option Collation
}.
Arguments namespace {P} _.
Arguments inputDocuments_count {P} _.
Arguments pipeline {P} _.
Arguments sample {P} _.
Arguments collation {P} _.

(** [arr.reduce((results, x, i) => f(results, x, i), init)], with [from] the
    index of the first element of [arr]. *)
Fixpoint reduce_from {A B} (f : B -> A -> Z -> B) (from : Z) (arr : list A)
    (results : B) : B :=
  match arr with
  | [] => results
  | x :: arr' => reduce_from f (from + 1) arr' (f results x from)
  end.

Definition reduce {A B} (f : B -> A -> Z -> B) (init : B) (arr : list A) : B :=
  reduce_from f 0 arr init.

(** [count === NA] and [count > 100000]. *)
Definition is_NA (count : Count) : bool :=
  match count with NA => true | CountNum _ => false end.

Definition greater (count : Count) (n : Z) : bool :=
  match count with NA => false | CountNum c => n <? c end.

(** *** The world a thunk runs in *)

(** The options object of [executeStage]. *)
Record Options := {
  maxTimeMS : Z;
  allowDiskUse : bool;
  options_collation : option Collation
}.

(** The argument of an [appRegistryEmit]. *)
Inductive EmitArg :=
| NoArg
| Executed (numStages : nat) (stageOperators : list (option string)).

(** What is handed to [dispatch]: an action of this module, or the
    action [appRegistryEmit(name, arg)]. *)
Inductive Dispatched :=
| Dispatch (a : Action)
| AppRegistryEmit (name : string) (arg : EmitArg).

(** A call [dataService.aggregate(ns, pipeline, options, callback)] whose
    callback has not run yet; [call_state] and [call_index] are the
    variables the callback closes over. *)
Record AggregateCall := {
  call_ns : string;
  call_pipeline : list PipelineEntry;
  call_options : Options;
  call_state : State loc;
  call_index : Z
}.

(** What the driver passes to the callback: an error, or a cursor, given
    here by the arguments [(e, docs)] its [toArray] will pass on; a driver
    that has no error to report passes [null] or [undefined] for [e]. *)
Inductive AggregateReply :=
| Failed (err : JsError)
| Cursor (e : ErrorArg) (docs : option (list Doc)).

(** The store together with what has been dispatched so far and the
    driver calls that are waiting for their reply. *)
Record World := {
  heap : Heap;
  dispatched : list Dispatched;
  calls : list AggregateCall
}.

Abbreviation Thunk := (Run World).

(** Run a store computation in the world. *)
Definition liftJs {A} (m : Js A) : Thunk A := fun w =>
  let '(h, c) := m (heap w) in
  ({| heap := h; dispatched := dispatched w; calls := calls w |}, c).

(** [dispatch(action)]: the action is recorded, and the thunk goes on.  The
    [dispatch] of the store also runs [reducer] on the pipeline the store
    holds then, and throws where the reducer throws: on an action whose
    index is no position of that pipeline.  The record says nothing of such
    an action, so the thunks below are followed at indices that are
    positions of the pipeline only. *)
Definition dispatch (d : Dispatched) : Thunk unit := fun w =>
  ({| heap := heap w; dispatched := dispatched w ++ [d]; calls := calls w |},
   Normal tt).

Definition aggregate (call : AggregateCall) : Thunk unit := fun w =>
  ({| heap := heap w; dispatched := dispatched w; calls := calls w ++ [call] |},
   Normal tt).

(** The stage objects an array holds, when every slot is a reference to
    one. *)
Definition deref (h : Heap) (s : option loc) : option Stage :=
  l ← s; objs h !! l.

Definition snapshot (h : Heap) (a : loc) : option (list Stage) :=
  elems ← arrs h !! a; mapM (deref h) elems.

Definition readStages (a : loc) : Js (list Stage) := fun h =>
  match snapshot h a with
  | Some ss => (h, Normal ss)
  | None => (h, Threw Untyped)
  end.

(** [isEmpty] of lodash.isempty on [state.collation]: [null] is empty, and
    so is an object without own enumerable properties. *)
Definition isEmpty (collation : option Collation) : bool :=
  match collation with
  | Some fields => bool_decide (fields = [])
  | None => true
  end.

(** [stage.stageOperator] as a condition: [null] and the empty string
    are falsy. *)
Definition truthy (v : option string) : bool :=
  match v with
  | Some s => bool_decide (s ≠ ""%string)
  | None => false
  end.

Fixpoint forEach {S A} (f : A -> Run S unit) (xs : list A) : Run S unit :=
  match xs with
  | [] => mret tt
  | x :: xs' => f x;; forEach f xs'
  end.

(** [arr.reduce] with a callback that works on the store. *)
Fixpoint reduceJs_from {A B} (f : B -> A -> Z -> Js B) (from : Z) (arr : list A)
    (results : B) : Js B :=
  match arr with
  | [] => mret results
  | x :: arr' =>
      results ← f results x from;
      reduceJs_from f (from + 1) arr' results
  end.

Section Generate.

(** [generateStage] of modules/stage, which is not among the sources at
    hand: it is handed a stage object and compiles it.  [generateStage s] is
    what it returns for an object that reads [s]. *)
Variable generateStage : Stage -> Exec.

(** The callback of the [reduce] in [generatePipeline]. *)
Definition generatePipeline_step (state : State (list Stage)) (index : Z)
    (results : list PipelineEntry) (stage : Stage) (i : Z)
    : list PipelineEntry :=
  let count := inputDocuments_count state in
  if (i <=? index) && isEnabled stage then
    let results :=
      if is_NA count
         || (greater count 100000
             && JsArray.includes FULL_SCAN_OPS (stageOperator stage)
             && sample state)
      then results ++ [LARGE_LIMIT]
      else results in
    results ++ [Compiled (match executor stage with
                          | Some e => e
                          | None => generateStage stage
                          end)]
  else results.

Definition generatePipeline (state : State (list Stage)) (index : Z)
    : Completion (list PipelineEntry) :=
  let stages := reduce (generatePipeline_step state index) [] (pipeline state) in
  match stages with
  | [] => Normal stages
  | _ :: _ =>
      (* lastStage = state.pipeline[state.pipeline.length - 1] *)
      match last (pipeline state) with
      | None => Threw TypeError
      | Some lastStage =>
          if negb (JsArray.includes REQUIRED_AS_FIRST_STAGE (stageOperator lastStage))
             && bool_decide (stageOperator lastStage ≠ Some OUT)
          then Normal (stages ++ [LIMIT])
          else Normal stages
      end
  end.

(** *** Stage execution *)

(** What a call of [generateStage] leaves of the stage object it was handed:
    [generateStage_writes s] is what an object that read [s] reads after the
    call.  [executeAggregation] tests [stage.isValid] right after the call,
    and the module assigns that field nowhere. *)
Variable generateStage_writes : Stage -> Stage.

(** [generateStage(stage)] for a stage object of the store. *)
Definition generateStage_at (stage : loc) : Js Exec :=
  s ← readObject stage;
  updateObject stage generateStage_writes;;
  mret (generateStage s).

(** The callback of the [reduce] in [generatePipeline], on a slot of the
    pipeline array of the store. *)
Definition generatePipeline_step_at (state : State loc) (index : Z)
    (results : list PipelineEntry) (slot : option loc) (i : Z)
    : Js (list PipelineEntry) :=
  let count := inputDocuments_count state in
  if i <=? index then
    match slot with
    | None => threw TypeError
    | Some stage =>
        s ← readObject stage;
        if isEnabled s then
          let results :=
            if is_NA count
               || (greater count 100000
                   && JsArray.includes FULL_SCAN_OPS (stageOperator s)
                   && sample state)
            then results ++ [LARGE_LIMIT]
            else results in
          e ← match executor s with
              | Some e => mret e
              | None => generateStage_at stage
              end;
          mret (results ++ [Compiled e])
        else mret results
    end
  else mret results.

(** [generatePipeline(state, index)] on the pipeline array of the store: as
    [generatePipeline] above, with the calls of [generateStage] made on the
    stage objects themselves. *)
Definition generatePipeline_at (state : State loc) (index : Z)
    : Js (list PipelineEntry) :=
  elems ← readArray (pipeline state);
  stages ← reduceJs_from (generatePipeline_step_at state index) 0 elems [];
  match stages with
  | [] => mret stages
  | _ :: _ =>
      o ← getElem (pipeline state) (Z.of_nat (length elems) - 1);
      match o with
      | None => threw TypeError
      | Some lastStage =>
          s ← readObject lastStage;
          if negb (JsArray.includes REQUIRED_AS_FIRST_STAGE (stageOperator s))
             && bool_decide (stageOperator s ≠ Some OUT)
          then mret (stages ++ [LIMIT])
          else mret stages
      end
  end.

Definition executeStage (ns : string) (state : State loc) (index : Z)
    : Thunk unit :=
  dispatch (Dispatch (loadingStageResults index));;
  pipeline ← liftJs (generatePipeline_at state index);
  let options :=
    {| maxTimeMS := 5000; allowDiskUse := true;
       options_collation :=
         if isEmpty (collation state) then None else collation state |} in
  aggregate {| call_ns := ns; call_pipeline := pipeline;
               call_options := options; call_state := state;
               call_index := index |}.

(** The callback given to [dataService.aggregate], run on the driver's
    reply ([cursor.close()] is a call into the driver and leaves no trace
    here). *)
Definition aggregateCallback (call : AggregateCall) (reply : AggregateReply)
    : Thunk unit :=
  let state := call_state call in
  let index := call_index call in
  match reply with
  | Failed err => dispatch (Dispatch (stagePreviewUpdated [] index (Some err) None))
  | Cursor e docs =>
      dispatch (Dispatch (stagePreviewUpdated (default [] docs) index e (Some true)));;
      ss ← liftJs (readStages (pipeline state));
      dispatch (AppRegistryEmit "agg-pipeline-executed"
                  (Executed (length ss) (stageOperator <$> ss)))
  end.

Definition executeAggregation (ns : string) (state : State loc) (index : Z)
    : Thunk unit :=
  o ← liftJs (getElem (pipeline state) index);
  match o with
  | None => threw TypeError
  | Some stage =>
      executor ← liftJs (generateStage_at stage);
      liftJs (updateObject stage (set_executor (Some executor)));;
      s ← liftJs (readObject stage);
      if isValid s && isEnabled s && truthy (stageOperator s)
         && bool_decide (stageOperator s ≠ Some OUT)
      then executeStage ns state index
      else dispatch (Dispatch (stagePreviewUpdated [] index None (Some false)))
  end.

(** [runOutStage(index)(dispatch, getState)], with [state] what
    [getState()] returns. *)
Definition runOutStage (index : Z) (state : State loc) : Thunk unit :=
  executeStage (namespace state) state index;;
  dispatch (AppRegistryEmit "agg-pipeline-out-executed" NoArg).

(** [runStage(index)(dispatch, getState)].  The loop runs [i] from
    [index] while [i < state.pipeline.length]; its body leaves the length
    of the array as it is, so the indices are fixed on entry. *)
Definition runStage (index : Z) (state : State loc) : Thunk unit :=
  elems ← liftJs (readArray (pipeline state));
  forEach (executeAggregation (namespace state) state)
    (seqZ index (Z.of_nat (length elems) - index)).

End Generate.

(** *** The pipeline as text, and the output collection *)

(** [arr.filter((x, i) => p(x, i))], with [from] the index of the first
    element of [arr]. *)
Fixpoint filter_from {A} (p : A -> Z -> bool) (from : Z) (arr : list A)
    : list A :=
  match arr with
  | [] => []
  | x :: arr' =>
      if p x from then x :: filter_from p (from + 1) arr'
      else filter_from p (from + 1) arr'
  end.

Definition filter_indexed {A} (p : A -> Z -> bool) (arr : list A) : list A :=
  filter_from p 0 arr.

(** [arr.join(sep)] for an array of strings. *)
Fixpoint join (sep : string) (arr : list string) : string :=
  match arr with
  | [] => ""
  | [x] => x
  | x :: arr' => x +:+ sep +:+ join sep arr'
  end.

(** The double quote character. *)
Definition QUOTE : Ascii.ascii := Ascii.ascii_of_nat 34.

(** The global [replace] of [gotoOutResults], which removes every double
    quote of the string. *)
Fixpoint remove_quotes (s : string) : string :=
  match s with
  | EmptyString => EmptyString
  | String c s' =>
      if bool_decide (c = QUOTE) then remove_quotes s'
      else String c (remove_quotes s')
  end.

Section AsString.

(** [generateStageAsString] of modules/stage, and the [database] field of
    what [toNS] (package mongodb-ns) returns for a namespace. *)
Variable generateStageAsString : Stage -> string.
Variable toNS_database : string -> string.

Definition generatePipelineAsString (state : State (list Stage)) (index : Z)
    : string :=
  "[" +:+
  join ", "
    (generateStageAsString
       <$> filter_indexed (fun s i => isEnabled s && (i <=? index))
             (pipeline state))
  +:+ "]".

(** [gotoOutResults(collection)(dispatch, getState)], with [namespace] what
    [getState().namespace] is: the name and the argument of the one
    [appRegistryEmit] action it dispatches. *)
Definition gotoOutResults (collection : string) (namespace : string)
    : string * string :=
  let database := toNS_database namespace in
  let outNamespace := database +:+ "." +:+ remove_quotes collection in
  ("show-agg-pipeline-out-results"%string, outNamespace).

End AsString.

(** *** Vocabulary of the properties *)

(** The store [h] after the allocation of the objects [ss] and of one
    array holding [elems]. *)
Definition extended (h : Heap) (ss : list Stage) (elems : list (option loc))
    : Heap :=
  {| objs := objs h ++ ss; arrs := arrs h ++ [elems] |}.

(** The store [h] after [copyState] has copied the stages [ss]: the new
    array refers to the new objects, in order. *)
Definition copied (h : Heap) (ss : list Stage) : Heap :=
  extended h ss (Some <$> seq (length (objs h)) (length ss)).

(** Every object and every array of [h] is in [h'], at its address and
    with its contents. *)
Definition preserved (h h' : Heap) : Prop :=
  (forall l s, objs h !! l = Some s -> objs h' !! l = Some s)
  /\ (forall a elems, arrs h !! a = Some elems -> arrs h' !! a = Some elems).

(** A slot that does not refer to an object of [h]. *)
Definition fresh_slot (h : Heap) (x : option loc) : Prop :=
  forall l, x = Some l -> (length (objs h) <= l)%nat.

(** [a] is an array of [h'] that [h] does not have, and no slot of it
    refers to an object of [h]. *)
Definition fresh_copy (h h' : Heap) (a : loc) : Prop :=
  (length (arrs h) <= a)%nat
  /\ exists elems, arrs h' !! a = Some elems /\ Forall (fresh_slot h) elems.

(** [h'] is [h] with more objects and arrays allocated after it. *)
Definition extends (h h' : Heap) : Prop :=
  objs h `prefix_of` objs h' /\ arrs h `prefix_of` arrs h'.

(** What a computation leaves behind when run from [h]. *)
Definition post {A} (m : Js A) (h : Heap) (Q : Heap -> Completion A -> Prop)
    : Prop :=
  Q (m h).1 (m h).2.

(** Run after [copyState] has made the array [n] out of the store [h0],
    [m] keeps [h0] as it is and [n] a fresh copy, and returns a value
    that satisfies [R]. *)
Definition keeps (h0 : Heap) (n : loc) {A} (m : Js A) (R : A -> Prop) : Prop :=
  forall h, extends h0 h -> fresh_copy h0 h n ->
    post m h (fun h' c =>
      extends h0 h' /\ fresh_copy h0 h' n /\ forall a, c = Normal a -> R a).

(** A recognized action that hands back the state it was given: a move of
    a stage onto its own position, or the selection of the operator that
    the stage already has. *)
Definition returns_input (state : loc) (action : Action) (h : Heap) : Prop :=
  match action with
  | stageMoved fromIndex toIndex => fromIndex = toIndex
  | stageOperatorSelected index operator _ =>
      getProp state index stageOperator h = (h, Normal operator)
  | _ => False
  end.

(** The ten action names that [MAPPINGS] has a handler for. *)
Definition ACTION_TYPES : list string :=
  [STAGE_CHANGED; STAGE_ADDED; STAGE_ADDED_AFTER; STAGE_DELETED; STAGE_MOVED;
   STAGE_OPERATOR_SELECTED; STAGE_TOGGLED; STAGE_COLLAPSE_TOGGLED;
   STAGE_PREVIEW_UPDATED; LOADING_STAGE_RESULTS].

(** The operator is neither a first-position-only operator nor [$out]. *)
Definition may_be_limited (op : option string) : Prop :=
  forall name, op = Some name -> (name ∉ REQUIRED_AS_FIRST_STAGE) /\ (name ≠ OUT).

(** The operator is one of the full-table-scan operators. *)
Definition full_scan (op : option string) : Prop :=
  exists name, op = Some name /\ name ∈ FULL_SCAN_OPS.

(** The results are empty or end with a compiled stage. *)
Definition ends_compiled (results : list PipelineEntry) : Prop :=
  results = [] \/ exists e, last results = Some (Compiled e).

(** Some stage at or before [index] is enabled. *)
Definition some_stage_runs (stages : list Stage) (index : Z) : Prop :=
  exists (i : nat) stage,
    stages !! i = Some stage /\ Z.of_nat i <= index /\ isEnabled stage = true.

(** What a handler leaves behind when run on [state] in the store [h0]:
    the store is only extended, and a returned reference is a fresh copy,
    or the input itself with the store untouched. *)
Definition copy_on_write (h0 : Heap) (state : loc) (action : Action)
    (h' : Heap) (c : Completion loc) : Prop :=
  extends h0 h'
  /\ forall newState, c = Normal newState ->
       fresh_copy h0 h' newState
       \/ (returns_input state action h0 /\ h' = h0 /\ newState = state).

(** Running [m] from any state [s] ends in a state related to [s] by
    [P]. *)
Definition stable {S A} (P : S -> S -> Prop) (m : Run S A) : Prop :=
  forall s, P s (m s).1.

(** [s'] is what a stage object that read [s] reads after calls of
    [generateStage] on it and assignments to its [executor], in any number
    and order. *)
Inductive rewritten (generateStage_writes : Stage -> Stage) (s : Stage)
    : Stage -> Prop :=
| rewritten_not : rewritten generateStage_writes s s
| rewritten_call s' :
    rewritten generateStage_writes s s' ->
    rewritten generateStage_writes s (generateStage_writes s')
| rewritten_executor s' v :
    rewritten generateStage_writes s s' ->
    rewritten generateStage_writes s (set_executor v s').

(** [h'] has the arrays of [h], and the objects of [h], each rewritten. *)
Definition same_but_rewritten (generateStage_writes : Stage -> Stage)
    (h h' : Heap) : Prop :=
  arrs h' = arrs h
  /\ Forall2 (rewritten generateStage_writes) (objs h) (objs h').

(** Two relations between worlds: the store is the same, and the store is
    the same but for stage objects rewritten. *)
Definition same_heap (w w' : World) : Prop := heap w' = heap w.

Definition same_stages (generateStage_writes : Stage -> Stage)
    (w w' : World) : Prop :=
  same_but_rewritten generateStage_writes (heap w) (heap w').

(** The reading of the ownership rule in which running stages leaves the
    store exactly as it was. *)
Definition execution_leaves_store (generateStage : Stage -> Exec)
    (generateStage_writes : Stage -> Stage) (index : Z)
    (state : State loc) (w : World) : Prop :=
  heap (runStage generateStage generateStage_writes index state w).1 = heap w.

(** The reading of the copy-on-write contract in which every recognized
    action returns a fresh copy. *)
Definition always_copies (STAGE_OPERATORS : list Operator.t)
    (EMPTY_STAGE_id : string) (env : Env) (state : loc) (action : Action)
    (h : Heap) : Prop :=
  forall h' c,
    reducer STAGE_OPERATORS EMPTY_STAGE_id env state action h = (h', c) ->
    preserved h h'
    /\ (action_type action ∈ ACTION_TYPES ->
        exists newState, c = Normal newState /\ fresh_copy h h' newState)
    /\ (action_type action ∉ ACTION_TYPES -> c = Normal state).

(** Run in [h], [m] returns a pipeline that reads [ss'], and every object
    and array of [h] is as it was. *)
Definition yields (m : Js loc) (h : Heap) (ss' : list Stage) : Prop :=
  exists h' state',
    m h = (h', Normal state') /\ preserved h h' /\ snapshot h' state' = Some ss'.

(** The index at which a handler reads [newState[action.index]] (or
    [state[action.index]]) to get or set a field, for the six kinds of
    action whose handler does. *)
Definition dereferenced (action : Action) : option Z :=
  match action with
  | stageChanged _ index
  | stageCollapseToggled index
  | stageOperatorSelected index _ _
  | stageToggled index
  | stagePreviewUpdated _ index _ _
  | loadingStageResults index => Some index
  | _ => None
  end.

(** [i] is a position of [ss]. *)
Definition valid_index (ss : list Stage) (i : Z) : Prop :=
  0 <= i < Z.of_nat (length ss).

(** The text a stage gets when the operator [name] is selected. *)
Definition snippet_of (STAGE_OPERATORS : list Operator.t)
    (name : option string) (isCommenting : bool) : string :=
  let details := getStageOperator STAGE_OPERATORS name in
  let snippet := or_default (details ≫= Operator.snippet) DEFAULT_SNIPPET in
  let comment := or_default (details ≫= Operator.comment) "" in
  if isCommenting then (comment +:+ snippet)%string else snippet.

(** The condition under which [executeAggregation] runs a stage. *)
Definition runnable (s : Stage) : bool :=
  isValid s && isEnabled s && truthy (stageOperator s)
  && bool_decide (stageOperator s ≠ Some OUT).

(** What [executeAggregation] dispatches first for the stage [s] at [i]. *)
Definition announced (s : Stage) (i : Z) : Dispatched :=
  if runnable s then Dispatch (loadingStageResults i)
  else Dispatch (stagePreviewUpdated [] i None (Some false)).

(** The entry of the driver pipeline that stands for the stage [s]. *)
Definition sent (generateStage : Stage -> Exec) (s : Stage) : PipelineEntry :=
  Compiled (match executor s with Some e => e | None => generateStage s end).

Definition is_compiled (e : PipelineEntry) : bool :=
  match e with Compiled _ => true | Limit _ => false end.

(** The state as [generatePipeline] reads it when its pipeline holds the
    stages [ss]. *)
Definition view_of (state : State loc) (ss : list Stage) : State (list Stage) :=
  {| namespace := namespace state;
     inputDocuments_count := inputDocuments_count state;
     pipeline := ss;
     sample := sample state;
     collation := collation state |}.

(** The driver call of [executeStage] for the pipeline [out]: a time limit
    of 5000 ms, disk use allowed, and the collation of the state unless it
    is [null] or an object without properties. *)
Definition call_of (ns : string) (state : State loc) (index : Z)
    (out : list PipelineEntry) : AggregateCall :=
  {| call_ns := ns;
     call_pipeline := out;
     call_options :=
       {| maxTimeMS := 5000; allowDiskUse := true;
          options_collation :=
            match collation state with
            | Some (field :: fields) => Some (field :: fields)
            | _ => None
            end |};
     call_state := state;
     call_index := index |}.

(** What a stage object that read [s] reads after [executeAggregation] has
    compiled it: [generateStage] has run on it, and what it returned is in
    [executor]. *)
Definition compiled (generateStage : Stage -> Exec)
    (generateStage_writes : Stage -> Stage) (s : Stage) : Stage :=
  set_executor (Some (generateStage s)) (generateStage_writes s).

(** Every enabled stage of [ss] at or before [index] has a compiled stage
    in its [executor], so that [generatePipeline] up to [index] makes no
    call of [generateStage]. *)
Definition cached (ss : list Stage) (index : Z) : Prop :=
  forall (j : nat) s,
    ss !! j = Some s -> Z.of_nat j <= index -> isEnabled s = true ->
    is_Some (executor s).

(** What [runStage] dispatches for the stages [ss], the first of which is
    at the index [from]. *)
Fixpoint announced_from (from : Z) (ss : list Stage) : list Dispatched :=
  match ss with
  | [] => []
  | s :: ss' => announced s from :: announced_from (from + 1) ss'
  end.

(** The indices of the stages of [ss] that [executeAggregation] runs, the
    first stage of [ss] being at the index [from]. *)
Fixpoint runnable_from (from : Z) (ss : list Stage) : list Z :=
  match ss with
  | [] => []
  | s :: ss' =>
      (if runnable s then [from] else []) ++ runnable_from (from + 1) ss'
  end.

End Pipeline.

(** ** stores/aggregations-queries-items.ts *)

Module SavedItems.

(** The [type] of an item: ['query'] or ['aggregation']. *)
Inductive ItemType := type_query | type_aggregation.

Module Item.
Record t := {
  id : string;
  lastModified : Z;
  name : string;
  database : string;
  collection : string;
  type : ItemType
}.
End Item.

Module Query.
Record t := {
  _id : string;
  _name : string;
  _ns : string;
  _dateSaved : Z
}.
End Query.

Module Aggregation.
Record t := {
  id : string;
  name : string;
  namespace : string;
  lastModified : Z
}.
End Aggregation.

(** The two fields read of what [toNS] (package mongodb-ns) returns. *)
Record NS := {
  database : string;
  collection : string
}.

(** A settled promise, as [Promise.allSettled] reports it. *)
Inductive Settled (A : Type) :=
| fulfilled (value : A)
| rejected (reason : string).
Arguments fulfilled {A} value.
Arguments rejected {A} reason.

(** The only action of the store: [ITEMS_FETCHED] with its payload. *)
Inductive Actions :=
| ITEMS_FETCHED (payload : list Item.t)
| otherAction (type : string).

Record State := {
  loading : bool;
  items : list Item.t
}.

Definition INITIAL_STATE : State := {| loading := true; items := [] |}.

Definition reducer (state : State) (action : Actions) : State :=
  match action with
  | ITEMS_FETCHED payload => {| items := payload; loading := false |}
  | otherAction _ => state
  end.

Section Fetch.

Variable toNS : string -> NS.

(** The callback of the [map] in [getAggregationItems]. *)
Definition aggregationItem (aggregation : Aggregation.t) : Item.t :=
  let ns := toNS (Aggregation.namespace aggregation) in
  {| Item.id := Aggregation.id aggregation;
     Item.lastModified := Aggregation.lastModified aggregation;
     Item.name := Aggregation.name aggregation;
     Item.database := database ns;
     Item.collection := collection ns;
     Item.type := type_aggregation |}.

(** [getAggregationItems], given how the promise of
    [readPipelinesFromStorage()] settles. *)
Definition getAggregationItems
    (readPipelinesFromStorage : Settled (list Aggregation.t))
    : Settled (list Item.t) :=
  match readPipelinesFromStorage with
  | rejected reason => rejected reason
  | fulfilled aggregations => fulfilled (aggregationItem <$> aggregations)
  end.

(** The callback of the [map] in [getQueryItems]. *)
Definition queryItem (query : Query.t) : Item.t :=
  let ns := toNS (Query._ns query) in
  {| Item.id := Query._id query;
     Item.name := Query._name query;
     Item.lastModified := Query._dateSaved query;
     Item.database := database ns;
     Item.collection := collection ns;
     Item.type := type_query |}.

(** [getQueryItems], given how the promise of
    [favoriteQueryStorage.loadAll()] settles. *)
Definition getQueryItems (loadAll : Settled (list Query.t))
    : Settled (list Item.t) :=
  match loadAll with
  | rejected reason => rejected reason
  | fulfilled queries => fulfilled (queryItem <$> queries)
  end.

(** [Promise.allSettled(promises)] never rejects: it fulfils with the
    outcomes in the order of the promises. *)
Definition allSettled {A} (promises : list (Settled A)) : Settled (list (Settled A)) :=
  fulfilled promises.

(** [fetchItems()(dispatch)]: the actions it dispatches and how the
    promise it returns settles. *)
Definition fetchItems (readPipelinesFromStorage : Settled (list Aggregation.t))
    (loadAll : Settled (list Query.t)) : list Actions * Settled unit :=
  match allSettled [getAggregationItems readPipelinesFromStorage;
                    getQueryItems loadAll] with
  | rejected reason => ([], rejected reason)
  | fulfilled payload =>
      ([ITEMS_FETCHED
          (concat ((fun result =>
                      match result with
                      | fulfilled value => value
                      | rejected _ => []
                      end) <$> payload))],
       fulfilled tt)
  end.

End Fetch.

(** What a settled read contributes to the payload: its value, or nothing
    when it was rejected. *)
Definition settled_value {A} (result : Settled (list A)) : list A :=
  match result with
  | fulfilled value => value
  | rejected _ => []
  end.

End SavedItems.

(** ** The legacy drag source and drop target of a stage *)

Module SortableStageContainer.

(** The item of a drag, as [monitor.getItem()] returns it: the object that
    [beginDrag] built, whose [index] the drop target overwrites. *)
Record DragItem := {
  index : Z;
  stageOperator : option string
}.

(** [spec.beginDrag(props)] *)
Definition beginDrag (props_index : Z) (props_stageOperator : option string)
    : DragItem :=
  {| index := props_index; stageOperator := props_stageOperator |}.

Section Hover.

(** The numbers of the browser (screen coordinates): their subtraction,
    their division by two and their comparison [<]. *)
Variable num : Type.
Variable minus : num -> num -> num.
Variable half : num -> num.
Variable lt : num -> num -> bool.

(** The two fields read of [getBoundingClientRect()]. *)
Record Rect := {
  top : num;
  bottom : num
}.

(** [spec.hover(props, monitor, hoverComponent)], given the index of the
    hovered stage, the item of the drag, the rectangle of the hovered
    component and [monitor.getClientOffset().y]: the item after the call and
    the calls [props.onMove(fromIndex, toIndex)] it made. *)
Definition hover (props_index : Z) (item : DragItem) (hoverBoundingRect : Rect)
    (clientOffset_y : num) : DragItem * list (Z * Z) :=
  let fromIndex := index item in
  let toIndex := props_index in
  if bool_decide (fromIndex ≠ toIndex) then
    let hoverMiddleY :=
      half (minus (bottom hoverBoundingRect) (top hoverBoundingRect)) in
    let hoverClientY := minus clientOffset_y (top hoverBoundingRect) in
    if (fromIndex <? toIndex) && lt hoverClientY hoverMiddleY then (item, [])
    else if (toIndex <? fromIndex) && lt hoverMiddleY hoverClientY then (item, [])
    else
      ({| index := toIndex; stageOperator := stageOperator item |},
       [(fromIndex, toIndex)])
  else (item, []).

End Hover.

End SortableStageContainer.

(** ** components/pipeline-builder-workspace/pipeline-builder-ui-workspace.jsx *)

Module Workspace.

(** What the component renders, in document order.  An [AddStage] is given
    by its variant and by the argument its callback passes to [onAddStage]:
    [AddStageIcon after] stands for
    [<AddStage onAddStage={() => onAddStage(after)} variant='icon' />], and
    [AddStageButton] for [<AddStage onAddStage={onAddStage} variant='button' />]. *)
Inductive Element (Id : Type) :=
| ModifySourceBanner (editViewName : string)
| PipelineBuilderInputDocuments
| AddStageIcon (after : Z)
| Stage (key : Id) (index : Z)
| AddStageButton.
Arguments ModifySourceBanner {Id} editViewName.
Arguments PipelineBuilderInputDocuments {Id}.
Arguments AddStageIcon {Id} after.
Arguments Stage {Id} key index.
Arguments AddStageButton {Id}.

(** [arr.map((x, i) => f(x, i))], with [from] the index of the first element
    of [arr]. *)
Fixpoint map_from {A B} (f : A -> Z -> B) (from : Z) (arr : list A) : list B :=
  match arr with
  | [] => []
  | x :: arr' => f x from :: map_from f (from + 1) arr'
  end.

Section Render.

Variable Id : Type.

(** [SortableStage]: the stage, and the icon to add a stage after it unless
    it is the last one. *)
Definition SortableStage (key : Id) (idx : Z) (isLastStage : bool) (after : Z)
    : list (Element Id) :=
  Stage key idx :: (if negb isLastStage then [AddStageIcon after] else []).

(** [render()], given [this.props.stageIds] and [this.props.editViewName]
    (a string or [undefined]). *)
Definition render (stageIds : list Id) (editViewName : option string)
    : list (Element Id) :=
  (match editViewName with
   | Some name => if bool_decide (name ≠ ""%string) then [ModifySourceBanner name] else []
   | None => []
   end)
  ++ [PipelineBuilderInputDocuments]
  ++ (if bool_decide (length stageIds ≠ 0%nat) then [AddStageIcon (-1)] else [])
  ++ concat
       (map_from
          (fun id index =>
             SortableStage id index
               (bool_decide (index = Z.of_nat (length stageIds) - 1)) index)
          0 stageIds)
  ++ [AddStageButton].

(** [onStageMoved({ oldIndex, newIndex })]: the call
    [this.props.onStageMoveEnd(oldIndex, newIndex)] it makes. *)
Definition onStageMoved (oldIndex newIndex : Z) : Z * Z := (oldIndex, newIndex).

End Render.

End Workspace.

(** ** Concrete stages, states and stores used in the examples *)

Module Sample.
Import Pipeline.

(** A stand-in for [generateStage]: the operator and the body text. *)
Definition compile (s : Stage) : Exec :=
  exec (default "null" (stageOperator s) +:+ ": " +:+ stage s).

Definition operators : list Operator.t :=
  [ {| Operator.name := "$match";
       Operator.snippet := Some "{ query }"%string;
       Operator.comment := Some "/** query: the filter */ "%string |} ].

Definition env : Env := {| newObjectId := "5f1e"; dateNow := 1600000000000 |}.

(** An enabled stage with the given operator and body. *)
Definition stageOf (operator body : string) : Stage :=
  set_stage body (set_stageOperator (Some operator) (EMPTY_STAGE "5f00")).

Definition matchStage : Stage := stageOf "$match" "{ a: 1 }".
Definition groupStage : Stage := stageOf "$group" "{ _id: 1 }".
Definition disabledMatch : Stage := set_isEnabled false matchStage.
Definition outStage : Stage := stageOf "$out" "'results'".

Definition stateOf (count : Count) (sampling : bool) (stages : list Stage)
    : State (list Stage) :=
  {| namespace := "db.coll"; inputDocuments_count := count;
     pipeline := stages; sample := sampling; collation := None |}.

(** A pipeline whose only stage is disabled. *)
Definition only_disabled : State (list Stage) :=
  stateOf (CountNum 10) false [disabledMatch].

(** A [$match] stage on a collection whose count is not known, with
    sampling switched off. *)
Definition unknown_count : State (list Stage) :=
  stateOf NA false [matchStage].

(** A store with one pipeline array, [[matchStage; groupStage]]. *)
Definition store : Heap :=
  {| objs := [matchStage; groupStage]; arrs := [[Some 0%nat; Some 1%nat]] |}.

(** The state over [store], and a world in which nothing has been
    dispatched. *)
Definition state : State loc :=
  {| namespace := "db.coll"; inputDocuments_count := CountNum 10;
     pipeline := 0%nat; sample := false; collation := None |}.

Definition world : World :=
  {| heap := store; dispatched := []; calls := [] |}.

(** The stages of the pipeline of [store], and the reducer over the sample
    operators. *)
Definition stages : list Stage := [matchStage; groupStage].

Definition run : loc -> Action -> Js loc := reducer operators "5f00" env.

(** A stand-in for what [generateStage] leaves of the stage object it is
    handed: a stage whose body is an opening brace alone is marked invalid,
    with a syntax error, and any other stage valid. *)
Definition check (s : Stage) : Stage :=
  {| id := id s;
     stageOperator := stageOperator s;
     stage := stage s;
     isValid := bool_decide (stage s ≠ "{"%string);
     isEnabled := isEnabled s;
     isExpanded := isExpanded s;
     isLoading := isLoading s;
     isComplete := isComplete s;
     previewDocuments := previewDocuments s;
     syntaxError :=
       if bool_decide (stage s ≠ "{"%string) then None
       else Some "Stage must be a properly formatted document."%string;
     error := error s;
     executor := executor s;
     snippet := snippet s;
     fromStageOperators := fromStageOperators s |}.

(** A store whose pipeline starts with a stage that does not parse, and a
    world over it in which nothing has been dispatched. *)
Definition brokenStage : Stage := stageOf "$project" "{".

Definition broken_store : Heap :=
  {| objs := [brokenStage; groupStage]; arrs := [[Some 0%nat; Some 1%nat]] |}.

Definition broken_world : World :=
  {| heap := broken_store; dispatched := []; calls := [] |}.

(** The sample store after its stages have been compiled, and a world over
    it. *)
Definition compiled_stages : list Stage :=
  compiled compile check <$> stages.

Definition compiled_world : World :=
  {| heap := {| objs := compiled_stages; arrs := [[Some 0%nat; Some 1%nat]] |};
     dispatched := []; calls := [] |}.

End Sample.

(** * Properties *)

Import Pipeline.

(** ** The saved-items aggregator *)

Section SavedItemsFacts.

Variable toNS : string -> SavedItems.NS.

(** C3. Whatever the two storage reads do, [fetchItems] dispatches exactly
    one items-fetched action and the promise it returns fulfils: a
    rejection of a source is never propagated.  When both reads fulfil,
    the payload is the normalized aggregations followed by the normalized
    queries; when exactly one rejects, the payload is exactly the
    normalized items of the other; when both reject it is empty. *)
Theorem fetchItems_tolerates_rejection :
  (forall aggs queries,
      SavedItems.fetchItems toNS (SavedItems.fulfilled aggs) (SavedItems.fulfilled queries)
      = ([SavedItems.ITEMS_FETCHED
            ((SavedItems.aggregationItem toNS <$> aggs)
             ++ (SavedItems.queryItem toNS <$> queries))],
         SavedItems.fulfilled tt))
  /\ (forall aggs reason,
      SavedItems.fetchItems toNS (SavedItems.fulfilled aggs) (SavedItems.rejected reason)
      = ([SavedItems.ITEMS_FETCHED (SavedItems.aggregationItem toNS <$> aggs)],
         SavedItems.fulfilled tt))
  /\ (forall reason queries,
      SavedItems.fetchItems toNS (SavedItems.rejected reason) (SavedItems.fulfilled queries)
      = ([SavedItems.ITEMS_FETCHED (SavedItems.queryItem toNS <$> queries)],
         SavedItems.fulfilled tt))
  /\ (forall reason_a reason_q,
      SavedItems.fetchItems toNS (SavedItems.rejected reason_a) (SavedItems.rejected reason_q)
      = ([SavedItems.ITEMS_FETCHED []], SavedItems.fulfilled tt)).
Proof.
  unfold SavedItems.fetchItems, SavedItems.allSettled.
  repeat split; intros; cbn; by rewrite ?app_nil_r.
Qed.

End SavedItemsFacts.

(** ** Pipeline generation *)

Section GenerateFacts.

Variable generateStage : Stage -> Exec.
Variable state : State (list Stage).
Variable index : Z.

Local Abbreviation step := (generatePipeline_step generateStage state index).

Lemma includes_spec arr op :
  JsArray.includes arr op = true <-> exists name, op = Some name /\ name ∈ arr.
Proof.
  unfold JsArray.includes. destruct op as [name|].
  - rewrite bool_decide_eq_true. split.
    + intros H. by exists name.
    + by intros (name' & [= <-] & H).
  - split; [done | by intros (name & ? & _)].
Qed.

(** What the callback adds for one stage. *)
Lemma step_appends results stage i :
  step results stage i = results ++ step [] stage i.
Proof.
  unfold generatePipeline_step.
  destruct (_ && isEnabled stage); [|by rewrite app_nil_r].
  destruct (is_NA _ || _); cbn; by rewrite <- ?app_assoc.
Qed.

Lemma step_runs stage i :
  step [] stage i ≠ [] <-> i <= index /\ isEnabled stage = true.
Proof.
  unfold generatePipeline_step.
  destruct (Z.leb_spec i index) as [Hle | Hlt], (isEnabled stage); cbn.
  - split; [by intros _ | intros _].
    destruct (is_NA _ || _); cbn; discriminate.
  - split; [done | by intros [_ ?]].
  - split; [done | intros [? _]; lia].
  - split; [done | intros [? _]; lia].
Qed.

(** With a known count the large limit goes ahead of a stage only when its
    operator is a full-table-scan operator and the count exceeds 100000. *)
Lemma large_limit_known_count stage i c :
  inputDocuments_count state = CountNum c ->
  LARGE_LIMIT ∈ step [] stage i ->
  full_scan (stageOperator stage) /\ 100000 < c.
Proof.
  intros Hc. unfold generatePipeline_step. rewrite Hc. cbn.
  destruct (_ && isEnabled stage); [|by intros ?%elem_of_nil].
  destruct (100000 <? c) eqn:Hgt; cbn;
    [|by intros [=]%list_elem_of_singleton].
  destruct (JsArray.includes FULL_SCAN_OPS (stageOperator stage)) eqn:Hop; cbn;
    [|by intros [=]%list_elem_of_singleton].
  intros _. split; [by apply includes_spec | by apply Z.ltb_lt].
Qed.

(** With the count not known the large limit goes ahead of every enabled
    stage at or before the index, whatever its operator and whether sampling
    is on or not. *)
Lemma large_limit_unknown_count stage i :
  inputDocuments_count state = NA ->
  i <= index -> isEnabled stage = true ->
  exists e, step [] stage i = [LARGE_LIMIT; Compiled e].
Proof.
  intros Hc Hi Hen. unfold generatePipeline_step. rewrite Hc, Hen.
  destruct (Z.leb_spec i index); [|lia]. cbn. by eexists.
Qed.

Lemma step_ends_compiled results stage i :
  ends_compiled results -> ends_compiled (step results stage i).
Proof.
  intros H. unfold generatePipeline_step.
  destruct (_ && isEnabled stage); [|done].
  right. eexists. by rewrite last_snoc.
Qed.

Lemma reduce_from_ends_compiled arr from results :
  ends_compiled results -> ends_compiled (reduce_from step from arr results).
Proof.
  revert from results.
  induction arr as [|stage arr IH]; intros from results H; cbn; [done|].
  by apply IH, step_ends_compiled.
Qed.

Lemma reduce_from_nonempty arr from results :
  reduce_from step from arr results ≠ [] <->
  results ≠ [] \/
  exists (i : nat) stage,
    arr !! i = Some stage /\ from + Z.of_nat i <= index /\ isEnabled stage = true.
Proof.
  revert from results.
  induction arr as [|stage arr IH]; intros from results; cbn.
  - split; [by left | intros [H | (i & stage & H & _)]; done].
  - rewrite IH, step_appends. split.
    + intros [H | (i & stage' & Hi & Hle & Hen)].
      * destruct results as [|x results]; [|by left].
        right. exists 0%nat, stage. cbn in H.
        apply step_runs in H. split; [done|]. split; [lia | tauto].
      * right. exists (S i), stage'. split; [done|]. split; [lia|done].
    + intros [H | (i & stage' & Hi & Hle & Hen)].
      * left. by destruct results.
      * destruct i as [|i]; cbn in Hi.
        -- left. injection Hi as ->.
           assert (step [] stage' from ≠ []) by (apply step_runs; split; [lia|done]).
           by destruct results, (step [] stage' from).
        -- right. exists i, stage'. split; [done|]. split; [lia|done].
Qed.

Lemma reduce_runs :
  reduce step [] (pipeline state) ≠ [] <-> some_stage_runs (pipeline state) index.
Proof.
  unfold reduce. rewrite reduce_from_nonempty. unfold some_stage_runs.
  split; [intros [H | H]; [done|] | intros H; right]; exact H.
Qed.

Lemma last_is_Some_of_lookup {A} (l : list A) i x :
  l !! i = Some x -> is_Some (last l).
Proof.
  intros H. destruct l as [|y l]; [done|].
  rewrite last_lookup. apply lookup_lt_is_Some. cbn. lia.
Qed.

Lemma may_be_limited_spec op :
  negb (JsArray.includes REQUIRED_AS_FIRST_STAGE op) && bool_decide (op ≠ Some OUT)
  = true
  <-> may_be_limited op.
Proof.
  rewrite andb_true_iff, negb_true_iff, bool_decide_eq_true.
  rewrite <- not_true_iff_false, includes_spec.
  unfold may_be_limited. split.
  - intros [Hreq Hout] name ->. split.
    + intros Hin. apply Hreq. by exists name.
    + by intros ->.
  - intros H. split.
    + intros (name & -> & Hin). by destruct (H name eq_refl).
    + intros ->. by destruct (H OUT eq_refl).
Qed.

(** [generatePipeline] always returns. *)
Lemma generatePipeline_returns :
  exists out, generatePipeline generateStage state index = Normal out.
Proof.
  unfold generatePipeline.
  destruct (reduce step [] (pipeline state)) as [|x stages] eqn:Hs; [by eexists|].
  assert (Hne : reduce step [] (pipeline state) ≠ []) by by rewrite Hs.
  apply reduce_runs in Hne as (i & stage & Hi & _).
  destruct (last_is_Some_of_lookup _ _ _ Hi) as [lastStage ->].
  destruct (_ && _); by eexists.
Qed.

(** The test that decides the trailing limit.  [generatePipeline] returns a
    pipeline that has [LIMIT] ([{ $limit: 20 }]) appended as its last element
    if and only if some stage at or before the index is enabled (the
    generated pipeline is not empty) and the operator of the last stage of
    the whole pipeline of the state, whether it was generated or not, is
    neither one of [REQUIRED_AS_FIRST_STAGE] nor [$out]. *)
Lemma generatePipeline_small_limit :
  exists out,
    generatePipeline generateStage state index = Normal out /\
    (last out = Some LIMIT <->
     some_stage_runs (pipeline state) index /\
     exists lastStage,
       last (pipeline state) = Some lastStage /\
       may_be_limited (stageOperator lastStage)).
Proof.
  unfold generatePipeline.
  pose proof reduce_runs as Hruns.
  pose proof (reduce_from_ends_compiled (pipeline state) 0 []
                (or_introl eq_refl)) as Hend.
  fold (reduce step [] (pipeline state)) in Hend.
  destruct (reduce step [] (pipeline state)) as [|x stages] eqn:Hs.
  { eexists. split; [done|]. split; [done|].
    intros [H _]. apply Hruns in H. done. }
  assert (Hsome : some_stage_runs (pipeline state) index) by by apply Hruns.
  destruct Hsome as (i & stage & Hi & Hle & Hen).
  destruct (last_is_Some_of_lookup _ _ _ Hi) as [lastStage Hlast].
  rewrite Hlast.
  destruct (negb _ && _) eqn:Hop; eexists; (split; [done|]).
  - rewrite last_snoc. split; [intros _ | done].
    split; [by exists i, stage|].
    exists lastStage. split; [done|]. by apply may_be_limited_spec.
  - split.
    + intros Hl. destruct Hend as [? | [e He]]; [done|].
      rewrite Hl in He. discriminate He.
    + intros (_ & lastStage' & [= <-] & Hlim).
      apply may_be_limited_spec in Hlim. congruence.
Qed.

End GenerateFacts.

(** C1, the code at two inputs where it departs from the rule.  The
    pipeline [$match, $out, $match] generated up to index 1 ends with the
    [$out] stage, and the small limit is appended after it: the code tests
    the operator of the last stage of the whole pipeline, here [$match], not
    of the last stage it generated.  The other way round, the pipeline
    [$match, $out] generated up to index 0 ends with the [$match] stage and
    gets no limit. *)
Theorem generatePipeline_limit_follows_last_stage_of_state :
  generatePipeline Sample.compile
    (Sample.stateOf (CountNum 10) false
       [Sample.matchStage; Sample.outStage; Sample.matchStage]) 1
  = Normal [Compiled (Sample.compile Sample.matchStage);
            Compiled (Sample.compile Sample.outStage); LIMIT]
  /\ generatePipeline Sample.compile
       (Sample.stateOf (CountNum 10) false [Sample.matchStage; Sample.outStage]) 0
     = Normal [Compiled (Sample.compile Sample.matchStage)].
Proof. split; reflexivity. Qed.

(** A two-stage pipeline run up to its last stage: both stages are compiled
    and the small limit follows. *)
Lemma generatePipeline_small_limit_example :
  generatePipeline Sample.compile
    (Sample.stateOf (CountNum 10) false [Sample.matchStage; Sample.groupStage]) 1
  = Normal [Compiled (exec "$match: { a: 1 }");
            Compiled (exec "$group: { _id: 1 }"); LIMIT].
Proof. reflexivity. Qed.

(** C2, the code at an input where it departs from the rule.  With the count
    not known ([NA]) the large limit is put ahead of an enabled [$match]
    stage, which is no full-table-scan operator, and with sampling off. *)
Theorem generatePipeline_unknown_count_limits_match :
  ~ full_scan (stageOperator Sample.matchStage)
  /\ generatePipeline Sample.compile Sample.unknown_count 0
     = Normal [LARGE_LIMIT; Compiled (exec "$match: { a: 1 }"); LIMIT].
Proof.
  split; [|reflexivity].
  intros (name & [= <-] & Hin).
  revert Hin. apply (bool_decide_eq_false_1 _). reflexivity.
Qed.
(** ** The store *)

Section StoreFacts.

Implicit Types (h : Heap) (ss : list Stage) (elems : list (option loc)).

Lemma bind_Normal {S A B} (m : Run S A) (f : A -> Run S B) s s' a :
  m s = (s', Normal a) -> (m ≫= f) s = f a s'.
Proof. intros H. unfold mbind, Run_bind. by rewrite H. Qed.

Lemma bind_Threw {S A B} (m : Run S A) (f : A -> Run S B) s s' e :
  m s = (s', Threw e) -> (m ≫= f) s = (s', Threw e).
Proof. intros H. unfold mbind, Run_bind. by rewrite H. Qed.

Lemma readObject_ok h l s :
  objs h !! l = Some s -> readObject l h = (h, Normal s).
Proof. intros H. unfold readObject. by rewrite H. Qed.

Lemma readArray_ok h a elems :
  arrs h !! a = Some elems -> readArray a h = (h, Normal elems).
Proof. intros H. unfold readArray. by rewrite H. Qed.

Lemma deref_Some h x s :
  deref h x = Some s <-> exists l, x = Some l /\ objs h !! l = Some s.
Proof.
  unfold deref. destruct x as [l|]; cbn.
  - split; [by exists l | by intros (l' & [= <-] & H)].
  - split; [done | by intros (l & ? & _)].
Qed.

Lemma assignEmpty_ok h l s :
  objs h !! l = Some s ->
  assignEmpty (Some l) h
  = ({| objs := objs h ++ [s]; arrs := arrs h |}, Normal (length (objs h))).
Proof.
  intros H. cbn. erewrite bind_Normal; [|by apply readObject_ok]. reflexivity.
Qed.

(** Copying the slots of an array whose slots all refer to stage objects
    appends one new object per slot, in order. *)
Lemma mapJs_assignEmpty_ok h elems ss :
  Forall2 (fun x s => deref h x = Some s) elems ss ->
  forall O A,
    mapJs assignEmpty elems {| objs := objs h ++ O; arrs := A |}
    = ({| objs := objs h ++ O ++ ss; arrs := A |},
       Normal (seq (length (objs h) + length O) (length ss))).
Proof.
  induction 1 as [|x s elems ss Hx _ IH]; intros O A; cbn [mapJs].
  - cbn. by rewrite app_nil_r.
  - apply deref_Some in Hx as (l & -> & Hl).
    erewrite bind_Normal; last first.
    { apply assignEmpty_ok. cbn. by apply lookup_app_l_Some. }
    cbn [objs arrs]. rewrite <- app_assoc.
    erewrite bind_Normal; [|apply IH]. cbn.
    rewrite <- app_assoc. cbn [app].
    rewrite !length_app. cbn [length].
    by replace (length (objs h) + (length O + 1))%nat
      with (S (length (objs h) + length O)) by lia.
Qed.

Lemma snapshot_Some h a ss :
  snapshot h a = Some ss <->
  exists elems, arrs h !! a = Some elems
                /\ Forall2 (fun x s => deref h x = Some s) elems ss.
Proof.
  unfold snapshot. destruct (arrs h !! a) as [elems|]; cbn.
  - rewrite mapM_Some. split; [by exists elems | by intros (? & [= <-] & ?)].
  - split; [done | by intros (? & ? & _)].
Qed.

(** [copyState] on an array of stage objects. *)
Lemma copyState_ok h state ss :
  snapshot h state = Some ss ->
  copyState state h = (copied h ss, Normal (length (arrs h))).
Proof.
  intros (elems & Ha & Hss)%snapshot_Some. unfold copyState.
  erewrite bind_Normal; [|by apply readArray_ok].
  pose proof (mapJs_assignEmpty_ok h elems ss Hss [] (arrs h)) as Hmap.
  rewrite app_nil_r in Hmap. cbn in Hmap.
  replace {| objs := objs h; arrs := arrs h |} with h in Hmap by by destruct h.
  erewrite bind_Normal; [|exact Hmap].
  unfold newArray, copied, extended. cbn. by rewrite Nat.add_0_r.
Qed.

Lemma arrs_extended h ss elems :
  arrs (extended h ss elems) !! length (arrs h) = Some elems.
Proof. cbn. by rewrite list_lookup_middle. Qed.

Lemma objs_extended h ss elems (k : nat) :
  objs (extended h ss elems) !! (length (objs h) + k)%nat = ss !! k.
Proof. cbn. by rewrite lookup_app_r, Nat.add_sub' by lia. Qed.

Lemma preserved_extended h ss elems : preserved h (extended h ss elems).
Proof. split; intros; cbn; by apply lookup_app_l_Some. Qed.

Lemma getElem_extended h ss elems i :
  getElem (length (arrs h)) i (extended h ss elems)
  = (extended h ss elems, Normal (JsArray.get elems i)).
Proof.
  unfold getElem.
  erewrite bind_Normal; [|apply readArray_ok, arrs_extended]. done.
Qed.

Lemma get_fresh_slots (base len : nat) i :
  0 <= i -> (Z.to_nat i < len)%nat ->
  JsArray.get (Some <$> seq base len) i = Some (base + Z.to_nat i)%nat.
Proof.
  intros Hi Hlt. unfold JsArray.get.
  destruct (Z.leb_spec 0 i); [|lia].
  by rewrite list_lookup_fmap, lookup_seq_lt.
Qed.

Lemma writeArray_extended h ss elems elems' :
  writeArray (length (arrs h)) elems' (extended h ss elems)
  = (extended h ss elems', Normal tt).
Proof.
  unfold writeArray. rewrite arrs_extended. unfold extended. cbn.
  do 2 f_equal.
  rewrite insert_app_r_alt, Nat.sub_diag by lia. done.
Qed.

Lemma spliceArray_extended h ss elems start deleteCount items :
  spliceArray (length (arrs h)) start deleteCount items (extended h ss elems)
  = (extended h ss (JsArray.splice elems start deleteCount items).1,
     Normal (JsArray.splice elems start deleteCount items).2).
Proof.
  unfold spliceArray.
  erewrite bind_Normal; [|apply readArray_ok, arrs_extended].
  destruct (JsArray.splice _ _ _ _) as [elems' removed]; cbn.
  erewrite bind_Normal; [|apply writeArray_extended]. done.
Qed.

Lemma updateObject_extended h ss elems (k : nat) s upd :
  ss !! k = Some s ->
  updateObject (length (objs h) + k)%nat upd (extended h ss elems)
  = (extended h (<[k := upd s]> ss) elems, Normal tt).
Proof.
  intros Hk. unfold updateObject. rewrite objs_extended, Hk.
  unfold extended. cbn. do 2 f_equal.
  rewrite insert_app_r_alt by lia. by rewrite Nat.add_sub'.
Qed.

Lemma copied_insert h ss (k : nat) s :
  extended h (<[k := s]> ss) (Some <$> seq (length (objs h)) (length ss))
  = copied h (<[k := s]> ss).
Proof. unfold copied. by rewrite length_insert. Qed.

(** [newState[i].f = v] on a freshly copied state. *)
Lemma setProp_copied h ss i s upd :
  0 <= i -> ss !! Z.to_nat i = Some s ->
  setProp (length (arrs h)) i upd (copied h ss)
  = (copied h (<[Z.to_nat i := upd s]> ss), Normal tt).
Proof.
  intros Hi Hs. unfold setProp, copied.
  erewrite bind_Normal; [|apply getElem_extended].
  rewrite get_fresh_slots by eauto using lookup_lt_Some.
  rewrite (updateObject_extended _ _ _ _ s) by done.
  by rewrite copied_insert.
Qed.

(** [newState[i].f] on a freshly copied state. *)
Lemma getProp_copied {A} h ss i s (f : Stage -> A) :
  0 <= i -> ss !! Z.to_nat i = Some s ->
  getProp (length (arrs h)) i f (copied h ss) = (copied h ss, Normal (f s)).
Proof.
  intros Hi Hs. unfold getProp, copied.
  erewrite bind_Normal; [|apply getElem_extended].
  rewrite get_fresh_slots by eauto using lookup_lt_Some.
  erewrite bind_Normal; [|apply readObject_ok; by rewrite objs_extended].
  done.
Qed.

Lemma deref_fresh_slots h ss elems :
  Forall2 (fun x s => deref (extended h ss elems) x = Some s)
    (Some <$> seq (length (objs h)) (length ss)) ss.
Proof.
  apply Forall2_same_length_lookup_2.
  - by rewrite length_fmap, length_seq.
  - intros k x s Hx Hs.
    rewrite list_lookup_fmap in Hx.
    rewrite lookup_seq_lt in Hx by eauto using lookup_lt_Some.
    injection Hx as <-. cbn - [extended].
    by rewrite objs_extended.
Qed.

Lemma snapshot_copied h ss : snapshot (copied h ss) (length (arrs h)) = Some ss.
Proof.
  apply snapshot_Some. eexists. split; [apply arrs_extended|].
  apply deref_fresh_slots.
Qed.

(** The input array still holds the same stages after a copy. *)
Lemma snapshot_preserved h h' a ss :
  preserved h h' -> snapshot h a = Some ss -> snapshot h' a = Some ss.
Proof.
  intros [Hobjs Harrs] (elems & Ha & Hss)%snapshot_Some.
  apply snapshot_Some. exists elems. split; [by apply Harrs|].
  eapply Forall2_impl; [exact Hss|].
  intros x s (l & -> & Hl)%deref_Some. cbn. by apply Hobjs.
Qed.

End StoreFacts.

(** ** The reducer on a pipeline of stage objects *)

Section ReducerFacts.

Variable STAGE_OPERATORS : list Operator.t.
Variable EMPTY_STAGE_id : string.
Variable env : Env.

(** The reducer of the module under these. *)
Local Abbreviation run := (reducer STAGE_OPERATORS EMPTY_STAGE_id env).

Implicit Types (h : Heap) (ss : list Stage) (state : loc) (i index : Z).

Lemma relative_start_valid (len : nat) i :
  0 <= i < Z.of_nat len -> JsArray.relative_start len i = Z.to_nat i.
Proof.
  intros Hi. unfold JsArray.relative_start.
  destruct (Z.ltb_spec i 0); [lia|]. f_equal. lia.
Qed.

(** C4. A stage-moved action whose [fromIndex] equals its [toIndex] makes
    the reducer return the reference it was given, and the store is left
    as it was: no copy is made. *)
Theorem moveStage_same_index_same_reference state i h :
  run state (stageMoved i i) h = (h, Normal state).
Proof.
  unfold reducer. cbn [action_type].
  change (MAPPINGS STAGE_OPERATORS EMPTY_STAGE_id !! STAGE_MOVED)
    with (Some (fun _ : Env => moveStage)).
  cbn. by rewrite bool_decide_eq_true_2.
Qed.

(** C5. When the operator named by a stage-operator-selected action is the
    operator that the stage at the target index already has, the reducer
    returns the reference it was given and leaves the store as it was. *)
Theorem selectStageOperator_same_operator_same_reference
    state index isCommenting h elems l s :
  arrs h !! state = Some elems ->
  JsArray.get elems index = Some l ->
  objs h !! l = Some s ->
  run state (stageOperatorSelected index (stageOperator s) isCommenting) h
  = (h, Normal state).
Proof.
  intros Ha Hl Hs. unfold reducer. cbn [action_type].
  change (MAPPINGS STAGE_OPERATORS EMPTY_STAGE_id !! STAGE_OPERATOR_SELECTED)
    with (Some (fun _ : Env => selectStageOperator STAGE_OPERATORS)).
  cbn beta iota. unfold selectStageOperator.
  erewrite bind_Normal; last first.
  { unfold getProp, getElem.
    erewrite bind_Normal;
      [|erewrite bind_Normal; [|by apply readArray_ok]; reflexivity].
    rewrite Hl. erewrite bind_Normal; [|by apply readObject_ok]. reflexivity. }
  by rewrite bool_decide_eq_false_2 by (intros H; by apply H).
Qed.

(** [deleteStage] on a pipeline of stage objects, at a valid index. *)
Lemma deleteStage_ok state i h ss :
  snapshot h state = Some ss ->
  0 <= i < Z.of_nat (length ss) ->
  exists h',
    deleteStage state (stageDeleted i) h = (h', Normal (length (arrs h)))
    /\ preserved h h'
    /\ snapshot h' (length (arrs h))
       = Some (take (Z.to_nat i) ss ++ drop (S (Z.to_nat i)) ss).
Proof.
  intros Hss Hi. unfold deleteStage.
  erewrite bind_Normal; [|by apply copyState_ok].
  unfold copied.
  erewrite bind_Normal; [|apply spliceArray_extended].
  eexists. split; [reflexivity|]. split; [apply preserved_extended|].
  apply snapshot_Some. eexists. split; [apply arrs_extended|].
  unfold JsArray.splice. cbn [fst].
  rewrite relative_start_valid by (by rewrite length_fmap, length_seq).
  cbn [app]. rewrite Nat.add_1_r.
  apply Forall2_app; [apply Forall2_take | apply Forall2_drop];
    apply deref_fresh_slots.
Qed.

(** C6. Deleting the stage at a valid index [i] of a pipeline of [n] stages
    returns a pipeline of [n - 1] stages: the stages before [i] are at
    their positions, and each stage after [i] has moved down by one. *)
Theorem deleteStage_removes_exactly_stage_i state i h ss :
  snapshot h state = Some ss ->
  0 <= i < Z.of_nat (length ss) ->
  exists h' state' ss',
    run state (stageDeleted i) h = (h', Normal state')
    /\ snapshot h' state' = Some ss'
    /\ ss' = take (Z.to_nat i) ss ++ drop (S (Z.to_nat i)) ss
    /\ length ss' = (length ss - 1)%nat
    /\ (forall j : nat, (j < Z.to_nat i)%nat -> ss' !! j = ss !! j)
    /\ (forall j : nat, (Z.to_nat i <= j)%nat -> ss' !! j = ss !! S j).
Proof.
  intros Hss Hi.
  destruct (deleteStage_ok state i h ss Hss Hi) as (h' & Hrun & _ & Hsnap).
  exists h', (length (arrs h)), (take (Z.to_nat i) ss ++ drop (S (Z.to_nat i)) ss).
  split; [|split; [done|split; [done|]]].
  { unfold reducer. cbn [action_type].
    change (MAPPINGS STAGE_OPERATORS EMPTY_STAGE_id !! STAGE_DELETED)
      with (Some (fun _ : Env => deleteStage)).
    exact Hrun. }
  assert (Hk : (Z.to_nat i < length ss)%nat) by lia.
  split; [|split].
  - rewrite length_app, length_take, length_drop. lia.
  - intros j Hj. rewrite lookup_app_l by (rewrite length_take; lia).
    by rewrite lookup_take_lt.
  - intros j Hj. rewrite lookup_app_r by (rewrite length_take; lia).
    rewrite length_take, lookup_drop. f_equal. lia.
Qed.

(** A second assignment to the same stage of a freshly copied state. *)
Lemma setProp_copied_again h ss i s upd :
  0 <= i -> (Z.to_nat i < length ss)%nat ->
  setProp (length (arrs h)) i upd (copied h (<[Z.to_nat i := s]> ss))
  = (copied h (<[Z.to_nat i := upd s]> ss), Normal tt).
Proof.
  intros Hi Hlt.
  rewrite (setProp_copied _ _ _ s) by (by rewrite ?list_lookup_insert_eq).
  by rewrite list_insert_insert_eq.
Qed.

Lemma getProp_copied_again {A} h ss i s (f : Stage -> A) :
  0 <= i -> (Z.to_nat i < length ss)%nat ->
  getProp (length (arrs h)) i f (copied h (<[Z.to_nat i := s]> ss))
  = (copied h (<[Z.to_nat i := s]> ss), Normal (f s)).
Proof.
  intros Hi Hlt.
  by rewrite (getProp_copied _ _ _ s) by (by rewrite ?list_lookup_insert_eq).
Qed.

(** [updateStagePreview] on a pipeline of stage objects, at a valid
    index. *)
Lemma updateStagePreview_ok state i h ss s documents error isComplete :
  snapshot h state = Some ss ->
  0 <= i -> ss !! Z.to_nat i = Some s ->
  updateStagePreview state (stagePreviewUpdated documents i error isComplete) h
  = (copied h
       (<[Z.to_nat i :=
            set_isComplete isComplete
              (set_isLoading false
                 (set_error (match error with
                             | ErrorValue (Some e) => Some (message e)
                             | _ => None
                             end)
                    (set_previewDocuments
                       (match error with
                        | ErrorValue None => documents
                        | _ => []
                        end)
                       s)))]> ss),
     Normal (length (arrs h))).
Proof.
  intros Hss Hi Hs. unfold updateStagePreview.
  assert (Hlt : (Z.to_nat i < length ss)%nat) by eauto using lookup_lt_Some.
  erewrite bind_Normal; [|by apply copyState_ok].
  erewrite bind_Normal; [|by apply setProp_copied].
  erewrite bind_Normal; [|by apply setProp_copied_again].
  erewrite bind_Normal; [|by apply setProp_copied_again].
  erewrite bind_Normal; [|by apply setProp_copied_again].
  reflexivity.
Qed.

(** C8. A stage-preview-updated action that carries an error, at a valid
    index [i]: in the returned pipeline stage [i] has the error's message
    as its [error], no preview documents, and is not loading; every other
    stage is as it was. *)
Theorem updateStagePreview_error_confined_to_stage
    state i h ss s documents err isComplete :
  snapshot h state = Some ss ->
  0 <= i -> ss !! Z.to_nat i = Some s ->
  exists h' state' ss' s',
    run state (stagePreviewUpdated documents i (Some err) isComplete) h
    = (h', Normal state')
    /\ snapshot h' state' = Some ss'
    /\ length ss' = length ss
    /\ ss' !! Z.to_nat i = Some s'
    /\ error s' = Some (message err)
    /\ previewDocuments s' = []
    /\ isLoading s' = false
    /\ (forall j : nat, j ≠ Z.to_nat i -> ss' !! j = ss !! j).
Proof.
  intros Hss Hi Hs.
  assert (Hlt : (Z.to_nat i < length ss)%nat) by eauto using lookup_lt_Some.
  do 4 eexists. split.
  { unfold reducer. cbn [action_type].
    change (MAPPINGS STAGE_OPERATORS EMPTY_STAGE_id !! STAGE_PREVIEW_UPDATED)
      with (Some (fun _ : Env => updateStagePreview)).
    by apply updateStagePreview_ok. }
  split; [apply snapshot_copied|].
  split; [apply length_insert|].
  split; [by apply list_lookup_insert_eq|].
  repeat split.
  intros j Hj. by apply list_lookup_insert_ne.
Qed.

Lemma toggleStage_ok state i h ss s :
  snapshot h state = Some ss ->
  0 <= i -> ss !! Z.to_nat i = Some s ->
  run state (stageToggled i) h
  = (copied h (<[Z.to_nat i := set_isEnabled (negb (isEnabled s)) s]> ss),
     Normal (length (arrs h))).
Proof.
  intros Hss Hi Hs. unfold reducer. cbn [action_type].
  change (MAPPINGS STAGE_OPERATORS EMPTY_STAGE_id !! STAGE_TOGGLED)
    with (Some (fun _ : Env => toggleStage)).
  cbn beta iota. unfold toggleStage.
  erewrite bind_Normal; [|by apply copyState_ok].
  erewrite bind_Normal; [|by apply getProp_copied].
  erewrite bind_Normal; [|by apply setProp_copied].
  reflexivity.
Qed.

Lemma toggleStageCollapse_ok state i h ss s :
  snapshot h state = Some ss ->
  0 <= i -> ss !! Z.to_nat i = Some s ->
  run state (stageCollapseToggled i) h
  = (copied h (<[Z.to_nat i := set_isExpanded (negb (isExpanded s)) s]> ss),
     Normal (length (arrs h))).
Proof.
  intros Hss Hi Hs. unfold reducer. cbn [action_type].
  change (MAPPINGS STAGE_OPERATORS EMPTY_STAGE_id !! STAGE_COLLAPSE_TOGGLED)
    with (Some (fun _ : Env => toggleStageCollapse)).
  cbn beta iota. unfold toggleStageCollapse.
  erewrite bind_Normal; [|by apply copyState_ok].
  erewrite bind_Normal; [|by apply getProp_copied].
  erewrite bind_Normal; [|by apply setProp_copied].
  reflexivity.
Qed.

Lemma set_isEnabled_twice s :
  set_isEnabled (negb (isEnabled (set_isEnabled (negb (isEnabled s)) s)))
    (set_isEnabled (negb (isEnabled s)) s) = s.
Proof. destruct s. cbn. by rewrite negb_involutive. Qed.

Lemma set_isExpanded_twice s :
  set_isExpanded (negb (isExpanded (set_isExpanded (negb (isExpanded s)) s)))
    (set_isExpanded (negb (isExpanded s)) s) = s.
Proof. destruct s. cbn. by rewrite negb_involutive. Qed.

(** C10. On a pipeline of stage objects and at a valid index [i], one
    stage-toggled action returns the pipeline with the [isEnabled] flag of
    stage [i] flipped and nothing else changed, and a second one returns a
    pipeline equal, stage by stage, to the original; the same holds of
    stage-collapse-toggled and the [isExpanded] flag. *)
Theorem toggle_twice_restores_pipeline state i h ss s :
  snapshot h state = Some ss ->
  0 <= i -> ss !! Z.to_nat i = Some s ->
  (exists h1 state1 h2 state2,
      run state (stageToggled i) h = (h1, Normal state1)
      /\ snapshot h1 state1
         = Some (<[Z.to_nat i := set_isEnabled (negb (isEnabled s)) s]> ss)
      /\ run state1 (stageToggled i) h1 = (h2, Normal state2)
      /\ snapshot h2 state2 = Some ss)
  /\ (exists h1 state1 h2 state2,
      run state (stageCollapseToggled i) h = (h1, Normal state1)
      /\ snapshot h1 state1
         = Some (<[Z.to_nat i := set_isExpanded (negb (isExpanded s)) s]> ss)
      /\ run state1 (stageCollapseToggled i) h1 = (h2, Normal state2)
      /\ snapshot h2 state2 = Some ss).
Proof.
  intros Hss Hi Hs.
  assert (Hlt : (Z.to_nat i < length ss)%nat) by eauto using lookup_lt_Some.
  split.
  - do 4 eexists. split; [by apply toggleStage_ok|].
    split; [apply snapshot_copied|].
    split.
    + apply toggleStage_ok; [apply snapshot_copied | done |].
      by apply list_lookup_insert_eq.
    + rewrite list_insert_insert_eq, set_isEnabled_twice.
      rewrite (list_insert_id ss (Z.to_nat i) s) by done.
      apply snapshot_copied.
  - do 4 eexists. split; [by apply toggleStageCollapse_ok|].
    split; [apply snapshot_copied|].
    split.
    + apply toggleStageCollapse_ok; [apply snapshot_copied | done |].
      by apply list_lookup_insert_eq.
    + rewrite list_insert_insert_eq, set_isExpanded_twice.
      rewrite (list_insert_id ss (Z.to_nat i) s) by done.
      apply snapshot_copied.
Qed.

End ReducerFacts.

(** ** Copy-on-write: what the reducer leaves of the store it was given *)

Section FrameFacts.

Implicit Types (h : Heap) (ss : list Stage) (elems : list (option loc)).

Lemma extends_refl h : extends h h.
Proof. by split. Qed.

Lemma extends_preserved h h' : extends h h' -> preserved h h'.
Proof.
  intros [Hobjs Harrs]. split; intros; by eapply prefix_lookup_Some.
Qed.

Lemma post_bind {A B} (m : Js A) (f : A -> Js B) h Q :
  post m h (fun h' c =>
    match c with
    | Normal a => post (f a) h' Q
    | Threw e => Q h' (Threw e)
    end) ->
  post (m ≫= f) h Q.
Proof.
  unfold post, mbind, Run_bind. by destruct (m h) as [h' [a|e]].
Qed.

Section Keeps.

Variable h0 : Heap.
Variable n : loc.

Lemma keeps_ret {A} (a : A) (R : A -> Prop) : R a -> keeps h0 n (mret a) R.
Proof.
  intros Ha h He Hc. unfold post. cbn.
  split; [done|]. split; [done|]. by intros ? [= <-].
Qed.

Lemma keeps_threw {A} e (R : A -> Prop) : keeps h0 n (threw e) R.
Proof. intros h He Hc. unfold post. by cbn. Qed.

Lemma keeps_bind {A B} (m : Js A) (f : A -> Js B) (R1 : A -> Prop)
    (R2 : B -> Prop) :
  keeps h0 n m R1 ->
  (forall a, R1 a -> keeps h0 n (f a) R2) ->
  keeps h0 n (m ≫= f) R2.
Proof.
  intros Hm Hf h He Hc. apply post_bind.
  specialize (Hm h He Hc). unfold post in *.
  destruct (m h) as [h' [a|e]]; cbn in *.
  - destruct Hm as (He' & Hc' & Ha).
    apply (Hf a (Ha a eq_refl) h' He' Hc').
  - destruct Hm as (He' & Hc' & _). split; [done|]. split; [done|]. by intros.
Qed.

Lemma keeps_weaken {A} (m : Js A) (R1 R2 : A -> Prop) :
  keeps h0 n m R1 -> (forall a, R1 a -> R2 a) -> keeps h0 n m R2.
Proof.
  intros Hm HR h He Hc. specialize (Hm h He Hc). unfold post in *.
  destruct Hm as (? & ? & Ha). split; [done|]. split; [done|].
  intros a Hn. by apply HR, Ha.
Qed.

Lemma get_fresh_slot elems i :
  Forall (fresh_slot h0) elems -> fresh_slot h0 (JsArray.get elems i).
Proof.
  intros Hall l Hl. unfold JsArray.get in Hl.
  destruct (0 <=? i); [|done].
  destruct (elems !! Z.to_nat i) as [x|] eqn:Hx; [|done]. cbn in Hl. subst x.
  rewrite Forall_lookup in Hall. by apply (Hall _ _ Hx).
Qed.

Lemma keeps_readObject l : keeps h0 n (readObject l) (fun _ => True).
Proof.
  intros h He Hc. unfold post, readObject.
  destruct (objs h !! _); cbn; by repeat (split; [done|]).
Qed.

Lemma keeps_readArray :
  keeps h0 n (readArray n) (Forall (fresh_slot h0)).
Proof.
  intros h He Hc. unfold post, readArray.
  pose proof Hc as (Hn & elems & Hl & Hall). rewrite Hl. cbn.
  split; [done|]. split; [done|]. by intros ? [= <-].
Qed.

Lemma keeps_getElem i : keeps h0 n (getElem n i) (fresh_slot h0).
Proof.
  eapply keeps_bind; [apply keeps_readArray|].
  intros elems Hall. by apply keeps_ret, get_fresh_slot.
Qed.

Lemma prefix_insert_beyond {A} (l1 l2 : list A) (k : nat) x :
  l1 `prefix_of` l2 -> (length l1 <= k)%nat -> l1 `prefix_of` <[k := x]> l2.
Proof.
  intros [l ->] Hk. rewrite insert_app_r_alt by done. by eexists.
Qed.

Lemma keeps_updateObject (l : loc) upd :
  (length (objs h0) <= l)%nat ->
  keeps h0 n (updateObject l upd) (fun _ => True).
Proof.
  intros Hl h He Hc. pose proof He as [Hobjs Harrs].
  unfold post, updateObject.
  destruct (objs h !! _); cbn; [|by repeat (split; [done|])].
  split; [split; [by apply prefix_insert_beyond | done]|].
  split; [exact Hc | done].
Qed.

Lemma keeps_setProp i upd : keeps h0 n (setProp n i upd) (fun _ => True).
Proof.
  eapply keeps_bind; [apply keeps_getElem|].
  intros [l|] Hfresh; [|apply keeps_threw].
  apply keeps_updateObject. by apply Hfresh.
Qed.

Lemma keeps_getProp {A} i (f : Stage -> A) :
  keeps h0 n (getProp n i f) (fun _ => True).
Proof.
  eapply keeps_bind; [apply keeps_getElem|].
  intros [l|] Hfresh; [|apply keeps_threw].
  eapply keeps_bind; [apply keeps_readObject|].
  intros s _. by apply keeps_ret.
Qed.

Lemma keeps_writeArray elems :
  Forall (fresh_slot h0) elems ->
  keeps h0 n (writeArray n elems) (fun _ => True).
Proof.
  intros Hall h He (Hn & old & Hold & _). pose proof He as [Hobjs Harrs].
  unfold post, writeArray.
  rewrite Hold. cbn.
  split; [split; [done | by apply prefix_insert_beyond]|].
  split; [|done]. split; [done|].
  exists elems. split; [|done].
  apply list_lookup_insert_eq. eauto using lookup_lt_Some.
Qed.

Lemma keeps_spliceArray start deleteCount items :
  Forall (fresh_slot h0) items ->
  keeps h0 n (spliceArray n start deleteCount items) (Forall (fresh_slot h0)).
Proof.
  intros Hitems.
  eapply keeps_bind; [apply keeps_readArray|].
  intros elems Hall. unfold JsArray.splice.
  eapply keeps_bind.
  - apply keeps_writeArray.
    repeat apply Forall_app_2; [by apply Forall_take | done | by apply Forall_drop].
  - intros _ _. apply keeps_ret. by apply Forall_take, Forall_drop.
Qed.

Lemma keeps_pushArray x :
  fresh_slot h0 x -> keeps h0 n (pushArray n x) (fun _ => True).
Proof.
  intros Hx.
  eapply keeps_bind; [apply keeps_readArray|].
  intros elems Hall. apply keeps_writeArray.
  apply Forall_app_2; [done|]. by apply Forall_singleton.
Qed.

Lemma keeps_newObject s :
  keeps h0 n (newObject s) (fun l => (length (objs h0) <= l)%nat).
Proof.
  intros h He Hc. pose proof He as [Hobjs Harrs].
  unfold post, newObject. cbn.
  split; [split; [by apply prefix_app_r | done]|].
  split; [exact Hc|].
  intros l [= <-]. by apply prefix_length.
Qed.

End Keeps.

End FrameFacts.

Section CopyOnWrite.

Variable STAGE_OPERATORS : list Operator.t.
Variable EMPTY_STAGE_id : string.

Implicit Types (h : Heap) (state : loc) (action : Action).

Lemma mapJs_assignEmpty_frame h0 elems :
  forall h, extends h0 h ->
    post (mapJs assignEmpty elems) h (fun h' c =>
      extends h0 h' /\ arrs h' = arrs h
      /\ forall copies, c = Normal copies ->
           Forall (fun l => (length (objs h0) <= l)%nat) copies).
Proof.
  induction elems as [|x elems IH]; intros h He.
  { unfold post. cbn. split; [done|]. split; [done|]. by intros ? [= <-]. }
  cbn [mapJs]. apply post_bind.
  destruct x as [l|]; [|by unfold post; cbn].
  unfold post at 1. cbn. unfold mbind, Run_bind, readObject.
  destruct (objs h !! _) as [s|]; cbn; [|done].
  apply post_bind.
  assert (He1 : extends h0 {| objs := objs h ++ [s]; arrs := arrs h |}).
  { destruct He as [Hobjs Harrs]. split; cbn; [by apply prefix_app_r | done]. }
  specialize (IH _ He1). unfold post in *.
  destruct (mapJs assignEmpty elems _) as [h2 [copies|e]]; cbn in *; [|done].
  destruct IH as (He2 & Harr & Hall).
  split; [done|]. split; [done|]. intros ? [= <-].
  constructor; [|by apply Hall].
  destruct He as [Hobjs _]. by apply prefix_length.
Qed.

Lemma copyState_frame h0 state :
  post (copyState state) h0 (fun h c =>
    extends h0 h /\ forall n, c = Normal n -> fresh_copy h0 h n).
Proof.
  unfold copyState. apply post_bind.
  unfold post at 1, readArray.
  destruct (arrs h0 !! _) as [elems|]; cbn; [|split; [apply extends_refl | done]].
  apply post_bind.
  pose proof (mapJs_assignEmpty_frame h0 elems h0 (extends_refl h0)) as Hmap.
  unfold post in *.
  destruct (mapJs assignEmpty elems h0) as [h1 [copies|e]]; cbn in *;
    [|by destruct Hmap].
  destruct Hmap as ([Hobjs Harrs] & Heq & Hall).
  split; [split; cbn; [done | by apply prefix_app_r]|].
  intros n [= <-]. split; [by rewrite Heq|].
  exists (Some <$> copies). split; [cbn; by rewrite list_lookup_middle|].
  apply Forall_fmap. eapply Forall_impl; [by apply Hall|].
  by intros l Hl ? [= <-].
Qed.

(** A handler that copies the state and then works on the copy only. *)
Lemma copy_then h0 state action (body : loc -> Js loc) :
  (forall n, keeps h0 n (body n) (eq n)) ->
  post (copyState state ≫= body) h0 (copy_on_write h0 state action).
Proof.
  intros Hbody. apply post_bind.
  pose proof (copyState_frame h0 state) as Hcopy. unfold post in *.
  destruct (copyState state h0) as [h [n|e]]; cbn in *.
  - destruct Hcopy as (He & Hc).
    destruct (Hbody n h He (Hc n eq_refl)) as (He' & Hc' & Hr).
    split; [done|]. intros r Hret. left. by rewrite <- (Hr r Hret).
  - split; [apply Hcopy | done].
Qed.

Lemma threw_copy_on_write h0 state action e :
  post (threw e) h0 (copy_on_write h0 state action).
Proof. unfold post. cbn. split; [apply extends_refl | done]. Qed.

Lemma changeStage_copy_on_write h0 state action :
  post (changeStage state action) h0 (copy_on_write h0 state action).
Proof.
  destruct action; try apply threw_copy_on_write.
  apply copy_then. intros n.
  repeat (eapply keeps_bind; [apply keeps_setProp | intros _ _]).
  by apply keeps_ret.
Qed.

Lemma addStage_copy_on_write env h0 state action :
  post (addStage EMPTY_STAGE_id env state) h0 (copy_on_write h0 state action).
Proof.
  apply copy_then. intros n.
  eapply keeps_bind; [apply keeps_newObject|]. intros newStage Hnew.
  eapply keeps_bind; [by apply keeps_updateObject|]. intros _ _.
  eapply keeps_bind; [apply keeps_pushArray; by intros ? [= <-]|]. intros _ _.
  by apply keeps_ret.
Qed.

Lemma AddAfterStage_copy_on_write env h0 state action :
  post (AddAfterStage EMPTY_STAGE_id env state action) h0
    (copy_on_write h0 state action).
Proof.
  destruct action; try apply threw_copy_on_write.
  apply copy_then. intros n.
  eapply keeps_bind; [apply keeps_newObject|]. intros newStage Hnew.
  eapply keeps_bind; [by apply keeps_updateObject|]. intros _ _.
  eapply keeps_bind.
  { apply keeps_spliceArray, Forall_singleton. by intros ? [= <-]. }
  intros _ _. by apply keeps_ret.
Qed.

Lemma deleteStage_copy_on_write h0 state action :
  post (deleteStage state action) h0 (copy_on_write h0 state action).
Proof.
  destruct action; try apply threw_copy_on_write.
  apply copy_then. intros n.
  eapply keeps_bind; [by apply keeps_spliceArray|]. intros _ _.
  by apply keeps_ret.
Qed.

Lemma moveStage_copy_on_write h0 state action :
  post (moveStage state action) h0 (copy_on_write h0 state action).
Proof.
  destruct action; try apply threw_copy_on_write.
  unfold moveStage. case_bool_decide as Heq.
  - unfold post. cbn. split; [apply extends_refl|].
    intros ? [= <-]. by right.
  - apply copy_then. intros n.
    eapply keeps_bind; [by apply keeps_spliceArray|]. intros removed Hremoved.
    eapply keeps_bind.
    { apply keeps_spliceArray, Forall_singleton. by apply get_fresh_slot. }
    intros _ _. by apply keeps_ret.
Qed.

Lemma getProp_pure {A} (a : loc) i (f : Stage -> A) h :
  (getProp a i f h).1 = h.
Proof.
  unfold getProp, getElem, mbind, Run_bind, readArray.
  destruct (arrs h !! _); cbn; [|done].
  destruct (JsArray.get _ _); cbn; [|done].
  unfold readObject. by destruct (objs h !! _).
Qed.

Lemma selectStageOperator_copy_on_write h0 state action :
  post (selectStageOperator STAGE_OPERATORS state action) h0
    (copy_on_write h0 state action).
Proof.
  destruct action; try apply threw_copy_on_write.
  unfold selectStageOperator. apply post_bind.
  pose proof (getProp_pure state index stageOperator h0) as Hpure.
  unfold post at 1.
  destruct (getProp state index stageOperator h0) as [h [current|e]] eqn:Hget;
    cbn in *; subst h; [|split; [apply extends_refl | done]].
  case_bool_decide as Hne.
  - apply copy_then. intros n.
    repeat (eapply keeps_bind; [apply keeps_setProp | intros _ _]).
    by apply keeps_ret.
  - unfold post. cbn. split; [apply extends_refl|].
    intros ? [= <-]. right.
    destruct (decide (operator = current)) as [->|]; done.
Qed.

Lemma toggleStage_copy_on_write h0 state action :
  post (toggleStage state action) h0 (copy_on_write h0 state action).
Proof.
  destruct action; try apply threw_copy_on_write.
  apply copy_then. intros n.
  eapply keeps_bind; [apply keeps_getProp | intros ? _].
  eapply keeps_bind; [apply keeps_setProp | intros _ _].
  by apply keeps_ret.
Qed.

Lemma toggleStageCollapse_copy_on_write h0 state action :
  post (toggleStageCollapse state action) h0 (copy_on_write h0 state action).
Proof.
  destruct action; try apply threw_copy_on_write.
  apply copy_then. intros n.
  eapply keeps_bind; [apply keeps_getProp | intros ? _].
  eapply keeps_bind; [apply keeps_setProp | intros _ _].
  by apply keeps_ret.
Qed.

Lemma updateStagePreview_copy_on_write h0 state action :
  post (updateStagePreview state action) h0 (copy_on_write h0 state action).
Proof.
  destruct action; try apply threw_copy_on_write.
  apply copy_then. intros n.
  repeat (eapply keeps_bind; [apply keeps_setProp | intros _ _]).
  by apply keeps_ret.
Qed.

Lemma stageResultsLoading_copy_on_write h0 state action :
  post (stageResultsLoading state action) h0 (copy_on_write h0 state action).
Proof.
  destruct action; try apply threw_copy_on_write.
  apply copy_then. intros n.
  eapply keeps_bind; [apply keeps_setProp | intros _ _].
  by apply keeps_ret.
Qed.

(** Every handler stored in [MAPPINGS] is copy-on-write. *)
Lemma MAPPINGS_copy_on_write type fn :
  MAPPINGS STAGE_OPERATORS EMPTY_STAGE_id !! type = Some fn ->
  forall env state action h0,
    post (fn env state action) h0 (copy_on_write h0 state action).
Proof.
  intros H env state action h0. unfold MAPPINGS in H.
  apply elem_of_list_to_map_2 in H.
  repeat (apply elem_of_cons in H as [[= -> ->] | H]).
  - apply changeStage_copy_on_write.
  - apply addStage_copy_on_write.
  - apply AddAfterStage_copy_on_write.
  - apply deleteStage_copy_on_write.
  - apply moveStage_copy_on_write.
  - apply selectStageOperator_copy_on_write.
  - apply toggleStage_copy_on_write.
  - apply toggleStageCollapse_copy_on_write.
  - apply updateStagePreview_copy_on_write.
  - apply stageResultsLoading_copy_on_write.
  - by apply elem_of_nil in H.
Qed.

Lemma MAPPINGS_recognized type :
  type ∈ ACTION_TYPES <-> is_Some (MAPPINGS STAGE_OPERATORS EMPTY_STAGE_id !! type).
Proof.
  split.
  - intros H. unfold ACTION_TYPES in H.
    repeat (apply elem_of_cons in H as [-> | H]); try (by eexists).
    by apply elem_of_nil in H.
  - intros [fn H]. unfold MAPPINGS in H.
    apply elem_of_list_to_map_2 in H.
    apply (list_elem_of_fmap_2 fst) in H. exact H.
Qed.

(** C7, as the code has it.  Whatever the action, every array and every
    stage object of the store the reducer was given is still there with
    the same contents.  An action whose type is neither one of the ten nor
    the name of a member that [MAPPINGS] inherits from [Object.prototype]
    returns the reference it was given and leaves the store as it was.  A
    recognized action that returns, returns a new array whose slots refer to
    new objects only, except a stage-moved action with equal indices and a
    stage-operator-selected action naming the operator the stage already
    has: these return the reference given, with the store as it was. *)
Theorem reducer_copy_on_write env state action h :
  exists h' c,
    reducer STAGE_OPERATORS EMPTY_STAGE_id env state action h = (h', c)
    /\ preserved h h'
    /\ (action_type action ∉ ACTION_TYPES ->
        JsObject.inherited (action_type action) = None ->
        h' = h /\ c = Normal state)
    /\ (action_type action ∈ ACTION_TYPES ->
        forall newState, c = Normal newState ->
          fresh_copy h h' newState
          \/ (returns_input state action h /\ h' = h /\ newState = state)).
Proof.
  unfold reducer.
  destruct (MAPPINGS STAGE_OPERATORS EMPTY_STAGE_id !! action_type action)
    as [fn|] eqn:Hfn.
  - pose proof (MAPPINGS_copy_on_write _ _ Hfn env state action h) as Hcow.
    unfold post in Hcow.
    destruct (fn env state action h) as [h' c]. cbn in Hcow.
    destruct Hcow as [He Hret].
    exists h', c. split; [done|]. split; [by apply extends_preserved|].
    split; [|by intros _].
    intros Hnot. exfalso. apply Hnot, MAPPINGS_recognized. by eexists.
  - assert (Hnot : action_type action ∈ ACTION_TYPES -> False).
    { intros Hin. apply MAPPINGS_recognized in Hin as [fn Hin]. congruence. }
    destruct (JsObject.inherited (action_type action)) as [[| | |]|];
      eexists h, _; (split; [reflexivity|]);
      (split; [apply extends_preserved, extends_refl|]);
      (split; [by intros _ | by intros ?%Hnot]).
Qed.

End CopyOnWrite.

(** ** Stage execution and the store *)

Section ExecutionFacts.

Variable generateStage : Stage -> Exec.
Variable generateStage_writes : Stage -> Stage.

Local Abbreviation written := (rewritten generateStage_writes).
Local Abbreviation same_objects := (same_but_rewritten generateStage_writes).
Local Abbreviation same_store := (same_stages generateStage_writes).

Lemma stable_ret {S A} (P : S -> S -> Prop) `{!Reflexive P} (a : A) :
  stable P (mret a : Run S A).
Proof. intros s. by cbn. Qed.

Lemma stable_threw {S A} (P : S -> S -> Prop) `{!Reflexive P} e :
  stable P (threw e : Run S A).
Proof. intros s. by cbn. Qed.

Lemma stable_bind {S A B} (P : S -> S -> Prop) `{!Transitive P}
    (m : Run S A) (f : A -> Run S B) :
  stable P m -> (forall a, stable P (f a)) -> stable P (m ≫= f).
Proof.
  intros Hm Hf s. specialize (Hm s). unfold mbind, Run_bind.
  destruct (m s) as [s' [a|e]]; cbn in *; [|done].
  by etrans; [|apply Hf].
Qed.

#[local] Instance rewritten_refl : Reflexive written.
Proof. intros s. constructor. Qed.

#[local] Instance rewritten_trans : Transitive written.
Proof.
  intros s1 s2 s3 H12 H23.
  induction H23 as [|s3 H IH|s3 v H IH];
    [done | by apply rewritten_call | by apply rewritten_executor].
Qed.

Lemma rewritten_all_not (ss : list Stage) : Forall2 written ss ss.
Proof. induction ss; constructor; [constructor | done]. Qed.

#[local] Instance same_but_rewritten_refl : Reflexive same_objects.
Proof. intros h. split; [done | apply rewritten_all_not]. Qed.

#[local] Instance same_but_rewritten_trans : Transitive same_objects.
Proof.
  intros h1 h2 h3 [Ha Ho] [Ha' Ho']. split; [congruence|].
  by etrans.
Qed.

#[local] Instance same_heap_refl : Reflexive same_heap.
Proof. done. Qed.

#[local] Instance same_heap_trans : Transitive same_heap.
Proof. unfold same_heap. congruence. Qed.

#[local] Instance same_stages_refl : Reflexive same_store.
Proof. intros w. apply same_but_rewritten_refl. Qed.

#[local] Instance same_stages_trans : Transitive same_store.
Proof. intros w1 w2 w3. apply same_but_rewritten_trans. Qed.

Lemma same_heap_same_stages {A} (m : Thunk A) :
  stable same_heap m -> stable same_store m.
Proof.
  intros H w. specialize (H w). unfold same_heap, same_stages in *.
  rewrite H. apply same_but_rewritten_refl.
Qed.

Lemma liftJs_stable {A} (P : Heap -> Heap -> Prop) (m : Js A) :
  stable P m -> stable (fun w w' => P (heap w) (heap w')) (liftJs m).
Proof.
  intros H w. specialize (H (heap w)). unfold liftJs.
  by destruct (m (heap w)).
Qed.

Lemma pure_same_objects {A} (m : Js A) :
  stable (fun h h' => h' = h) m -> stable same_objects m.
Proof. intros H h. rewrite (H h). apply same_but_rewritten_refl. Qed.

Lemma readArray_pure a : stable (fun h h' => h' = h) (readArray a).
Proof. intros h. unfold readArray. by destruct (arrs h !! _). Qed.

Lemma readObject_pure l : stable (fun h h' => h' = h) (readObject l).
Proof. intros h. unfold readObject. by destruct (objs h !! _). Qed.

Lemma getElem_pure a i : stable (fun h h' => h' = h) (getElem a i).
Proof.
  intros h. unfold getElem, mbind, Run_bind, readArray.
  by destruct (arrs h !! _).
Qed.

Lemma readStages_pure a : stable (fun h h' => h' = h) (readStages a).
Proof. intros h. unfold readStages. by destruct (snapshot h a). Qed.

Lemma dispatch_same_heap d : stable same_heap (dispatch d).
Proof. done. Qed.

Lemma aggregate_same_heap call : stable same_heap (aggregate call).
Proof. done. Qed.

Lemma aggregateCallback_same_heap call reply :
  stable same_heap (aggregateCallback call reply).
Proof.
  unfold aggregateCallback. destruct reply; [apply dispatch_same_heap|].
  apply stable_bind; [apply _ | apply dispatch_same_heap | intros _].
  apply stable_bind;
    [apply _ | apply (liftJs_stable _ _ (readStages_pure _)) | intros ss].
  apply dispatch_same_heap.
Qed.

(** An assignment to a stage object that rewrites it. *)
Lemma updateObject_rewrites l (upd : Stage -> Stage) :
  (forall s, written s (upd s)) -> stable same_objects (updateObject l upd).
Proof.
  intros Hupd h. unfold updateObject, loc in *.
  destruct (objs h !! l) as [s|] eqn:Hs; cbn; [|reflexivity].
  split; [done|]. cbn.
  rewrite <- (list_insert_id (objs h) l s Hs) at 1.
  apply Forall2_insert; [apply rewritten_all_not | apply Hupd].
Qed.

Lemma generateStage_at_rewrites stage :
  stable same_objects (generateStage_at generateStage generateStage_writes stage).
Proof.
  unfold generateStage_at.
  apply stable_bind; [apply _ | apply pure_same_objects, readObject_pure | intros s].
  apply stable_bind; [apply _ | | intros _; apply stable_ret, _].
  apply updateObject_rewrites. intros s'. by apply rewritten_call.
Qed.

Lemma generatePipeline_step_at_rewrites state index results slot i :
  stable same_objects
    (generatePipeline_step_at generateStage generateStage_writes state index
       results slot i).
Proof.
  unfold generatePipeline_step_at.
  destruct (i <=? index); [|apply stable_ret, _].
  destruct slot as [stage|]; [|apply stable_threw, _].
  apply stable_bind; [apply _ | apply pure_same_objects, readObject_pure | intros s].
  destruct (isEnabled s); [|apply stable_ret, _].
  apply stable_bind; [apply _ | | intros e; apply stable_ret, _].
  destruct (executor s); [apply stable_ret, _ | apply generateStage_at_rewrites].
Qed.

Lemma reduceJs_from_stable {A B} (P : Heap -> Heap -> Prop)
    `{!Reflexive P} `{!Transitive P} (f : B -> A -> Z -> Js B) arr :
  (forall results x i, stable P (f results x i)) ->
  forall from results, stable P (reduceJs_from f from arr results).
Proof.
  intros Hf. induction arr as [|x arr IH]; intros from results; cbn.
  - by apply stable_ret.
  - apply stable_bind; [done | apply Hf | intros results'; apply IH].
Qed.

Lemma generatePipeline_at_rewrites state index :
  stable same_objects
    (generatePipeline_at generateStage generateStage_writes state index).
Proof.
  unfold generatePipeline_at.
  apply stable_bind; [apply _ | apply pure_same_objects, readArray_pure | intros elems].
  apply stable_bind; [apply _ | | intros stages].
  { apply reduceJs_from_stable; [apply _ .. |].
    intros results slot i. apply generatePipeline_step_at_rewrites. }
  destruct stages as [|entry stages]; [apply stable_ret, _|].
  apply stable_bind; [apply _ | apply pure_same_objects, getElem_pure | intros o].
  destruct o as [lastStage|]; [|apply stable_threw, _].
  apply stable_bind; [apply _ | apply pure_same_objects, readObject_pure | intros s].
  destruct (_ && _); apply stable_ret, _.
Qed.

Lemma executeStage_same_stages ns state index :
  stable same_store
    (executeStage generateStage generateStage_writes ns state index).
Proof.
  unfold executeStage.
  apply stable_bind;
    [apply _ | apply same_heap_same_stages, dispatch_same_heap | intros _].
  apply stable_bind; [apply _ | | intros pipeline].
  { apply (liftJs_stable _ _ (generatePipeline_at_rewrites _ _)). }
  apply same_heap_same_stages, aggregate_same_heap.
Qed.

Lemma executeAggregation_same_stages ns state index :
  stable same_store
    (executeAggregation generateStage generateStage_writes ns state index).
Proof.
  unfold executeAggregation.
  apply stable_bind; [apply _ | | intros [stage|]].
  - apply (liftJs_stable _ _ (pure_same_objects _ (getElem_pure _ _))).
  - apply stable_bind; [apply _ | | intros e].
    { apply (liftJs_stable _ _ (generateStage_at_rewrites _)). }
    apply stable_bind; [apply _ | | intros _].
    { apply (liftJs_stable same_objects), updateObject_rewrites.
      intros s. by apply rewritten_executor. }
    apply stable_bind; [apply _ | | intros s'].
    { apply (liftJs_stable _ _ (pure_same_objects _ (readObject_pure _))). }
    destruct (_ && _);
      [apply executeStage_same_stages
      | apply same_heap_same_stages, dispatch_same_heap].
  - apply stable_threw, _.
Qed.

Lemma forEach_stable {S A} (P : S -> S -> Prop) `{!Reflexive P} `{!Transitive P}
    (f : A -> Run S unit) xs :
  (forall x, stable P (f x)) -> stable P (forEach f xs).
Proof.
  intros Hf. induction xs as [|x xs IH]; cbn.
  - by apply stable_ret.
  - apply stable_bind; [done | apply Hf | by intros _].
Qed.

Lemma runStage_same_stages index state :
  stable same_store (runStage generateStage generateStage_writes index state).
Proof.
  unfold runStage.
  apply stable_bind; [apply _ | | intros elems].
  - apply (liftJs_stable _ _ (pure_same_objects _ (readArray_pure _))).
  - apply forEach_stable; [apply _ .. |].
    intros i. apply executeAggregation_same_stages.
Qed.

(** C9, as the code has it.  The callback that [executeStage] hands to the
    driver leaves the store as it is.  [executeStage], [executeAggregation]
    and [runStage] leave every array as it is, and the stage objects as many
    as they were; what a stage object reads afterwards comes from what it
    read before by calls of [generateStage] on the object and by assignments
    to its [executor], which is the one field that the execution path itself
    writes, in place and without an action. *)
Theorem execution_writes_executor_only ns index state w :
  (forall call reply, heap (aggregateCallback call reply w).1 = heap w)
  /\ same_but_rewritten generateStage_writes (heap w)
       (heap (executeStage generateStage generateStage_writes ns state index w).1)
  /\ same_but_rewritten generateStage_writes (heap w)
       (heap (executeAggregation generateStage generateStage_writes
                ns state index w).1)
  /\ same_but_rewritten generateStage_writes (heap w)
       (heap (runStage generateStage generateStage_writes index state w).1).
Proof.
  split; [intros call reply; apply aggregateCallback_same_heap|].
  split; [apply executeStage_same_stages|].
  split; [apply executeAggregation_same_stages | apply runStage_same_stages].
Qed.

End ExecutionFacts.

(** Running the first stage of the sample store writes the compiled stage
    into the stage object itself, also with a [generateStage] that leaves the
    object it is handed as it is: the store is not what it was. *)
Lemma execution_leaves_store_fails :
  ~ execution_leaves_store Sample.compile (fun s => s) 0 Sample.state Sample.world.
Proof. unfold execution_leaves_store. vm_compute. discriminate. Qed.

(** ** The theorems at the sample store *)

(** The copy-on-write reading in which every recognized action copies fails
    on a move of stage 0 onto itself: the reducer returns the array it was
    given, which is an array of the input store. *)
Lemma always_copies_fails :
  ~ always_copies Sample.operators "5f00" Sample.env 0%nat (stageMoved 0 0)
      Sample.store.
Proof.
  intros H.
  destruct (H Sample.store (Normal 0%nat) eq_refl) as (_ & Hcopy & _).
  destruct Hcopy as (newState & [= <-] & Hfresh & _).
  - apply (bool_decide_unpack _). reflexivity.
  - cbn in Hfresh. lia.
Qed.

(** Selecting [$match] again on the first stage of the sample store. *)
Lemma selectStageOperator_same_operator_witness :
  arrs Sample.store !! 0%nat = Some [Some 0%nat; Some 1%nat]
  /\ JsArray.get [Some 0%nat; Some 1%nat] 0 = Some 0%nat
  /\ objs Sample.store !! 0%nat = Some Sample.matchStage
  /\ reducer Sample.operators "5f00" Sample.env 0%nat
       (stageOperatorSelected 0 (Some "$match"%string) true) Sample.store
     = (Sample.store, Normal 0%nat).
Proof.
  split; [reflexivity|]. split; [reflexivity|]. split; [reflexivity|].
  exact (selectStageOperator_same_operator_same_reference
           Sample.operators "5f00" Sample.env 0%nat 0 true Sample.store
           [Some 0%nat; Some 1%nat] 0%nat Sample.matchStage
           eq_refl eq_refl eq_refl).
Defined.

(** Deleting the first of the two stages of the sample store leaves the
    second. *)
Lemma deleteStage_witness :
  snapshot Sample.store 0%nat = Some [Sample.matchStage; Sample.groupStage]
  /\ 0 <= 0 < Z.of_nat (length [Sample.matchStage; Sample.groupStage])
  /\ exists h' state' ss',
      reducer Sample.operators "5f00" Sample.env 0%nat (stageDeleted 0) Sample.store
      = (h', Normal state')
      /\ snapshot h' state' = Some ss'
      /\ ss' = [Sample.groupStage]
      /\ length ss' = 1%nat.
Proof.
  split; [reflexivity|]. split; [cbn; lia|].
  destruct (deleteStage_removes_exactly_stage_i
              Sample.operators "5f00" Sample.env 0%nat 0 Sample.store
              [Sample.matchStage; Sample.groupStage] eq_refl
              ltac:(cbn; lia))
    as (h' & state' & ss' & Hrun & Hsnap & Hss & Hlen & _).
  exists h', state', ss'. by repeat split.
Defined.

(** A failed preview of the second stage of the sample store: the first
    stage is as it was. *)
Lemma updateStagePreview_error_witness :
  snapshot Sample.store 0%nat = Some [Sample.matchStage; Sample.groupStage]
  /\ 0 <= 1
  /\ [Sample.matchStage; Sample.groupStage] !! Z.to_nat 1 = Some Sample.groupStage
  /\ exists h' state' ss' s',
      reducer Sample.operators "5f00" Sample.env 0%nat
        (stagePreviewUpdated [doc "{}"] 1 (Some {| message := "timed out" |}) None)
        Sample.store
      = (h', Normal state')
      /\ snapshot h' state' = Some ss'
      /\ ss' !! 1%nat = Some s'
      /\ error s' = Some "timed out"%string
      /\ previewDocuments s' = []
      /\ isLoading s' = false
      /\ ss' !! 0%nat = Some Sample.matchStage.
Proof.
  split; [reflexivity|]. split; [lia|]. split; [reflexivity|].
  destruct (updateStagePreview_error_confined_to_stage
              Sample.operators "5f00" Sample.env 0%nat 1 Sample.store
              [Sample.matchStage; Sample.groupStage] Sample.groupStage
              [doc "{}"] {| message := "timed out" |} None
              eq_refl ltac:(lia) eq_refl)
    as (h' & state' & ss' & s' & Hrun & Hsnap & _ & Hs' & He & Hd & Hl & Hrest).
  exists h', state', ss', s'.
  repeat (split; [done|]). by rewrite (Hrest 0%nat).
Defined.

(** Toggling the first stage of the sample store off and on again, and
    collapsing and expanding it. *)
Lemma toggle_twice_witness :
  snapshot Sample.store 0%nat = Some [Sample.matchStage; Sample.groupStage]
  /\ 0 <= 0
  /\ [Sample.matchStage; Sample.groupStage] !! Z.to_nat 0 = Some Sample.matchStage
  /\ (exists h1 state1 h2 state2,
        reducer Sample.operators "5f00" Sample.env 0%nat (stageToggled 0) Sample.store
        = (h1, Normal state1)
        /\ snapshot h1 state1 = Some [Sample.disabledMatch; Sample.groupStage]
        /\ reducer Sample.operators "5f00" Sample.env state1 (stageToggled 0) h1
           = (h2, Normal state2)
        /\ snapshot h2 state2 = Some [Sample.matchStage; Sample.groupStage])
  /\ (exists h1 state1 h2 state2,
        reducer Sample.operators "5f00" Sample.env 0%nat (stageCollapseToggled 0)
          Sample.store
        = (h1, Normal state1)
        /\ snapshot h1 state1
           = Some [set_isExpanded false Sample.matchStage; Sample.groupStage]
        /\ reducer Sample.operators "5f00" Sample.env state1 (stageCollapseToggled 0) h1
           = (h2, Normal state2)
        /\ snapshot h2 state2 = Some [Sample.matchStage; Sample.groupStage]).
Proof.
  split; [reflexivity|]. split; [lia|]. split; [reflexivity|].
  exact (toggle_twice_restores_pipeline
           Sample.operators "5f00" Sample.env 0%nat 0 Sample.store
           [Sample.matchStage; Sample.groupStage] Sample.matchStage
           eq_refl ltac:(lia) eq_refl).
Defined.

(** ** What each action does to a pipeline of stage objects *)

Section ReducerEffects.

Variable STAGE_OPERATORS : list Operator.t.
Variable EMPTY_STAGE_id : string.
Variable env : Env.

Local Abbreviation run := (reducer STAGE_OPERATORS EMPTY_STAGE_id env).

Implicit Types (h : Heap) (ss : list Stage) (state : loc) (i index : Z).

(** The slots of a copy refer to the copied objects whatever is allocated
    after them. *)
Lemma deref_slots (H : Heap) (pre ss rest : list Stage) :
  objs H = pre ++ ss ++ rest ->
  Forall2 (fun x s => deref H x = Some s)
    (Some <$> seq (length pre) (length ss)) ss.
Proof.
  intros HH. apply Forall2_same_length_lookup_2.
  - by rewrite length_fmap, length_seq.
  - intros k x s Hx Hs.
    rewrite list_lookup_fmap in Hx.
    rewrite lookup_seq_lt in Hx by eauto using lookup_lt_Some.
    injection Hx as <-. cbn. rewrite HH.
    rewrite lookup_app_r, Nat.add_sub' by lia.
    by apply lookup_app_l_Some.
Qed.

Lemma get_fresh_slots_None (base len : nat) i :
  ~ (0 <= i < Z.of_nat len) ->
  JsArray.get (Some <$> seq base len) i = None.
Proof.
  intros Hi. unfold JsArray.get.
  destruct (Z.leb_spec 0 i); [|done].
  rewrite list_lookup_fmap, lookup_seq_ge by lia. done.
Qed.

Lemma setProp_copied_undefined h ss i upd :
  ~ valid_index ss i ->
  setProp (length (arrs h)) i upd (copied h ss) = (copied h ss, Threw TypeError).
Proof.
  intros Hi. unfold setProp, copied.
  erewrite bind_Normal; [|apply getElem_extended].
  by rewrite get_fresh_slots_None.
Qed.

Lemma getProp_copied_undefined {A} h ss i (f : Stage -> A) :
  ~ valid_index ss i ->
  getProp (length (arrs h)) i f (copied h ss) = (copied h ss, Threw TypeError).
Proof.
  intros Hi. unfold getProp, copied.
  erewrite bind_Normal; [|apply getElem_extended].
  by rewrite get_fresh_slots_None.
Qed.

Lemma valid_index_lookup ss i :
  valid_index ss i <-> 0 <= i /\ is_Some (ss !! Z.to_nat i).
Proof.
  unfold valid_index. rewrite lookup_lt_is_Some. lia.
Qed.

(** [state[i]] on a pipeline of stage objects. *)
Lemma getProp_snapshot {A} h state ss i (f : Stage -> A) :
  snapshot h state = Some ss ->
  getProp state i f h
  = (h, if bool_decide (0 <= i) then
          match ss !! Z.to_nat i with
          | Some s => Normal (f s)
          | None => Threw TypeError
          end
        else Threw TypeError).
Proof.
  intros (elems & Ha & Hss)%snapshot_Some. unfold getProp, getElem.
  erewrite bind_Normal; [|erewrite bind_Normal; [|by apply readArray_ok]; reflexivity].
  unfold JsArray.get. case_bool_decide as Hi.
  - destruct (Z.leb_spec 0 i); [|lia].
    destruct (ss !! Z.to_nat i) as [s|] eqn:Hs.
    + destruct (Forall2_lookup_r _ _ _ _ _ Hss Hs) as (x & Hx & Hd).
      rewrite Hx. cbn. apply deref_Some in Hd as (l & -> & Hl).
      erewrite bind_Normal; [|by apply readObject_ok]. done.
    + apply lookup_ge_None in Hs.
      rewrite <- (Forall2_length _ _ _ Hss) in Hs.
      by rewrite (lookup_ge_None_2 elems) by done.
  - destruct (Z.leb_spec 0 i); [lia|]. done.
Qed.

Lemma getProp_snapshot_valid {A} h state ss i s (f : Stage -> A) :
  snapshot h state = Some ss ->
  0 <= i -> ss !! Z.to_nat i = Some s ->
  getProp state i f h = (h, Normal (f s)).
Proof.
  intros Hss Hi Hs. rewrite (getProp_snapshot _ _ ss) by done.
  by rewrite bool_decide_eq_true_2, Hs by done.
Qed.

Lemma newObject_extended h ss elems s :
  newObject s (extended h ss elems)
  = (extended h (ss ++ [s]) elems, Normal (length (objs h) + length ss)%nat).
Proof.
  unfold newObject, extended. cbn. by rewrite <- app_assoc, length_app.
Qed.

Lemma pushArray_extended h ss elems x :
  pushArray (length (arrs h)) x (extended h ss elems)
  = (extended h ss (elems ++ [x]), Normal tt).
Proof.
  unfold pushArray.
  erewrite bind_Normal; [|apply readArray_ok, arrs_extended].
  apply writeArray_extended.
Qed.

Lemma yields_copied h ss' (m : Js loc) :
  m h = (copied h ss', Normal (length (arrs h))) -> yields m h ss'.
Proof.
  intros Hm. exists (copied h ss'), (length (arrs h)).
  split; [done|]. split; [apply preserved_extended | apply snapshot_copied].
Qed.

(** The result of a handler that rearranges the slots of the copy and
    allocates the objects [more] after it. *)
Lemma yields_extended h ss more elems ss' (m : Js loc) :
  m h = (extended h (ss ++ more) elems, Normal (length (arrs h))) ->
  Forall2 (fun x s => deref (extended h (ss ++ more) elems) x = Some s) elems ss' ->
  yields m h ss'.
Proof.
  intros Hm Hall. exists (extended h (ss ++ more) elems), (length (arrs h)).
  split; [done|]. split; [apply preserved_extended|].
  apply snapshot_Some. exists elems. split; [apply arrs_extended | done].
Qed.

Lemma deref_copied_slots h ss more elems :
  Forall2 (fun x s => deref (extended h (ss ++ more) elems) x = Some s)
    (Some <$> seq (length (objs h)) (length ss)) ss.
Proof. by apply (deref_slots _ _ _ more). Qed.

Lemma deref_new_slot h ss s elems :
  deref (extended h (ss ++ [s]) elems) (Some (length (objs h) + length ss)%nat)
  = Some s.
Proof.
  cbn. rewrite lookup_app_r, Nat.add_sub' by lia.
  by rewrite lookup_app_r, Nat.sub_diag by lia.
Qed.

(** *** Adding stages *)

Lemma addStage_effect h state ss :
  snapshot h state = Some ss ->
  run state stageAdded h
  = (copied h (ss ++ [set_id (HexId (newObjectId env)) (EMPTY_STAGE EMPTY_STAGE_id)]),
     Normal (length (arrs h))).
Proof.
  intros Hss.
  change (run state stageAdded) with (addStage EMPTY_STAGE_id env state).
  unfold addStage.
  erewrite bind_Normal; [|by apply copyState_ok]. unfold copied.
  erewrite bind_Normal; [|apply newObject_extended].
  erewrite bind_Normal; last first.
  { apply updateObject_extended.
    by rewrite lookup_app_r, Nat.sub_diag by lia. }
  rewrite insert_app_r_alt, Nat.sub_diag by lia. cbn [insert list_insert].
  erewrite bind_Normal; [|apply pushArray_extended].
  cbn. unfold extended. do 3 f_equal.
  rewrite length_app. cbn. by rewrite seq_app, fmap_app.
Qed.

Lemma AddAfterStage_effect h state ss index :
  snapshot h state = Some ss ->
  let k := JsArray.relative_start (length ss) (index + 1) in
  yields (run state (stageAddedAfter index)) h
    (take k ss ++ set_id (TimeId (dateNow env)) (EMPTY_STAGE EMPTY_STAGE_id)
       :: drop k ss).
Proof.
  intros Hss k.
  change (run state (stageAddedAfter index))
    with (AddAfterStage EMPTY_STAGE_id env state (stageAddedAfter index)).
  eapply yields_extended.
  - unfold AddAfterStage.
    erewrite bind_Normal; [|by apply copyState_ok]. unfold copied.
    erewrite bind_Normal; [|apply newObject_extended].
    erewrite bind_Normal; last first.
    { apply updateObject_extended.
      by rewrite lookup_app_r, Nat.sub_diag by lia. }
    rewrite insert_app_r_alt, Nat.sub_diag by lia. cbn [insert list_insert].
    erewrite bind_Normal; [|apply spliceArray_extended].
    reflexivity.
  - unfold JsArray.splice. cbn [fst]. rewrite length_fmap, length_seq.
    fold k. rewrite Nat.add_0_r.
    apply Forall2_app; [apply Forall2_take, deref_copied_slots|].
    cbn [app]. constructor; [apply deref_new_slot|].
    apply Forall2_drop, deref_copied_slots.
Qed.

(** *** Assignments to one stage *)

Lemma changeStage_effect h state ss i s value :
  snapshot h state = Some ss ->
  0 <= i -> ss !! Z.to_nat i = Some s ->
  run state (stageChanged value i) h
  = (copied h
       (<[Z.to_nat i :=
            set_fromStageOperators (Some false)
              (set_isComplete (Some false) (set_stage value s))]> ss),
     Normal (length (arrs h))).
Proof.
  intros Hss Hi Hs.
  assert (Hlt : (Z.to_nat i < length ss)%nat) by eauto using lookup_lt_Some.
  change (run state (stageChanged value i))
    with (changeStage state (stageChanged value i)).
  unfold changeStage.
  erewrite bind_Normal; [|by apply copyState_ok].
  erewrite bind_Normal; [|by apply setProp_copied].
  erewrite bind_Normal; [|by apply setProp_copied_again].
  erewrite bind_Normal; [|by apply setProp_copied_again].
  reflexivity.
Qed.

Lemma stageResultsLoading_effect h state ss i s :
  snapshot h state = Some ss ->
  0 <= i -> ss !! Z.to_nat i = Some s ->
  run state (loadingStageResults i) h
  = (copied h (<[Z.to_nat i := set_isLoading true s]> ss),
     Normal (length (arrs h))).
Proof.
  intros Hss Hi Hs.
  change (run state (loadingStageResults i))
    with (stageResultsLoading state (loadingStageResults i)).
  unfold stageResultsLoading.
  erewrite bind_Normal; [|by apply copyState_ok].
  erewrite bind_Normal; [|by apply setProp_copied].
  reflexivity.
Qed.

Lemma selectStageOperator_effect h state ss i s operator isCommenting :
  snapshot h state = Some ss ->
  0 <= i -> ss !! Z.to_nat i = Some s ->
  operator ≠ stageOperator s ->
  let value := snippet_of STAGE_OPERATORS operator isCommenting in
  run state (stageOperatorSelected i operator isCommenting) h
  = (copied h
       (<[Z.to_nat i :=
            set_fromStageOperators (Some true)
              (set_isComplete (Some false)
                 (set_isExpanded true
                    (set_snippet (Some value)
                       (set_stage value (set_stageOperator operator s)))))]> ss),
     Normal (length (arrs h))).
Proof.
  intros Hss Hi Hs Hne value.
  assert (Hlt : (Z.to_nat i < length ss)%nat) by eauto using lookup_lt_Some.
  change (run state (stageOperatorSelected i operator isCommenting))
    with (selectStageOperator STAGE_OPERATORS state
            (stageOperatorSelected i operator isCommenting)).
  unfold selectStageOperator.
  erewrite bind_Normal; [|by eapply getProp_snapshot_valid].
  rewrite bool_decide_eq_true_2 by done.
  erewrite bind_Normal; [|by apply copyState_ok].
  erewrite bind_Normal; [|by apply setProp_copied].
  do 5 (erewrite bind_Normal; [|by apply setProp_copied_again]).
  reflexivity.
Qed.

(** *** An index that is no position of the pipeline *)

Lemma dereferenced_out_of_range h state ss action i :
  snapshot h state = Some ss ->
  dereferenced action = Some i ->
  ~ valid_index ss i ->
  exists h', run state action h = (h', Threw TypeError) /\ preserved h h'.
Proof.
  intros Hss Hd Hi.
  destruct action as [| |value j|j| | |j operator isCommenting|j|docs j err complete|j|];
    try discriminate Hd; injection Hd as ->.
  - exists (copied h ss). split; [|apply preserved_extended].
    change (run state (stageChanged value i))
      with (changeStage state (stageChanged value i)).
    unfold changeStage.
    erewrite bind_Normal; [|by apply copyState_ok].
    erewrite bind_Threw; [|by apply setProp_copied_undefined]. done.
  - exists (copied h ss). split; [|apply preserved_extended].
    change (run state (stageCollapseToggled i))
      with (toggleStageCollapse state (stageCollapseToggled i)).
    unfold toggleStageCollapse.
    erewrite bind_Normal; [|by apply copyState_ok].
    erewrite bind_Threw; [|by apply getProp_copied_undefined]. done.
  - exists h. split; [|apply extends_preserved, extends_refl].
    change (run state (stageOperatorSelected i operator isCommenting))
      with (selectStageOperator STAGE_OPERATORS state
              (stageOperatorSelected i operator isCommenting)).
    unfold selectStageOperator.
    erewrite bind_Threw; [done|].
    rewrite (getProp_snapshot _ _ ss) by done. f_equal.
    case_bool_decide as H0; [|done].
    destruct (ss !! Z.to_nat i) eqn:Hs; [|done].
    exfalso. apply Hi, valid_index_lookup. by split; [|eexists].
  - exists (copied h ss). split; [|apply preserved_extended].
    change (run state (stageToggled i))
      with (toggleStage state (stageToggled i)).
    unfold toggleStage.
    erewrite bind_Normal; [|by apply copyState_ok].
    erewrite bind_Threw; [|by apply getProp_copied_undefined]. done.
  - exists (copied h ss). split; [|apply preserved_extended].
    change (run state (stagePreviewUpdated docs i err complete))
      with (updateStagePreview state (stagePreviewUpdated docs i err complete)).
    unfold updateStagePreview.
    erewrite bind_Normal; [|by apply copyState_ok].
    erewrite bind_Threw; [|by apply setProp_copied_undefined]. done.
  - exists (copied h ss). split; [|apply preserved_extended].
    change (run state (loadingStageResults i))
      with (stageResultsLoading state (loadingStageResults i)).
    unfold stageResultsLoading.
    erewrite bind_Normal; [|by apply copyState_ok].
    erewrite bind_Threw; [|by apply setProp_copied_undefined]. done.
Qed.

(** *** Deleting and moving *)

Lemma yields_rearranged h ss elems ss' (m : Js loc) :
  m h = (extended h ss elems, Normal (length (arrs h))) ->
  Forall2 (fun x s => deref (extended h ss elems) x = Some s) elems ss' ->
  yields m h ss'.
Proof.
  intros Hm Hall. exists (extended h ss elems), (length (arrs h)).
  split; [done|]. split; [apply preserved_extended|].
  apply snapshot_Some. exists elems. split; [apply arrs_extended | done].
Qed.

Lemma deleteStage_effect h state ss index :
  snapshot h state = Some ss ->
  let k := JsArray.relative_start (length ss) index in
  yields (run state (stageDeleted index)) h (take k ss ++ drop (S k) ss).
Proof.
  intros Hss k.
  change (run state (stageDeleted index))
    with (deleteStage state (stageDeleted index)).
  eapply yields_rearranged.
  - unfold deleteStage.
    erewrite bind_Normal; [|by apply copyState_ok]. unfold copied.
    erewrite bind_Normal; [|apply spliceArray_extended]. reflexivity.
  - unfold JsArray.splice. cbn [fst app]. rewrite length_fmap, length_seq.
    fold k. rewrite Nat.add_1_r.
    apply Forall2_app; [apply Forall2_take | apply Forall2_drop];
      apply deref_fresh_slots.
Qed.

Lemma removed_slot (base n f : nat) :
  (f < n)%nat ->
  take 1 (drop f (Some <$> seq base n)) = [Some (base + f)%nat].
Proof.
  intros Hf. rewrite <- fmap_drop, <- fmap_take.
  replace n with (f + S (n - S f))%nat by lia.
  rewrite seq_app, drop_app_length' by (by rewrite length_seq).
  done.
Qed.

Lemma moveStage_effect h state ss fromIndex toIndex x :
  snapshot h state = Some ss ->
  fromIndex ≠ toIndex ->
  0 <= fromIndex -> ss !! Z.to_nat fromIndex = Some x ->
  let rest := take (Z.to_nat fromIndex) ss ++ drop (S (Z.to_nat fromIndex)) ss in
  let k := JsArray.relative_start (length rest) toIndex in
  yields (run state (stageMoved fromIndex toIndex)) h
    (take k rest ++ x :: drop k rest).
Proof.
  intros Hss Hne Hf Hx rest k.
  assert (Hlt : (Z.to_nat fromIndex < length ss)%nat) by eauto using lookup_lt_Some.
  change (run state (stageMoved fromIndex toIndex))
    with (moveStage state (stageMoved fromIndex toIndex)).
  set (e := Some <$> seq (length (objs h)) (length ss)).
  set (e1 := take (Z.to_nat fromIndex) e ++ drop (S (Z.to_nat fromIndex)) e).
  assert (He1 : Forall2 (fun y s => deref (extended h ss e) y = Some s) e1 rest).
  { apply Forall2_app; [apply Forall2_take | apply Forall2_drop];
      apply deref_fresh_slots. }
  eapply (yields_rearranged _ ss
            (take k e1 ++ Some (length (objs h) + Z.to_nat fromIndex)%nat :: drop k e1)).
  - unfold moveStage. rewrite bool_decide_eq_false_2 by done.
    erewrite bind_Normal; [|by apply copyState_ok]. unfold copied. fold e.
    erewrite bind_Normal; [|apply spliceArray_extended].
    unfold JsArray.splice, loc. cbn [fst snd app].
    rewrite relative_start_valid by (unfold e; rewrite length_fmap, length_seq; lia).
    assert (Hrem : take 1 (drop (Z.to_nat fromIndex) e)
                   = [Some (length (objs h) + Z.to_nat fromIndex)%nat])
      by (unfold e; by rewrite removed_slot).
    rewrite Hrem.
    change (JsArray.get [Some (length (objs h) + Z.to_nat fromIndex)%nat] 0)
      with (Some (length (objs h) + Z.to_nat fromIndex)%nat).
    rewrite Nat.add_1_r. fold e1.
    erewrite bind_Normal; [|apply spliceArray_extended].
    unfold JsArray.splice, loc. cbn [fst snd app].
    assert (Hlen : length e1 = length rest) by exact (Forall2_length _ _ _ He1).
    rewrite Hlen. fold k. rewrite Nat.add_0_r.
    reflexivity.
  - apply Forall2_app; [by apply Forall2_take|].
    constructor; [|by apply Forall2_drop].
    cbn - [extended]. by rewrite objs_extended.
Qed.

Lemma relative_start_beyond (len : nat) i :
  Z.of_nat len <= i -> JsArray.relative_start len i = len.
Proof.
  intros Hi. unfold JsArray.relative_start.
  destruct (Z.ltb_spec i 0); lia.
Qed.

Lemma relative_start_le (len : nat) i :
  (JsArray.relative_start len i <= len)%nat.
Proof.
  unfold JsArray.relative_start. destruct (Z.ltb_spec i 0); lia.
Qed.



(** X3. A stage-changed action at a position [i] of the pipeline gives
    stage [i] the new text and marks it incomplete, and leaves its cached
    [executor] as it is: [generatePipeline] goes on sending the stage that
    was compiled from the old text. *)
Theorem changeStage_keeps_cached_executor h state ss i s value generateStage :
  snapshot h state = Some ss ->
  0 <= i -> ss !! Z.to_nat i = Some s ->
  exists s',
    yields (run state (stageChanged value i)) h (<[Z.to_nat i := s']> ss)
    /\ stage s' = value
    /\ isComplete s' = Some false
    /\ fromStageOperators s' = Some false
    /\ set_stage (stage s) (set_isComplete (isComplete s)
         (set_fromStageOperators (fromStageOperators s) s')) = s
    /\ (forall e, executor s = Some e -> sent generateStage s' = Compiled e).
Proof.
  intros Hss Hi Hs. eexists. split.
  { by apply yields_copied, changeStage_effect. }
  repeat split; [by destruct s|].
  intros e He. unfold sent. cbn. by rewrite He.
Qed.

(** X4. For the six kinds of action whose handler reads a field of
    [newState[action.index]] (stage changed, toggled, collapse toggled,
    operator selected, preview updated, results loading), an index that is
    no position of the pipeline makes the reducer throw a [TypeError]; the
    input pipeline is as it was. *)
Theorem dereferenced_index_out_of_range_throws h state ss action i :
  snapshot h state = Some ss ->
  dereferenced action = Some i ->
  ~ valid_index ss i ->
  exists h',
    run state action h = (h', Threw TypeError)
    /\ preserved h h'
    /\ snapshot h' state = Some ss.
Proof.
  intros Hss Hd Hi.
  destruct (dereferenced_out_of_range h state ss action i Hss Hd Hi)
    as (h' & Hrun & Hpres).
  exists h'. split; [done|]. split; [done|]. by eapply snapshot_preserved.
Qed.

(** X5. A stage-deleted action never throws.  With an index at or past the
    end of the pipeline it returns a copy with every stage; with a negative
    index it counts from the end, as [splice] does (from the start when the
    index is below minus the length). *)
Theorem deleteStage_index_out_of_range h state ss index :
  snapshot h state = Some ss ->
  ~ valid_index ss index ->
  yields (run state (stageDeleted index)) h
    (if index <? 0 then
       let k := Z.to_nat (Z.max (Z.of_nat (length ss) + index) 0) in
       take k ss ++ drop (S k) ss
     else ss).
Proof.
  intros Hss Hi.
  pose proof (deleteStage_effect h state ss index Hss) as H. cbn zeta in H.
  unfold JsArray.relative_start in H. unfold valid_index in Hi.
  destruct (Z.ltb_spec index 0); [done|].
  rewrite Z.min_r, Nat2Z.id in H by lia.
  by rewrite take_ge, drop_ge, app_nil_r in H by lia.
Qed.

Lemma moved_list_delete {A} (l : list A) (f t : nat) x :
  l !! f = Some x -> (t < length l)%nat ->
  let rest := take f l ++ drop (S f) l in
  let l' := take t rest ++ x :: drop t rest in
  l' !! t = Some x /\ delete t l' = delete f l /\ l' ≡ₚ l.
Proof.
  intros Hx Ht rest l'.
  assert (Hf : (f < length l)%nat) by eauto using lookup_lt_Some.
  assert (Hrest : length rest = (length l - 1)%nat).
  { unfold rest. rewrite length_app, length_take, length_drop. lia. }
  assert (Htake : length (take t rest) = t) by (rewrite length_take; lia).
  split; [|split].
  - unfold l'. by rewrite list_lookup_middle.
  - replace (delete t l') with (delete (length (take t rest)) l')
      by (by rewrite Htake).
    unfold l'. rewrite delete_middle, take_drop.
    by rewrite delete_take_drop.
  - unfold l'. rewrite <- Permutation_middle, take_drop. unfold rest.
    rewrite Permutation_middle. by rewrite take_drop_middle.
Qed.

(** The pipeline after a move between two positions. *)
Lemma moveStage_valid h state ss fromIndex toIndex x :
  snapshot h state = Some ss ->
  fromIndex ≠ toIndex ->
  0 <= fromIndex -> ss !! Z.to_nat fromIndex = Some x ->
  valid_index ss toIndex ->
  let rest := take (Z.to_nat fromIndex) ss ++ drop (S (Z.to_nat fromIndex)) ss in
  yields (run state (stageMoved fromIndex toIndex)) h
    (take (Z.to_nat toIndex) rest ++ x :: drop (Z.to_nat toIndex) rest).
Proof.
  intros Hss Hne Hf Hx Ht rest.
  pose proof (moveStage_effect h state ss fromIndex toIndex x Hss Hne Hf Hx) as H.
  cbn zeta in H. fold rest in H.
  assert (Hlt : (Z.to_nat fromIndex < length ss)%nat) by eauto using lookup_lt_Some.
  assert (Hrest : length rest = (length ss - 1)%nat).
  { unfold rest. rewrite length_app, length_take, length_drop. lia. }
  unfold valid_index in Ht.
  replace (JsArray.relative_start (length rest) toIndex) with (Z.to_nat toIndex) in H;
    [done|].
  unfold JsArray.relative_start. destruct (Z.ltb_spec toIndex 0); lia.
Qed.

(** X6. A stage-moved action between two different positions of the
    pipeline returns the same stages in a new order: the stage that was at
    [fromIndex] is at [toIndex], and the other stages are in the order they
    were in. *)
Theorem moveStage_moves_one_stage h state ss fromIndex toIndex x :
  snapshot h state = Some ss ->
  fromIndex ≠ toIndex ->
  0 <= fromIndex -> ss !! Z.to_nat fromIndex = Some x ->
  valid_index ss toIndex ->
  exists ss',
    yields (run state (stageMoved fromIndex toIndex)) h ss'
    /\ ss' !! Z.to_nat toIndex = Some x
    /\ delete (Z.to_nat toIndex) ss' = delete (Z.to_nat fromIndex) ss
    /\ ss' ≡ₚ ss.
Proof.
  intros Hss Hne Hf Hx Ht. eexists. split.
  { by apply moveStage_valid. }
  apply moved_list_delete; [done|]. unfold valid_index in Ht. lia.
Qed.

(** X7. Moving a stage from one position of the pipeline to another and
    then back returns a pipeline equal, stage by stage, to the original. *)
Theorem moveStage_there_and_back h state ss fromIndex toIndex :
  snapshot h state = Some ss ->
  fromIndex ≠ toIndex ->
  valid_index ss fromIndex ->
  valid_index ss toIndex ->
  exists h1 state1 h2 state2,
    run state (stageMoved fromIndex toIndex) h = (h1, Normal state1)
    /\ run state1 (stageMoved toIndex fromIndex) h1 = (h2, Normal state2)
    /\ snapshot h2 state2 = Some ss.
Proof.
  intros Hss Hne Hf Ht.
  pose proof Hf as [Hf0 [x Hx]]%valid_index_lookup.
  destruct (moveStage_valid h state ss fromIndex toIndex x Hss Hne Hf0 Hx Ht)
    as (h1 & state1 & Hrun1 & _ & Hss1).
  set (rest := take (Z.to_nat fromIndex) ss ++ drop (S (Z.to_nat fromIndex)) ss) in *.
  set (ss1 := take (Z.to_nat toIndex) rest ++ x :: drop (Z.to_nat toIndex) rest) in *.
  unfold valid_index in Hf, Ht.
  destruct (moved_list_delete ss (Z.to_nat fromIndex) (Z.to_nat toIndex) x Hx
              ltac:(lia)) as (Hat & Hdel & Hperm).
  fold rest ss1 in Hat, Hdel, Hperm.
  assert (Hlen : length ss1 = length ss) by by rewrite Hperm.
  destruct (moveStage_valid h1 state1 ss1 toIndex fromIndex x Hss1
              ltac:(done) ltac:(lia) Hat ltac:(unfold valid_index; lia))
    as (h2 & state2 & Hrun2 & _ & Hss2).
  exists h1, state1, h2, state2. split; [done|]. split; [done|].
  rewrite Hss2. f_equal.
  rewrite <- !delete_take_drop, Hdel, delete_take_drop.
  assert (Htake : length (take (Z.to_nat fromIndex) ss) = Z.to_nat fromIndex)
    by (rewrite length_take; lia).
  rewrite <- Htake at 1. rewrite take_app_length.
  rewrite <- Htake at 2. rewrite drop_app_length.
  by apply take_drop_middle.
Qed.

(** X8. A stage-moved action whose [fromIndex] is at or past the end of the
    pipeline (and differs from [toIndex]) does not throw: [splice] removes
    nothing, and the reducer returns an array with one slot more, the new
    slot holding [undefined].  The result is no pipeline of stages. *)
Theorem moveStage_from_past_end_inserts_undefined h state ss fromIndex toIndex :
  snapshot h state = Some ss ->
  fromIndex ≠ toIndex ->
  Z.of_nat (length ss) <= fromIndex ->
  exists h' state' elems,
    run state (stageMoved fromIndex toIndex) h = (h', Normal state')
    /\ preserved h h'
    /\ arrs h' !! state' = Some elems
    /\ length elems = S (length ss)
    /\ elems !! JsArray.relative_start (length ss) toIndex = Some None
    /\ snapshot h' state' = None.
Proof.
  intros Hss Hne Hf.
  set (e := Some <$> seq (length (objs h)) (length ss)).
  assert (He : length e = length ss) by (unfold e; by rewrite length_fmap, length_seq).
  set (k := JsArray.relative_start (length ss) toIndex).
  assert (Hk : (k <= length ss)%nat) by apply relative_start_le.
  assert (Hrun : run state (stageMoved fromIndex toIndex) h
                 = (extended h ss (take k e ++ None :: drop k e),
                    Normal (length (arrs h)))).
  { change (run state (stageMoved fromIndex toIndex))
      with (moveStage state (stageMoved fromIndex toIndex)).
    unfold moveStage. rewrite bool_decide_eq_false_2 by done.
    erewrite bind_Normal; [|by apply copyState_ok]. unfold copied. fold e.
    erewrite bind_Normal; [|apply spliceArray_extended].
    unfold JsArray.splice, loc. cbn [fst snd app].
    rewrite He, relative_start_beyond by done.
    rewrite (take_ge e), !(drop_ge e), app_nil_r by lia.
    change (JsArray.get (take 1 []) 0) with (@None nat).
    erewrite bind_Normal; [|apply spliceArray_extended].
    unfold JsArray.splice, loc. cbn [fst snd app].
    rewrite He. fold k. by rewrite Nat.add_0_r. }
  assert (Hhole : (take k e ++ None :: drop k e) !! k = Some (@None nat)).
  { assert (Htake : length (take k e) = k) by (rewrite length_take; lia).
    by apply list_lookup_middle. }
  eexists _, _, _. split; [exact Hrun|].
  split; [apply preserved_extended|].
  split; [apply arrs_extended|].
  split; [|split; [exact Hhole|]].
  - rewrite length_app. cbn. rewrite length_take, length_drop. lia.
  - destruct (snapshot (extended h ss (take k e ++ None :: drop k e))
                (length (arrs h))) as [ss'|] eqn:Hsnap; [|done].
    apply snapshot_Some in Hsnap as (elems & Ha & Hall).
    pose proof (arrs_extended h ss (take k e ++ None :: drop k e)) as Ha'.
    pose proof (eq_trans (eq_sym Ha) Ha') as [= ->].
    destruct (Forall2_lookup_l _ _ _ _ _ Hall Hhole) as (s & _ & Hs).
    discriminate Hs.
Qed.

Lemma append_nonempty (a b : string) : b ≠ ""%string -> (a +:+ b)%string ≠ ""%string.
Proof. intros Hb. destruct a; [done|]. discriminate. Qed.

Lemma or_default_nonempty x d : d ≠ ""%string -> or_default x d ≠ ""%string.
Proof.
  intros Hd. unfold or_default. destruct x as [s|]; [|done].
  by case_bool_decide.
Qed.

Lemma snippet_of_nonempty operator isCommenting :
  snippet_of STAGE_OPERATORS operator isCommenting ≠ ""%string.
Proof.
  unfold snippet_of.
  assert (Hs : forall x, or_default x DEFAULT_SNIPPET ≠ ""%string)
    by (intros x; by apply or_default_nonempty).
  destruct isCommenting; [by apply append_nonempty | done].
Qed.

(** X9. A stage-operator-selected action naming another operator than the
    one stage [i] has: stage [i] gets the operator, and a text that is never
    empty, which is also recorded as its [snippet]: the snippet of the
    operator in [STAGE_OPERATORS] (after its comment when commenting), or
    the default snippet for an operator that is not in the table.  The stage
    is expanded and marked incomplete; its other fields, and the other
    stages, are as they were. *)
Theorem selectStageOperator_new_operator h state ss i s operator isCommenting :
  snapshot h state = Some ss ->
  0 <= i -> ss !! Z.to_nat i = Some s ->
  operator ≠ stageOperator s ->
  exists s' value,
    yields (run state (stageOperatorSelected i operator isCommenting)) h
      (<[Z.to_nat i := s']> ss)
    /\ s' = set_fromStageOperators (Some true)
              (set_isComplete (Some false)
                 (set_isExpanded true
                    (set_snippet (Some value)
                       (set_stage value (set_stageOperator operator s)))))
    /\ value ≠ ""%string
    /\ (getStageOperator STAGE_OPERATORS operator = None ->
        value = DEFAULT_SNIPPET)
    /\ (forall details text,
          getStageOperator STAGE_OPERATORS operator = Some details ->
          Operator.snippet details = Some text -> text ≠ ""%string ->
          isCommenting = false -> value = text).
Proof.
  intros Hss Hi Hs Hne.
  eexists _, (snippet_of STAGE_OPERATORS operator isCommenting).
  split; [by apply yields_copied, selectStageOperator_effect|].
  split; [done|]. split; [apply snippet_of_nonempty|].
  unfold snippet_of. split.
  - intros ->. cbn. by destruct isCommenting.
  - intros details text -> Htext Hne' ->. cbn. rewrite Htext. cbn.
    by rewrite bool_decide_eq_false_2.
Qed.

(** *** The reducer keeps a pipeline a pipeline *)

Lemma yields_snapshot (m : Js loc) h ss' h' state' :
  yields m h ss' -> m h = (h', Normal state') -> snapshot h' state' = Some ss'.
Proof. intros (h1 & state1 & Hrun & _ & Hsnap) Hm. congruence. Qed.

Lemma copied_snapshot (m : Js loc) h ss' h' state' :
  m h = (copied h ss', Normal (length (arrs h))) ->
  m h = (h', Normal state') -> snapshot h' state' = Some ss'.
Proof. intros Hm. by apply yields_snapshot, yields_copied. Qed.

Lemma valid_index_dec ss i : valid_index ss i \/ ~ valid_index ss i.
Proof. unfold valid_index. lia. Qed.

Lemma throws_not_returns (m : Js loc) h h1 h' state' :
  m h = (h1, Threw TypeError) -> m h = (h', Normal state') -> False.
Proof. congruence. Qed.

Lemma length_moved {A} (l : list A) (f t : nat) x :
  (f < length l)%nat ->
  length (take t (take f l ++ drop (S f) l)
          ++ x :: drop t (take f l ++ drop (S f) l)) = length l.
Proof.
  intros Hf. rewrite length_app. cbn. rewrite length_take, length_drop.
  rewrite length_app, length_take, length_drop. lia.
Qed.

(** X10. Given a pipeline of stage objects and an action whose type is not
    the name of a member that [MAPPINGS] inherits from [Object.prototype],
    whatever the reducer returns is again a pipeline of stage objects, with
    one stage more, one less or as many, provided a stage-moved action moves
    from a position of the pipeline (or onto the same index). *)
Theorem reducer_keeps_pipeline_of_stages h state ss action h' state' :
  snapshot h state = Some ss ->
  JsObject.inherited (action_type action) = None ->
  (forall fromIndex toIndex,
      action = stageMoved fromIndex toIndex ->
      fromIndex = toIndex \/ valid_index ss fromIndex) ->
  run state action h = (h', Normal state') ->
  exists ss',
    snapshot h' state' = Some ss'
    /\ (length ss - 1 <= length ss' <= length ss + 1)%nat.
Proof.
  intros Hss Hown Hmove Hrun.
  destruct action as [|j|value j|j|j|f t|j operator isCommenting|j|docs j err complete|j|type].
  - eexists. split.
    + eapply copied_snapshot; [by apply addStage_effect | exact Hrun].
    + rewrite length_app. cbn. lia.
  - eexists. split.
    + eapply yields_snapshot; [by apply AddAfterStage_effect | exact Hrun].
    + rewrite length_app. cbn. rewrite length_take, length_drop. lia.
  - destruct (valid_index_dec ss j) as [Hj | Hj].
    + apply valid_index_lookup in Hj as [Hj [s Hs]]. eexists. split.
      * eapply copied_snapshot; [by eapply changeStage_effect | exact Hrun].
      * rewrite length_insert. lia.
    + destruct (dereferenced_out_of_range h state ss (stageChanged value j) j Hss eq_refl Hj)
        as (h1 & H1 & _).
      destruct (throws_not_returns _ _ _ _ _ H1 Hrun).
  - destruct (valid_index_dec ss j) as [Hj | Hj].
    + apply valid_index_lookup in Hj as [Hj [s Hs]]. eexists. split.
      * eapply copied_snapshot; [by eapply toggleStageCollapse_ok | exact Hrun].
      * rewrite length_insert. lia.
    + destruct (dereferenced_out_of_range h state ss (stageCollapseToggled j) j Hss eq_refl Hj)
        as (h1 & H1 & _).
      destruct (throws_not_returns _ _ _ _ _ H1 Hrun).
  - eexists. split.
    + eapply yields_snapshot; [by apply deleteStage_effect | exact Hrun].
    + rewrite length_app, length_take, length_drop. lia.
  - destruct (decide (f = t)) as [<- | Hne].
    + exists ss. split; [|lia].
      change (run state (stageMoved f f)) with (moveStage state (stageMoved f f)) in Hrun.
      unfold moveStage in Hrun. rewrite bool_decide_eq_true_2 in Hrun by done.
      by injection Hrun as <- <-.
    + destruct (Hmove f t eq_refl) as [? | Hf]; [done|].
      apply valid_index_lookup in Hf as [Hf [x Hx]]. eexists. split.
      * eapply yields_snapshot; [by eapply moveStage_effect | exact Hrun].
      * rewrite length_moved by eauto using lookup_lt_Some. lia.
  - destruct (valid_index_dec ss j) as [Hj | Hj].
    + apply valid_index_lookup in Hj as [Hj [s Hs]].
      destruct (decide (operator = stageOperator s)) as [-> | Hne].
      * exists ss. split; [|lia].
        change (run state (stageOperatorSelected j (stageOperator s) isCommenting))
          with (selectStageOperator STAGE_OPERATORS state
                  (stageOperatorSelected j (stageOperator s) isCommenting)) in Hrun.
        unfold selectStageOperator in Hrun.
        erewrite bind_Normal in Hrun; [|by eapply getProp_snapshot_valid].
        rewrite bool_decide_eq_false_2 in Hrun by (intros H; by apply H).
        by injection Hrun as <- <-.
      * eexists. split.
        -- eapply copied_snapshot; [by eapply selectStageOperator_effect | exact Hrun].
        -- rewrite length_insert. lia.
    + destruct (dereferenced_out_of_range h state ss (stageOperatorSelected j operator isCommenting) j Hss eq_refl Hj)
        as (h1 & H1 & _).
      destruct (throws_not_returns _ _ _ _ _ H1 Hrun).
  - destruct (valid_index_dec ss j) as [Hj | Hj].
    + apply valid_index_lookup in Hj as [Hj [s Hs]]. eexists. split.
      * eapply copied_snapshot; [by eapply toggleStage_ok | exact Hrun].
      * rewrite length_insert. lia.
    + destruct (dereferenced_out_of_range h state ss (stageToggled j) j Hss eq_refl Hj)
        as (h1 & H1 & _).
      destruct (throws_not_returns _ _ _ _ _ H1 Hrun).
  - destruct (valid_index_dec ss j) as [Hj | Hj].
    + apply valid_index_lookup in Hj as [Hj [s Hs]]. eexists. split.
      * eapply copied_snapshot; [by eapply updateStagePreview_ok | exact Hrun].
      * rewrite length_insert. lia.
    + destruct (dereferenced_out_of_range h state ss (stagePreviewUpdated docs j err complete) j Hss eq_refl Hj)
        as (h1 & H1 & _).
      destruct (throws_not_returns _ _ _ _ _ H1 Hrun).
  - destruct (valid_index_dec ss j) as [Hj | Hj].
    + apply valid_index_lookup in Hj as [Hj [s Hs]]. eexists. split.
      * eapply copied_snapshot; [by eapply stageResultsLoading_effect | exact Hrun].
      * rewrite length_insert. lia.
    + destruct (dereferenced_out_of_range h state ss (loadingStageResults j) j Hss eq_refl Hj)
        as (h1 & H1 & _).
      destruct (throws_not_returns _ _ _ _ _ H1 Hrun).
  - unfold reducer in Hrun. cbn [action_type] in Hrun.
    destruct (MAPPINGS STAGE_OPERATORS EMPTY_STAGE_id !! type) as [fn|] eqn:Hfn.
    + unfold MAPPINGS in Hfn. apply elem_of_list_to_map_2 in Hfn.
      repeat (apply elem_of_cons in Hfn as [[= -> ->] | Hfn]);
        try discriminate Hrun; [|by apply elem_of_nil in Hfn].
      eexists. split.
      * eapply (copied_snapshot (addStage EMPTY_STAGE_id env state));
          [by apply addStage_effect | exact Hrun].
      * rewrite length_app. cbn. lia.
    + cbn [action_type] in Hown. rewrite Hown in Hrun.
      injection Hrun as <- <-. exists ss. split; [done|lia].
Qed.

End ReducerEffects.

(** ** Which stages a generated pipeline holds *)

Section GenerateEffects.

Variable generateStage : Stage -> Exec.
Variable generateStageAsString : Stage -> string.
Variable state : State (list Stage).
Variable index : Z.

Local Abbreviation step := (generatePipeline_step generateStage state index).

(** The test of the [filter] in [generatePipelineAsString]. *)
Local Abbreviation chosen := (fun (s : Stage) (i : Z) => isEnabled s && (i <=? index)).

Lemma step_compiled results stage i :
  List.filter is_compiled (step results stage i)
  = List.filter is_compiled results
    ++ (if chosen stage i then [sent generateStage stage] else []).
Proof.
  unfold generatePipeline_step. rewrite (andb_comm (isEnabled stage)).
  destruct (_ && isEnabled stage); [|by rewrite app_nil_r].
  destruct (is_NA _ || _); rewrite !List.filter_app; cbn; by rewrite ?app_nil_r.
Qed.

Lemma reduce_from_compiled arr from results :
  List.filter is_compiled (reduce_from step from arr results)
  = List.filter is_compiled results
    ++ (sent generateStage <$> filter_from chosen from arr).
Proof.
  revert from results.
  induction arr as [|stage arr IH]; intros from results; cbn.
  - by rewrite app_nil_r.
  - rewrite IH, step_compiled, <- app_assoc. f_equal.
    by destruct (isEnabled stage && _).
Qed.

Lemma generatePipeline_out :
  exists out,
    generatePipeline generateStage state index = Normal out
    /\ (out = reduce step [] (pipeline state)
        \/ out = reduce step [] (pipeline state) ++ [LIMIT]).
Proof.
  unfold generatePipeline.
  destruct (generatePipeline_returns generateStage state index) as [out Hout].
  unfold generatePipeline in Hout. exists out. split; [done|].
  destruct (reduce step [] (pipeline state)) as [|x stages] eqn:Hs.
  - injection Hout as <-. by left.
  - destruct (last (pipeline state)) as [lastStage|]; [|done].
    destruct (_ && _); injection Hout as <-; [by right | by left].
Qed.

(** X11. The compiled stages of the pipeline that [generatePipeline]
    returns are exactly the enabled stages at or before the index, in
    pipeline order, each by its cached executor if it has one and by
    [generateStage] otherwise.  They are the stages, in the same order, that
    [generatePipelineAsString] prints between brackets, separated by a comma
    and a space. *)
Theorem generatePipeline_compiles_chosen_stages :
  exists out,
    generatePipeline generateStage state index = Normal out
    /\ List.filter is_compiled out
       = sent generateStage <$> filter_indexed chosen (pipeline state)
    /\ generatePipelineAsString generateStageAsString state index
       = ("[" +:+
          join ", " (generateStageAsString <$> filter_indexed chosen (pipeline state))
          +:+ "]")%string.
Proof.
  destruct generatePipeline_out as (out & Hout & Hshape).
  exists out. split; [done|]. split; [|done].
  unfold filter_indexed, reduce in *.
  destruct Hshape as [-> | ->]; rewrite ?List.filter_app, reduce_from_compiled;
    cbn; by rewrite ?app_nil_r.
Qed.

Lemma step_large_limit stage i c :
  inputDocuments_count state = CountNum c ->
  LARGE_LIMIT ∈ step [] stage i ->
  sample state = true /\ 100000 < c /\ i <= index
  /\ isEnabled stage = true /\ full_scan (stageOperator stage).
Proof.
  intros Hc. unfold generatePipeline_step. rewrite Hc. cbn.
  destruct (Z.leb_spec i index); cbn; [|by intros ?%elem_of_nil].
  destruct (isEnabled stage); cbn; [|by intros ?%elem_of_nil].
  destruct (100000 <? c) eqn:Hgt; cbn;
    [|by intros [=]%list_elem_of_singleton].
  destruct (JsArray.includes FULL_SCAN_OPS (stageOperator stage)) eqn:Hop; cbn;
    [|by intros [=]%list_elem_of_singleton].
  destruct (sample state); cbn; [|by intros [=]%list_elem_of_singleton].
  intros _. repeat split; [by apply Z.ltb_lt | done | by apply includes_spec].
Qed.

Lemma reduce_from_large_limit arr from results :
  LARGE_LIMIT ∈ reduce_from step from arr results ->
  LARGE_LIMIT ∈ results
  \/ exists (i : nat) stage,
       arr !! i = Some stage /\ LARGE_LIMIT ∈ step [] stage (from + Z.of_nat i).
Proof.
  revert from results.
  induction arr as [|stage arr IH]; intros from results; cbn; [by left|].
  intros [Hin | (i & stage' & Hi & Hin)]%IH.
  - rewrite step_appends in Hin. apply elem_of_app in Hin as [Hin | Hin]; [by left|].
    right. exists 0%nat, stage. split; [done|]. by rewrite Z.add_0_r.
  - right. exists (S i), stage'. split; [done|].
    by replace (from + Z.of_nat (S i)) with (from + 1 + Z.of_nat i) by lia.
Qed.

(** X12. With a known count, the pipeline that [generatePipeline] returns
    holds the large limit only if sampling is on, the count exceeds 100000
    and some enabled stage at or before the index has a full-table-scan
    operator. *)
Theorem generatePipeline_large_limit_known_count c out :
  inputDocuments_count state = CountNum c ->
  generatePipeline generateStage state index = Normal out ->
  LARGE_LIMIT ∈ out ->
  sample state = true /\ 100000 < c
  /\ exists (i : nat) stage,
       pipeline state !! i = Some stage /\ Z.of_nat i <= index
       /\ isEnabled stage = true /\ full_scan (stageOperator stage).
Proof.
  intros Hc Hout Hin.
  destruct generatePipeline_out as (out' & Hout' & Hshape).
  assert (out' = out) as -> by congruence.
  assert (Hstages : LARGE_LIMIT ∈ reduce step [] (pipeline state)).
  { destruct Hshape as [-> | ->]; [done|].
    apply elem_of_app in Hin as [Hin | Hin]; [done|].
    by apply list_elem_of_singleton in Hin. }
  apply reduce_from_large_limit in Hstages as [Hnil | (i & stage & Hi & Hstep)];
    [by apply elem_of_nil in Hnil|].
  apply (step_large_limit _ _ c Hc) in Hstep as (Hs & Hgt & Hle & Hen & Hop).
  split; [done|]. split; [done|]. exists i, stage. by repeat split.
Qed.

Lemma filter_from_none {A} (p : A -> Z -> bool) from (arr : list A) :
  (forall (i : nat) x, arr !! i = Some x -> p x (from + Z.of_nat i) = false) ->
  filter_from p from arr = [].
Proof.
  revert from. induction arr as [|x arr IH]; intros from Hall; cbn; [done|].
  pose proof (Hall 0%nat x eq_refl) as H0. rewrite Z.add_0_r in H0. rewrite H0.
  apply IH. intros i y Hy.
  replace (from + 1 + Z.of_nat i) with (from + Z.of_nat (S i)) by lia.
  by apply Hall.
Qed.

(** X13. When no stage at or before the index is enabled (an empty
    pipeline, a negative index, or disabled stages only), [generatePipeline]
    returns the empty pipeline, without any limit, whatever the count is, and
    [generatePipelineAsString] returns the text of the empty array. *)
Theorem generatePipeline_nothing_enabled :
  (forall (i : nat) stage,
      pipeline state !! i = Some stage -> Z.of_nat i <= index ->
      isEnabled stage = false) ->
  generatePipeline generateStage state index = Normal []
  /\ generatePipelineAsString generateStageAsString state index = "[]"%string.
Proof.
  intros Hnone. split.
  - unfold generatePipeline.
    destruct (reduce step [] (pipeline state)) as [|x stages] eqn:Hs; [done|].
    assert (Hne : reduce step [] (pipeline state) ≠ []) by by rewrite Hs.
    apply reduce_runs in Hne as (i & stage & Hi & Hle & Hen).
    rewrite (Hnone i stage Hi Hle) in Hen. discriminate.
  - unfold generatePipelineAsString, filter_indexed.
    rewrite filter_from_none; [done|].
    intros i stage Hi. rewrite Z.add_0_l.
    destruct (Z.leb_spec (Z.of_nat i) index); [|by rewrite andb_false_r].
    by rewrite (Hnone i stage Hi).
Qed.

End GenerateEffects.

(** ** What running stages dispatches *)

Section ExecutionEffects.

Variable generateStage : Stage -> Exec.
Variable generateStage_writes : Stage -> Stage.

Local Abbreviation step_at :=
  (generatePipeline_step_at generateStage generateStage_writes).
Local Abbreviation after := (compiled generateStage generateStage_writes).

(** Every slot of [elems] refers to an object of [h]. *)
Local Abbreviation live h elems :=
  (Forall (fun x : option loc =>
             exists l : loc, x = Some l /\ (l < length (objs h))%nat) elems).

(** The objects of [h] that have a compiled stage in [executor] are in [h']
    as they are. *)
Local Abbreviation keeps_cached h h' :=
  (forall (l : loc) s,
     objs h !! l = Some s -> is_Some (executor s) -> objs h' !! l = Some s).

Implicit Types (w : World) (h : Heap) (ss : list Stage) (state : State loc).
Implicit Types (elems : list (option loc)) (l : loc).

Lemma liftJs_pure {A} (m : Js A) w c :
  m (heap w) = (heap w, c) -> liftJs m w = (w, c).
Proof. intros H. unfold liftJs. rewrite H. by destruct w. Qed.

Lemma liftJs_run {A} (m : Js A) w h' c :
  m (heap w) = (h', c) ->
  liftJs m w = ({| heap := h'; dispatched := dispatched w; calls := calls w |}, c).
Proof. intros H. unfold liftJs. by rewrite H. Qed.

(** The slot and the object behind a position of a pipeline. *)
Lemma snapshot_lookup h a ss (k : nat) s :
  snapshot h a = Some ss -> ss !! k = Some s ->
  exists elems l,
    arrs h !! a = Some elems /\ elems !! k = Some (Some l) /\ objs h !! l = Some s.
Proof.
  intros (elems & Ha & Hall)%snapshot_Some Hs.
  destruct (Forall2_lookup_r _ _ _ _ _ Hall Hs) as (x & Hx & (l & -> & Hl)%deref_Some).
  by exists elems, l.
Qed.

Lemma snapshot_live h a elems ss :
  arrs h !! a = Some elems -> snapshot h a = Some ss -> live h elems.
Proof.
  intros Ha (elems' & Ha' & Hall)%snapshot_Some.
  assert (elems' = elems) as -> by congruence.
  apply Forall_lookup. intros k x Hx.
  destruct (Forall2_lookup_l _ _ _ _ _ Hall Hx) as (s & _ & (l & -> & Hl)%deref_Some).
  exists l. split; [done|]. eauto using lookup_lt_Some.
Qed.

(** A pipeline array whose slots are live reads as a pipeline of stages. *)
Lemma live_snapshot h a elems :
  arrs h !! a = Some elems -> live h elems ->
  exists ss, snapshot h a = Some ss.
Proof.
  intros Ha Hlive. unfold snapshot. rewrite Ha. cbn.
  apply mapM_is_Some. eapply Forall_impl; [exact Hlive|].
  intros x (l & -> & Hl). cbn. by apply lookup_lt_is_Some.
Qed.

Lemma live_same_length h h' elems :
  length (objs h') = length (objs h) -> live h elems -> live h' elems.
Proof.
  intros Hlen Hlive. eapply Forall_impl; [exact Hlive|].
  intros x (l & -> & Hl). exists l. split; [done | by rewrite Hlen].
Qed.

Lemma generateStage_at_effect h l s :
  objs h !! l = Some s ->
  generateStage_at generateStage generateStage_writes l h
  = ({| objs := <[l := generateStage_writes s]> (objs h); arrs := arrs h |},
     Normal (generateStage s)).
Proof.
  intros Hl. unfold generateStage_at.
  erewrite bind_Normal; [|by apply readObject_ok].
  erewrite bind_Normal; [reflexivity|].
  unfold updateObject. by rewrite Hl.
Qed.

(** *** [generatePipeline] on the store, whatever is cached *)

Lemma step_at_effect state index results l i h s :
  objs h !! l = Some s ->
  exists h' out,
    step_at state index results (Some l) i h = (h', Normal out)
    /\ arrs h' = arrs h
    /\ length (objs h') = length (objs h)
    /\ keeps_cached h h'
    /\ (forall l', (l' = l -> index < i) -> objs h' !! l' = objs h !! l').
Proof.
  intros Hl. unfold generatePipeline_step_at.
  destruct (Z.leb_spec i index) as [Hle | Hgt]; [|by exists h; eexists].
  erewrite bind_Normal; [|by apply readObject_ok].
  destruct (isEnabled s); [|by exists h; eexists].
  destruct (executor s) as [e|] eqn:He.
  { erewrite bind_Normal; [|reflexivity]. by exists h; eexists. }
  erewrite bind_Normal; [|by apply generateStage_at_effect].
  eexists _, _. split; [reflexivity|]. cbn.
  split; [done|]. split; [by rewrite length_insert|]. split.
  - intros l' s' Hl' [e He']. rewrite list_lookup_insert_ne; [done|].
    intros <-. unfold loc in *. congruence.
  - intros l' Hne. rewrite list_lookup_insert_ne; [done|].
    intros <-. specialize (Hne eq_refl). lia.
Qed.

Lemma reduce_at_effect state index elems : forall from results h,
  live h elems ->
  exists h' out,
    reduceJs_from (step_at state index) from elems results h = (h', Normal out)
    /\ arrs h' = arrs h
    /\ length (objs h') = length (objs h)
    /\ keeps_cached h h'
    /\ (forall l',
          (forall k : nat, elems !! k = Some (Some l') -> index < from + Z.of_nat k) ->
          objs h' !! l' = objs h !! l').
Proof.
  induction elems as [|x elems IH]; intros from results h Hlive.
  { by exists h; eexists. }
  apply Forall_cons in Hlive as [(l & -> & Hl) Hlive].
  destruct (lookup_lt_is_Some_2 _ _ Hl) as [s Hs].
  destruct (step_at_effect state index results l from h s Hs)
    as (h1 & out1 & Hstep & Ha1 & Hlen1 & Hkeep1 & Hrest1).
  destruct (IH (from + 1) out1 h1 (live_same_length _ _ _ Hlen1 Hlive))
    as (h2 & out2 & Hred & Ha2 & Hlen2 & Hkeep2 & Hrest2).
  exists h2, out2. cbn [reduceJs_from].
  erewrite bind_Normal; [|exact Hstep].
  split; [exact Hred|]. split; [congruence|]. split; [congruence|]. split.
  - intros l' s' Hl' He. apply Hkeep2; [by apply Hkeep1 | done].
  - intros l' Hbeyond. rewrite Hrest2, Hrest1; [done | |].
    + intros ->. specialize (Hbeyond 0%nat eq_refl). lia.
    + intros k Hk. specialize (Hbeyond (S k) Hk). lia.
Qed.

Lemma generatePipeline_at_effect state index h elems :
  arrs h !! pipeline state = Some elems -> live h elems ->
  exists h' out,
    generatePipeline_at generateStage generateStage_writes state index h
    = (h', Normal out)
    /\ arrs h' = arrs h
    /\ length (objs h') = length (objs h)
    /\ keeps_cached h h'
    /\ (forall l',
          (forall k : nat, elems !! k = Some (Some l') -> index < Z.of_nat k) ->
          objs h' !! l' = objs h !! l').
Proof.
  intros Ha Hlive. unfold generatePipeline_at.
  erewrite bind_Normal; [|by apply readArray_ok].
  destruct (reduce_at_effect state index elems 0 [] h Hlive)
    as (h' & stages & Hred & Ha' & Hlen & Hkeep & Hrest).
  erewrite bind_Normal; [|exact Hred].
  assert (Hfacts : arrs h' = arrs h /\ length (objs h') = length (objs h)
                   /\ keeps_cached h h'
                   /\ (forall l',
                         (forall k : nat, elems !! k = Some (Some l') ->
                                          index < Z.of_nat k) ->
                         objs h' !! l' = objs h !! l')).
  { split; [done|]. split; [done|]. split; [done|].
    intros l' Hbeyond. apply Hrest. intros k Hk. specialize (Hbeyond k Hk). lia. }
  destruct stages as [|entry stages]; [by exists h'; eexists|].
  assert (Hcase : elems = [] \/ exists elems' x, elems = elems' ++ [x])
    by (clear; induction elems using rev_ind; eauto).
  destruct Hcase as [-> | (elems' & x & ->)].
  { cbn in Hred. by injection Hred. }
  rename elems' into elems.
  apply Forall_app in Hlive as [_ (l & -> & Hl)%Forall_singleton].
  assert (Hl' : (l < length (objs h'))%nat) by by rewrite Hlen.
  destruct (lookup_lt_is_Some_2 _ _ Hl') as [s Hs].
  erewrite bind_Normal.
  2:{ unfold getElem. erewrite bind_Normal; [|apply readArray_ok; by rewrite Ha'].
      reflexivity. }
  assert (Hget : JsArray.get (elems ++ [Some l])
                   (Z.of_nat (length (elems ++ [Some l])) - 1) = Some l).
  { unfold JsArray.get. rewrite length_app. cbn [length].
    destruct (Z.leb_spec 0 (Z.of_nat (length elems + 1) - 1)); [|lia].
    replace (Z.to_nat (Z.of_nat (length elems + 1) - 1)) with (length elems) by lia.
    by rewrite list_lookup_middle. }
  rewrite Hget.
  erewrite bind_Normal; [|by apply readObject_ok].
  destruct (_ && _); by exists h'; eexists.
Qed.

(** *** [generatePipeline] on the store, with every stage it sends cached *)

Lemma step_at_cached state index results l i h s ss :
  objs h !! l = Some s ->
  (i <= index -> isEnabled s = true -> is_Some (executor s)) ->
  step_at state index results (Some l) i h
  = (h, Normal (generatePipeline_step generateStage (view_of state ss) index
                  results s i)).
Proof.
  intros Hl Hcached. unfold generatePipeline_step_at, generatePipeline_step.
  destruct (Z.leb_spec i index) as [Hle | Hgt]; [|done].
  erewrite bind_Normal; [|by apply readObject_ok]. cbn [andb].
  destruct (isEnabled s) eqn:Hen; [|done].
  destruct (Hcached Hle eq_refl) as [e He]. rewrite He.
  by erewrite bind_Normal.
Qed.

Lemma reduce_at_cached state index h ss0 : forall elems ss from results,
  Forall2 (fun x s => deref h x = Some s) elems ss ->
  (forall (j : nat) s,
      ss !! j = Some s -> from + Z.of_nat j <= index -> isEnabled s = true ->
      is_Some (executor s)) ->
  reduceJs_from (step_at state index) from elems results h
  = (h, Normal (reduce_from
                  (generatePipeline_step generateStage (view_of state ss0) index)
                  from ss results)).
Proof.
  induction elems as [|x elems IH]; intros ss from results Hall Hcached.
  { by apply Forall2_nil_inv_l in Hall as ->. }
  apply Forall2_cons_inv_l in Hall as (s & ss' & (l & -> & Hl)%deref_Some & Hall & ->).
  cbn [reduceJs_from reduce_from].
  erewrite bind_Normal.
  2:{ apply (step_at_cached _ _ _ _ _ _ s ss0); [done|].
      intros Hle Hen. apply (Hcached 0%nat s eq_refl); [lia | done]. }
  apply IH; [done|]. intros j sj Hj Hle Hen.
  apply (Hcached (S j) sj Hj); [lia | done].
Qed.

Lemma generatePipeline_at_cached state index h ss :
  snapshot h (pipeline state) = Some ss ->
  cached ss index ->
  generatePipeline_at generateStage generateStage_writes state index h
  = (h, generatePipeline generateStage (view_of state ss) index).
Proof.
  intros (elems & Ha & Hall)%snapshot_Some Hcached.
  unfold generatePipeline_at, generatePipeline, reduce.
  erewrite bind_Normal; [|by apply readArray_ok].
  erewrite bind_Normal.
  2:{ apply (reduce_at_cached _ _ _ ss _ ss 0 [] Hall).
      intros j s Hj Hle Hen. apply (Hcached j s Hj); [lia | done]. }
  cbn [pipeline view_of].
  destruct (reduce_from _ 0 ss []) as [|entry stages] eqn:Hred; [done|].
  assert (Hcase : ss = [] \/ exists ss' s, ss = ss' ++ [s])
    by (clear; induction ss using rev_ind; eauto).
  destruct Hcase as [-> | (ss' & s & ->)]; [done|].
  apply Forall2_app_inv_r in Hall as (elems' & last' & Hall' & Hlast & ->).
  apply Forall2_cons_inv_r in Hlast
    as (x & rest & (l & -> & Hl)%deref_Some & ->%Forall2_nil_inv_r & ->).
  rewrite last_snoc.
  erewrite bind_Normal.
  2:{ unfold getElem. erewrite bind_Normal; [|by apply readArray_ok].
      reflexivity. }
  assert (Hget : JsArray.get (elems' ++ [Some l])
                   (Z.of_nat (length (elems' ++ [Some l])) - 1) = Some l).
  { unfold JsArray.get. rewrite length_app. cbn [length].
    destruct (Z.leb_spec 0 (Z.of_nat (length elems' + 1) - 1)); [|lia].
    replace (Z.to_nat (Z.of_nat (length elems' + 1) - 1)) with (length elems')
      by lia.
    by rewrite list_lookup_middle. }
  rewrite Hget.
  erewrite bind_Normal; [|by apply readObject_ok].
  by destruct (_ && _).
Qed.

(** *** [executeStage] *)

Lemma options_of_collation (c : option Collation) :
  (if isEmpty c then None else c)
  = match c with Some (field :: fields) => Some (field :: fields) | _ => None end.
Proof.
  destruct c as [[|field fields]|]; [| |done].
  - unfold isEmpty. by rewrite bool_decide_true.
  - unfold isEmpty. by rewrite bool_decide_false.
Qed.

Lemma executeStage_effect ns state index w elems :
  arrs (heap w) !! pipeline state = Some elems ->
  live (heap w) elems ->
  exists h' out,
    executeStage generateStage generateStage_writes ns state index w
    = ({| heap := h';
          dispatched := dispatched w ++ [Dispatch (loadingStageResults index)];
          calls := calls w ++ [call_of ns state index out] |},
       Normal tt)
    /\ arrs h' = arrs (heap w)
    /\ length (objs h') = length (objs (heap w))
    /\ keeps_cached (heap w) h'
    /\ (forall l',
          (forall k : nat, elems !! k = Some (Some l') -> index < Z.of_nat k) ->
          objs h' !! l' = objs (heap w) !! l').
Proof.
  intros Ha Hlive.
  destruct (generatePipeline_at_effect state index (heap w) elems Ha Hlive)
    as (h' & out & Hgen & Hfacts).
  exists h', out. split; [|exact Hfacts]. unfold executeStage.
  erewrite bind_Normal; [|reflexivity].
  erewrite bind_Normal; [|by apply liftJs_run].
  unfold aggregate, call_of. cbn. by rewrite options_of_collation.
Qed.

Lemma executeStage_cached ns state index w ss :
  snapshot (heap w) (pipeline state) = Some ss ->
  cached ss index ->
  exists out,
    generatePipeline generateStage (view_of state ss) index = Normal out
    /\ executeStage generateStage generateStage_writes ns state index w
       = ({| heap := heap w;
             dispatched := dispatched w ++ [Dispatch (loadingStageResults index)];
             calls := calls w ++ [call_of ns state index out] |},
          Normal tt).
Proof.
  intros Hss Hcached.
  destruct (generatePipeline_returns generateStage (view_of state ss) index)
    as [out Hout].
  exists out. split; [done|]. unfold executeStage.
  erewrite bind_Normal; [|reflexivity].
  erewrite bind_Normal.
  2:{ apply liftJs_run. cbn [heap].
      by rewrite (generatePipeline_at_cached _ _ _ ss), Hout. }
  unfold aggregate, call_of. cbn. by rewrite options_of_collation.
Qed.

(** *** [executeAggregation] *)

Lemma executeAggregation_start ns state i w elems l s :
  arrs (heap w) !! pipeline state = Some elems ->
  0 <= i -> elems !! Z.to_nat i = Some (Some l) ->
  objs (heap w) !! l = Some s ->
  executeAggregation generateStage generateStage_writes ns state i w
  = (if runnable (after s)
     then executeStage generateStage generateStage_writes ns state i
     else dispatch (Dispatch (stagePreviewUpdated [] i None (Some false))))
      {| heap := {| objs := <[l := after s]> (objs (heap w));
                    arrs := arrs (heap w) |};
         dispatched := dispatched w; calls := calls w |}.
Proof.
  intros Ha Hi Hx Hl. unfold executeAggregation.
  erewrite bind_Normal.
  2:{ apply liftJs_pure. unfold getElem.
      erewrite bind_Normal; [|by apply readArray_ok]. reflexivity. }
  assert (Hget : JsArray.get elems i = Some l).
  { unfold JsArray.get. destruct (Z.leb_spec 0 i); [|lia]. by rewrite Hx. }
  rewrite Hget.
  erewrite bind_Normal; [|by apply liftJs_run, generateStage_at_effect].
  erewrite bind_Normal.
  2:{ apply liftJs_run. cbn [heap]. unfold updateObject. cbn [objs arrs].
      rewrite list_lookup_insert_eq by eauto using lookup_lt_Some.
      rewrite list_insert_insert_eq. reflexivity. }
  erewrite bind_Normal.
  2:{ apply liftJs_pure. cbn [heap]. apply readObject_ok. cbn [objs].
      apply list_lookup_insert_eq. eauto using lookup_lt_Some. }
  reflexivity.
Qed.

Lemma executeAggregation_effect ns state i w elems l s :
  arrs (heap w) !! pipeline state = Some elems ->
  live (heap w) elems ->
  0 <= i -> elems !! Z.to_nat i = Some (Some l) ->
  objs (heap w) !! l = Some s ->
  exists w' out,
    executeAggregation generateStage generateStage_writes ns state i w
    = (w', Normal tt)
    /\ dispatched w' = dispatched w ++ [announced (after s) i]
    /\ calls w'
       = calls w ++ (if runnable (after s) then [call_of ns state i out] else [])
    /\ arrs (heap w') = arrs (heap w)
    /\ length (objs (heap w')) = length (objs (heap w))
    /\ objs (heap w') !! l = Some (after s)
    /\ (forall l' s',
          l' ≠ l -> objs (heap w) !! l' = Some s' -> is_Some (executor s') ->
          objs (heap w') !! l' = Some s')
    /\ (forall l',
          (forall k : nat, elems !! k = Some (Some l') -> i < Z.of_nat k) ->
          objs (heap w') !! l' = objs (heap w) !! l').
Proof.
  intros Ha Hlive Hi Hx Hl.
  rewrite (executeAggregation_start ns state i w elems l s Ha Hi Hx Hl).
  set (h1 := {| objs := <[l := after s]> (objs (heap w)); arrs := arrs (heap w) |}).
  set (w1 := {| heap := h1; dispatched := dispatched w; calls := calls w |}).
  assert (Hlt : (l < length (objs (heap w)))%nat) by eauto using lookup_lt_Some.
  assert (Hl1 : objs h1 !! l = Some (after s))
    by (by apply list_lookup_insert_eq).
  assert (Hne1 : forall l', l' ≠ l -> objs h1 !! l' = objs (heap w) !! l').
  { intros l' Hne. cbn. by rewrite list_lookup_insert_ne. }
  assert (Hbeyond1 : forall l',
             (forall k : nat, elems !! k = Some (Some l') -> i < Z.of_nat k) ->
             objs h1 !! l' = objs (heap w) !! l').
  { intros l' Hbeyond. apply Hne1. intros ->.
    specialize (Hbeyond _ Hx). lia. }
  unfold announced. destruct (runnable (after s)).
  - assert (Hlive1 : live h1 elems).
    { apply (live_same_length (heap w)); [|done]. cbn. by rewrite length_insert. }
    destruct (executeStage_effect ns state i w1 elems Ha Hlive1)
      as (h2 & out & Hrun & Ha2 & Hlen2 & Hkeep2 & Hrest2).
    eexists _, out. split; [exact Hrun|]. cbn.
    split; [done|]. split; [done|]. split; [done|].
    split; [by rewrite Hlen2; cbn; rewrite length_insert|].
    split; [by apply Hkeep2|]. split.
    + intros l' s' Hne Hl' He. apply Hkeep2; [|done]. by rewrite Hne1.
    + intros l' Hbeyond. by rewrite Hrest2, Hbeyond1.
  - eexists _, []. split; [reflexivity|]. cbn.
    split; [done|]. split; [by rewrite app_nil_r|]. split; [done|].
    split; [by rewrite length_insert|]. split; [done|]. split.
    + intros l' s' Hne Hl' He. by rewrite Hne1.
    + intros l' Hbeyond. by apply Hbeyond1.
Qed.

(** *** From the objects of the store to the stages of the pipeline *)

Lemma snapshot_objects h a elems ss :
  arrs h !! a = Some elems -> snapshot h a = Some ss ->
  length ss = length elems
  /\ forall (k : nat) l, elems !! k = Some (Some l) -> ss !! k = objs h !! l.
Proof.
  intros Ha (elems' & Ha' & Hall)%snapshot_Some.
  assert (elems' = elems) as -> by congruence.
  split; [by rewrite (Forall2_length _ _ _ Hall)|].
  intros k l Hk.
  by destruct (Forall2_lookup_l _ _ _ _ _ Hall Hk) as (s & -> & (l' & [= <-] & ->)%deref_Some).
Qed.

Lemma drop_after_lookup {A} (l1 l2 : list A) (n : nat) :
  length l1 = length l2 ->
  (forall k : nat, (n <= k)%nat -> l1 !! k = l2 !! k) ->
  drop n l1 = drop n l2.
Proof.
  intros Hlen Hk. apply list_eq. intros k. rewrite !lookup_drop.
  apply Hk. lia.
Qed.

(** *** [executeAggregation] on a pipeline of distinct stage objects *)

Lemma executeAggregation_stages ns state i w elems ss s :
  arrs (heap w) !! pipeline state = Some elems ->
  NoDup elems ->
  snapshot (heap w) (pipeline state) = Some ss ->
  0 <= i -> ss !! Z.to_nat i = Some s ->
  exists w' ss' out,
    executeAggregation generateStage generateStage_writes ns state i w
    = (w', Normal tt)
    /\ arrs (heap w') !! pipeline state = Some elems
    /\ snapshot (heap w') (pipeline state) = Some ss'
    /\ length ss' = length ss
    /\ ss' !! Z.to_nat i = Some (after s)
    /\ (forall k : nat, (Z.to_nat i < k)%nat -> ss' !! k = ss !! k)
    /\ (forall (k : nat) sk,
          k ≠ Z.to_nat i -> ss !! k = Some sk -> is_Some (executor sk) ->
          ss' !! k = Some sk)
    /\ dispatched w' = dispatched w ++ [announced (after s) i]
    /\ calls w'
       = calls w ++ (if runnable (after s) then [call_of ns state i out] else []).
Proof.
  intros Ha Hdistinct Hss Hi Hs.
  destruct (snapshot_lookup _ _ _ _ _ Hss Hs) as (elems' & l & Ha' & Hx & Hl).
  assert (elems' = elems) as -> by congruence.
  pose proof (snapshot_live _ _ _ _ Ha Hss) as Hlive.
  destruct (snapshot_objects _ _ _ _ Ha Hss) as [Hlen Hobjs].
  destruct (executeAggregation_effect ns state i w elems l s Ha Hlive Hi Hx Hl)
    as (w' & out & Hrun & Hd & Hc & Ha1 & Hlen1 & Hl1 & Hkeep & Hrest).
  assert (Ha1' : arrs (heap w') !! pipeline state = Some elems) by by rewrite Ha1.
  destruct (live_snapshot (heap w') (pipeline state) elems Ha1'
              (live_same_length _ _ _ Hlen1 Hlive)) as [ss' Hss'].
  destruct (snapshot_objects _ _ _ _ Ha1' Hss') as [Hlen' Hobjs'].
  exists w', ss', out. split; [done|]. split; [done|]. split; [done|].
  split; [congruence|]. split; [by rewrite (Hobjs' _ _ Hx)|]. split; [|split].
  - intros k Hk. destruct (elems !! k) as [[lk|]|] eqn:Hek.
    + rewrite (Hobjs' _ _ Hek), (Hobjs _ _ Hek). apply Hrest.
      intros k' Hk'. assert (k' = k) as -> by by eapply NoDup_lookup. lia.
    + apply Forall_lookup with (i := k) (x := None) in Hlive; [|done].
      by destruct Hlive as (? & ? & _).
    + apply lookup_ge_None in Hek.
      rewrite !lookup_ge_None_2; [done | lia..].
  - intros k sk Hne Hk He.
    destruct (snapshot_lookup _ _ _ _ _ Hss Hk) as (elems' & lk & Ha'' & Hek & Hlk).
    assert (elems' = elems) as -> by congruence.
    rewrite (Hobjs' _ _ Hek). apply Hkeep; [|done..].
    intros ->. apply Hne. by eapply NoDup_lookup.
  - done.
Qed.

Lemma cached_after ss (i : Z) s :
  0 <= i -> cached ss (i - 1) ->
  cached (<[Z.to_nat i := after s]> ss) i.
Proof.
  intros Hi Hcached j sj Hj Hle Hen.
  destruct (decide (j = Z.to_nat i)) as [-> | Hne].
  - apply list_lookup_insert_Some in Hj as [(_ & <- & _) | [? _]]; [|done].
    by eexists.
  - rewrite list_lookup_insert_ne in Hj by done.
    apply (Hcached j sj Hj); [lia | done].
Qed.


(** *** [runStage] *)

(** The loop of [runStage], from the index [i] on, over a pipeline of
    distinct stage objects whose last [m] stages are left to run. *)
Lemma forEach_executeAggregation ns state elems :
  NoDup elems ->
  forall (m : nat) i w ss,
    arrs (heap w) !! pipeline state = Some elems ->
    snapshot (heap w) (pipeline state) = Some ss ->
    0 <= i ->
    Z.of_nat (length ss) = i + Z.of_nat m ->
    exists w' ss' cs,
      forEach (executeAggregation generateStage generateStage_writes ns state)
        (seqZ i (Z.of_nat m)) w
      = (w', Normal tt)
      /\ arrs (heap w') !! pipeline state = Some elems
      /\ snapshot (heap w') (pipeline state) = Some ss'
      /\ length ss' = length ss
      /\ drop (Z.to_nat i) ss' = after <$> drop (Z.to_nat i) ss
      /\ (forall (k : nat) sk,
            (k < Z.to_nat i)%nat -> ss !! k = Some sk -> is_Some (executor sk) ->
            ss' !! k = Some sk)
      /\ dispatched w'
         = dispatched w ++ announced_from i (after <$> drop (Z.to_nat i) ss)
      /\ calls w' = calls w ++ cs
      /\ call_index <$> cs = runnable_from i (after <$> drop (Z.to_nat i) ss)
      /\ Forall (fun c => call_ns c = ns /\ call_state c = state) cs.
Proof.
  intros Hdistinct. induction m as [|m IH]; intros i w ss Ha Hss Hi Hlen.
  - exists w, ss, []. rewrite drop_ge by lia. cbn.
    rewrite !app_nil_r. by repeat (split; [done|]).
  - rewrite seqZ_cons by lia.
    replace (Z.pred (Z.of_nat (S m))) with (Z.of_nat m) by lia.
    assert (Hlt : (Z.to_nat i < length ss)%nat) by lia.
    destruct (lookup_lt_is_Some_2 _ _ Hlt) as [s Hs].
    destruct (executeAggregation_stages ns state i w elems ss s
                Ha Hdistinct Hss Hi Hs)
      as (w1 & ss1 & out & Hrun & Ha1 & Hss1 & Hlen1 & Hs1 & Hrest1 & Hkeep1
          & Hd1 & Hc1).
    destruct (IH (Z.succ i) w1 ss1 Ha1 Hss1) as
      (w' & ss' & cs & Hrest & Ha' & Hss' & Hlen' & Hdrop & Hkeep & Hd' & Hc'
       & Hidx & Hall); [lia | lia |].
    replace (Z.to_nat (Z.succ i)) with (S (Z.to_nat i)) in * by lia.
    assert (Hdrop1 : drop (S (Z.to_nat i)) ss1 = drop (S (Z.to_nat i)) ss).
    { apply drop_after_lookup; [done|]. intros k Hk. apply Hrest1. lia. }
    rewrite Hdrop1 in Hdrop, Hd', Hidx.
    assert (Hsi : ss' !! Z.to_nat i = Some (after s)).
    { apply Hkeep; [lia | done | by eexists]. }
    exists w', ss'. eexists. split.
    { cbn [forEach]. erewrite bind_Normal; [|exact Hrun]. exact Hrest. }
    split; [done|]. split; [done|]. split; [congruence|].
    rewrite (drop_S _ _ _ Hs). cbn [fmap list_fmap announced_from runnable_from].
    split; [by rewrite (drop_S _ _ _ Hsi), Hdrop|]. split.
    { intros k sk Hk Hsk He. apply Hkeep; [lia | | done].
      apply Hkeep1; [lia | done..]. }
    split; [by rewrite Hd', Hd1, <- app_assoc|].
    split; [by rewrite Hc', Hc1, <- app_assoc|].
    rewrite fmap_app, Hidx. split.
    + f_equal. by destruct (runnable (after s)).
    + apply Forall_app. split; [|done].
      destruct (runnable (after s)); by repeat constructor.
Qed.


(** X16. [runStage] from a negative index, over a pipeline of stage
    objects, throws a [TypeError] at its first step, the read of a stage
    that is not there: nothing is dispatched, the driver is not called and
    the store is as it was. *)
Theorem runStage_negative_index_throws index state w ss :
  snapshot (heap w) (pipeline state) = Some ss ->
  index < 0 ->
  runStage generateStage generateStage_writes index state w
  = (w, Threw TypeError).
Proof.
  intros (elems & Ha & _)%snapshot_Some Hi. unfold runStage.
  erewrite bind_Normal; [|by apply liftJs_pure, readArray_ok].
  rewrite seqZ_cons by lia. cbn [forEach].
  erewrite bind_Threw; [done|]. unfold executeAggregation.
  erewrite bind_Normal.
  2:{ apply liftJs_pure. unfold getElem.
      erewrite bind_Normal; [|by apply readArray_ok]. reflexivity. }
  unfold JsArray.get. by destruct (Z.leb_spec 0 index); [lia|].
Qed.


End ExecutionEffects.

(** ** What a reply of the driver does to the pipeline *)

Section ReplyEffects.

Variable STAGE_OPERATORS : list Operator.t.
Variable EMPTY_STAGE_id : string.
Variable env : Env.

Local Abbreviation run := (reducer STAGE_OPERATORS EMPTY_STAGE_id env).

Lemma updateStagePreview_effect h state ss i s documents error isComplete :
  snapshot h state = Some ss ->
  0 <= i -> ss !! Z.to_nat i = Some s ->
  yields (run state (stagePreviewUpdated documents i error isComplete)) h
    (<[Z.to_nat i :=
         set_isComplete isComplete
           (set_isLoading false
              (set_error (match error with
                          | ErrorValue (Some e) => Some (message e)
                          | _ => None
                          end)
                 (set_previewDocuments
                    (match error with
                     | ErrorValue None => documents
                     | _ => []
                     end)
                    s)))]> ss).
Proof.
  intros Hss Hi Hs. apply yields_copied. unfold reducer. cbn [action_type].
  change (MAPPINGS STAGE_OPERATORS EMPTY_STAGE_id !! STAGE_PREVIEW_UPDATED)
    with (Some (fun _ : Env => updateStagePreview)).
  by apply updateStagePreview_ok.
Qed.



End ReplyEffects.

(** ** The saved items in their store *)

Section SavedItemsEffects.

Variable toNS : string -> SavedItems.NS.

(** X20. Whatever the two storage reads do and whatever the store holds,
    reducing what [fetchItems] dispatches ends the loading and replaces the
    items of the store by the payload: the items held before are dropped,
    also when both reads were rejected.  The payload has one item for every
    aggregation read, in their order and with their ids, each of type
    aggregation, followed by one item for every query read, in their order
    and with their ids, each of type query. *)
Theorem fetched_items_replace_the_items_of_the_store a q st :
  exists payload,
    SavedItems.fetchItems toNS a q
    = ([SavedItems.ITEMS_FETCHED payload], SavedItems.fulfilled tt)
    /\ foldl SavedItems.reducer st (SavedItems.fetchItems toNS a q).1
       = {| SavedItems.loading := false; SavedItems.items := payload |}
    /\ SavedItems.Item.id <$> payload
       = (SavedItems.Aggregation.id <$> SavedItems.settled_value a)
         ++ (SavedItems.Query._id <$> SavedItems.settled_value q)
    /\ SavedItems.Item.type <$> payload
       = replicate (length (SavedItems.settled_value a)) SavedItems.type_aggregation
         ++ replicate (length (SavedItems.settled_value q)) SavedItems.type_query.
Proof.
  eexists. split; [reflexivity|]. split; [reflexivity|].
  assert (Hid : forall l, SavedItems.Item.id <$> (SavedItems.aggregationItem toNS <$> l)
                          = SavedItems.Aggregation.id <$> l)
    by (intros l; by rewrite <- list_fmap_compose).
  assert (Hqid : forall l, SavedItems.Item.id <$> (SavedItems.queryItem toNS <$> l)
                           = SavedItems.Query._id <$> l)
    by (intros l; by rewrite <- list_fmap_compose).
  assert (Hty : forall l, SavedItems.Item.type <$> (SavedItems.aggregationItem toNS <$> l)
                          = replicate (length l) SavedItems.type_aggregation)
    by (intros l; induction l; cbn; by f_equal).
  assert (Hqty : forall l, SavedItems.Item.type <$> (SavedItems.queryItem toNS <$> l)
                           = replicate (length l) SavedItems.type_query)
    by (intros l; induction l; cbn; by f_equal).
  destruct a as [aggs|?], q as [queries|?]; cbn;
    rewrite ?app_nil_r, ?fmap_app, ?Hid, ?Hqid, ?Hty, ?Hqty; by split.
Qed.

End SavedItemsEffects.

(** ** The output collection *)

Section OutResults.

Variable toNS_database : string -> string.

Lemma remove_quotes_app (a b : string) :
  remove_quotes (a +:+ b) = (remove_quotes a +:+ remove_quotes b)%string.
Proof.
  induction a as [|c a IH]; [done|].
  change (String c a +:+ b)%string with (String c (a +:+ b)).
  cbn [remove_quotes]. rewrite IH. by destruct (bool_decide (c = QUOTE)).
Qed.

Lemma remove_quotes_no_quote (s : string) :
  ~ In QUOTE (String.list_ascii_of_string (remove_quotes s)).
Proof.
  induction s as [|c s IH]; cbn; [tauto|].
  destruct (bool_decide_reflect (c = QUOTE)) as [->|Hc]; [done|].
  cbn. intros [Heq | Hin]; [by apply Hc | by apply IH].
Qed.

Lemma remove_quotes_id (s : string) :
  ~ In QUOTE (String.list_ascii_of_string s) -> remove_quotes s = s.
Proof.
  induction s as [|c s IH]; cbn; [done|].
  intros Hno. destruct (bool_decide_reflect (c = QUOTE)) as [->|Hc].
  - exfalso. apply Hno. by left.
  - f_equal. apply IH. intros Hin. apply Hno. by right.
Qed.

(** X21. [gotoOutResults] emits [show-agg-pipeline-out-results] with the
    database of the current namespace, a dot, and the collection name with
    every double quote removed, not only enclosing ones: the part after the
    dot holds no double quote; a name without double quotes is passed as it
    is; and such a name written between double quotes is passed without
    them. *)
Theorem gotoOutResults_removes_every_quote collection namespace :
  exists name,
    gotoOutResults toNS_database collection namespace
    = ("show-agg-pipeline-out-results"%string,
       (toNS_database namespace +:+ "." +:+ name)%string)
    /\ ~ In QUOTE (String.list_ascii_of_string name)
    /\ (~ In QUOTE (String.list_ascii_of_string collection) -> name = collection)
    /\ (forall bare,
          ~ In QUOTE (String.list_ascii_of_string bare) ->
          collection = String QUOTE (bare +:+ String QUOTE EmptyString) ->
          name = bare).
Proof.
  exists (remove_quotes collection). split; [done|].
  split; [apply remove_quotes_no_quote|].
  split; [apply remove_quotes_id|].
  intros bare Hbare ->. cbn [remove_quotes]. rewrite bool_decide_true by done.
  rewrite remove_quotes_app, (remove_quotes_id bare Hbare). cbn [remove_quotes].
  rewrite bool_decide_true by done.
  clear. induction bare as [|c bare IH]; [done|].
  change (String c bare +:+ "")%string with (String c (bare +:+ "")).
  by f_equal.
Qed.

End OutResults.

(** ** The legacy drop target *)

Section HoverEffects.

Variable num : Type.
Variable minus : num -> num -> num.
Variable half : num -> num.
Variable lt : num -> num -> bool.

Local Abbreviation hover := (SortableStageContainer.hover num minus half lt).

(** X22. Whatever the numbers of the browser are, [hover] calls
    [props.onMove] at most once.  When it does, the dragged item was not at
    the hovered index, the call is [onMove(fromIndex, toIndex)], and the
    item is given the hovered index and keeps its operator.  When it does
    not, the item is as it was.  Hovering over the item's own index never
    moves, so that a second [hover] at the same index after a move does
    nothing, wherever the pointer is. *)
Theorem hover_moves_at_most_once props_index item rect y :
  let '(item', moves) := hover props_index item rect y in
  ((moves = [] /\ item' = item)
   \/ (SortableStageContainer.index item ≠ props_index
       /\ moves = [(SortableStageContainer.index item, props_index)]
       /\ SortableStageContainer.index item' = props_index
       /\ SortableStageContainer.stageOperator item'
          = SortableStageContainer.stageOperator item))
  /\ (SortableStageContainer.index item = props_index -> moves = [])
  /\ (moves ≠ [] ->
      forall rect' y', hover props_index item' rect' y' = (item', [])).
Proof.
  unfold SortableStageContainer.hover.
  destruct (bool_decide_reflect (SortableStageContainer.index item ≠ props_index))
    as [Hne|Heq].
  - destruct (_ && _); [by repeat split; [left|..]|].
    destruct (_ && _); [by repeat split; [left|..]|].
    split; [by right|]. split; [done|]. intros _ rect' y'. cbn.
    by rewrite bool_decide_false by (intros H; by apply H).
  - by repeat split; [left|..].
Qed.

End HoverEffects.

(** ** The layout of the workspace *)

Section RenderEffects.

Variable Id : Type.

Local Abbreviation Element := (Workspace.Element Id).

(** The stages as [render] lays them out, from the index [from] on, when
    the pipeline has [n] stages. *)
Lemma stages_layout (n : Z) (arr : list Id) : forall from,
  n = from + Z.of_nat (length arr) ->
  arr ≠ [] ->
  Workspace.AddStageIcon (from - 1)
  :: concat
       (Workspace.map_from
          (fun id index =>
             Workspace.SortableStage Id id index (bool_decide (index = n - 1)) index)
          from arr)
  = concat
      (Workspace.map_from
         (fun id index =>
            [Workspace.AddStageIcon (index - 1); Workspace.Stage id index])
         from arr).
Proof.
  induction arr as [|x arr IH]; intros from Hn Hne; [done|].
  cbn [Workspace.map_from concat]. unfold Workspace.SortableStage at 1.
  cbn [app]. do 2 f_equal.
  destruct arr as [|x' arr].
  - cbn. rewrite bool_decide_true by (cbn in Hn; lia). done.
  - rewrite bool_decide_false by (cbn in Hn; lia). cbn [negb app].
    replace from with (from + 1 - 1) at 1 by lia.
    apply IH; [cbn in *; lia | done].
Qed.

(** X23. [render] lays the workspace out as the banner of the edited view
    if there is one, the input documents, then for every stage, in order and
    with its position as index, an icon that adds a stage after the position
    before it ([-1] for the first stage) followed by the stage itself, and
    last the button that adds a stage.  So every stage is directly preceded by
    an icon, no icon follows the last stage, and an empty pipeline shows no
    icon at all. *)
Theorem render_puts_an_icon_before_every_stage stageIds editViewName :
  Workspace.render Id stageIds editViewName
  = (match editViewName with
     | Some name =>
         if bool_decide (name ≠ ""%string) then [Workspace.ModifySourceBanner name]
         else []
     | None => []
     end)
    ++ [Workspace.PipelineBuilderInputDocuments]
    ++ concat
         (Workspace.map_from
            (fun id index =>
               [Workspace.AddStageIcon (index - 1); Workspace.Stage id index])
            0 stageIds)
    ++ [Workspace.AddStageButton].
Proof.
  unfold Workspace.render. do 2 f_equal.
  destruct stageIds as [|x arr] eqn:Hids; [done|].
  rewrite bool_decide_true by done. rewrite <- Hids.
  rewrite app_assoc. f_equal.
  change [Workspace.AddStageIcon (-1)] with [@Workspace.AddStageIcon Id (0 - 1)].
  cbn [app]. apply stages_layout; [lia | by rewrite Hids].
Qed.

End RenderEffects.

(** ** Actions in sequence *)

Section Sequences.

Variable STAGE_OPERATORS : list Operator.t.
Variable EMPTY_STAGE_id : string.
Variable env : Env.

Local Abbreviation run := (reducer STAGE_OPERATORS EMPTY_STAGE_id env).

Lemma yields_run (m : Js loc) h ss' :
  yields m h ss' ->
  exists h' state', m h = (h', Normal state') /\ snapshot h' state' = Some ss'.
Proof. intros (h' & state' & Hrun & _ & Hsnap). by exists h', state'. Qed.

Lemma take_drop_inserted {A} (l : list A) (k : nat) x :
  (k <= length l)%nat ->
  take k (take k l ++ x :: drop k l) ++ drop (S k) (take k l ++ x :: drop k l) = l.
Proof.
  intros Hk.
  rewrite take_app_length' by (rewrite length_take; lia).
  rewrite (cons_middle x), app_assoc.
  rewrite drop_app_length'
    by (rewrite length_app, length_take; cbn [length]; lia).
  apply take_drop.
Qed.

(** X24. Adding a stage after the index [index] and then deleting the stage
    at [index + 1] gives back the pipeline, when [index] is [-1] or a
    position of the pipeline.  (After a larger index the stage is added at
    the end, where [index + 1] does not find it.) *)
Theorem AddAfterStage_then_deleteStage_restores h state ss index :
  snapshot h state = Some ss ->
  -1 <= index < Z.of_nat (length ss) ->
  exists h1 state1 h2 state2,
    run state (stageAddedAfter index) h = (h1, Normal state1)
    /\ run state1 (stageDeleted (index + 1)) h1 = (h2, Normal state2)
    /\ snapshot h2 state2 = Some ss.
Proof.
  intros Hss Hi.
  destruct (yields_run _ _ _
              (AddAfterStage_effect STAGE_OPERATORS EMPTY_STAGE_id env h state ss
                 index Hss))
    as (h1 & state1 & Hrun1 & Hss1).
  destruct (yields_run _ _ _
              (deleteStage_effect STAGE_OPERATORS EMPTY_STAGE_id env h1 state1 _
                 (index + 1) Hss1))
    as (h2 & state2 & Hrun2 & Hss2).
  exists h1, state1, h2, state2. split; [done|]. split; [done|].
  rewrite Hss2. f_equal.
  set (k := JsArray.relative_start (length ss) (index + 1)).
  assert (Hk : (k <= length ss)%nat) by apply relative_start_le.
  assert (Hk' : k = Z.to_nat (index + 1)).
  { unfold k, JsArray.relative_start.
    destruct (Z.ltb_spec (index + 1) 0); [lia|]. f_equal. lia. }
  rewrite relative_start_valid.
  - rewrite <- Hk'. by apply take_drop_inserted.
  - rewrite length_app, length_take. cbn [length]. rewrite length_drop. lia.
Qed.

(** X25. A stage that is told to load and then gets its preview reads as if
    it had got the preview alone: the loading flag of the first action
    leaves no trace in the pipeline. *)
Theorem loading_then_preview_reads_as_preview
    h state ss i s documents error isComplete :
  snapshot h state = Some ss ->
  0 <= i -> ss !! Z.to_nat i = Some s ->
  exists h1 state1 ss',
    run state (loadingStageResults i) h = (h1, Normal state1)
    /\ snapshot h1 state1 = Some (<[Z.to_nat i := set_isLoading true s]> ss)
    /\ yields (run state1 (stagePreviewUpdated documents i error isComplete)) h1 ss'
    /\ yields (run state (stagePreviewUpdated documents i error isComplete)) h ss'
    /\ (forall s', ss' !! Z.to_nat i = Some s' -> isLoading s' = false).
Proof.
  intros Hss Hi Hs.
  assert (Hlt : (Z.to_nat i < length ss)%nat) by eauto using lookup_lt_Some.
  pose proof (stageResultsLoading_effect STAGE_OPERATORS EMPTY_STAGE_id env
                h state ss i s Hss Hi Hs) as Hrun1.
  pose proof (yields_snapshot _ _ _ _ _ (yields_copied _ _ _ Hrun1) Hrun1) as Hss1.
  assert (Hs1 : <[Z.to_nat i := set_isLoading true s]> ss !! Z.to_nat i
                = Some (set_isLoading true s))
    by (by apply list_lookup_insert_eq).
  pose proof (updateStagePreview_effect STAGE_OPERATORS EMPTY_STAGE_id env
                _ _ _ i _ documents error isComplete Hss1 Hi Hs1) as Hy1.
  pose proof (updateStagePreview_effect STAGE_OPERATORS EMPTY_STAGE_id env
                _ _ _ i _ documents error isComplete Hss Hi Hs) as Hy.
  rewrite list_insert_insert_eq in Hy1.
  do 3 eexists. split; [exact Hrun1|]. split; [exact Hss1|].
  split; [exact Hy1|]. split; [exact Hy|].
  intros s'. rewrite list_lookup_insert_eq by done. by intros [= <-].
Qed.

End Sequences.

(** ** An index past the end of the pipeline *)

Section PastEnd.

Variable generateStage : Stage -> Exec.
Variable generateStageAsString : Stage -> string.
Variable state : State (list Stage).

Lemma reduce_from_same_tests index index' (arr : list Stage) :
  forall from results,
    (forall i : nat, (i < length arr)%nat ->
       (from + Z.of_nat i <=? index) = (from + Z.of_nat i <=? index')) ->
    reduce_from (generatePipeline_step generateStage state index) from arr results
    = reduce_from (generatePipeline_step generateStage state index') from arr results.
Proof.
  induction arr as [|stage arr IH]; intros from results Hsame; [done|].
  cbn [reduce_from].
  assert (Hstep : generatePipeline_step generateStage state index results stage from
                  = generatePipeline_step generateStage state index' results stage from).
  { unfold generatePipeline_step.
    pose proof (Hsame 0%nat ltac:(cbn; lia)) as H0.
    rewrite Z.add_0_r in H0. by rewrite H0. }
  rewrite Hstep. apply IH. intros i Hi.
  replace (from + 1 + Z.of_nat i) with (from + Z.of_nat (S i)) by lia.
  apply Hsame. cbn. lia.
Qed.

Lemma filter_from_same_tests {A} (p q : A -> Z -> bool) (arr : list A) :
  forall from,
    (forall (i : nat) x, arr !! i = Some x ->
       p x (from + Z.of_nat i) = q x (from + Z.of_nat i)) ->
    filter_from p from arr = filter_from q from arr.
Proof.
  induction arr as [|x arr IH]; intros from Hsame; [done|].
  cbn [filter_from].
  pose proof (Hsame 0%nat x eq_refl) as H0. rewrite Z.add_0_r in H0. rewrite H0.
  assert (Hrest : filter_from p (from + 1) arr = filter_from q (from + 1) arr).
  { apply IH. intros i y Hy.
    replace (from + 1 + Z.of_nat i) with (from + Z.of_nat (S i)) by lia.
    by apply Hsame. }
  by rewrite Hrest.
Qed.

(** X26. An index at or past the last position of the pipeline selects the
    whole pipeline: [generatePipeline] and [generatePipelineAsString] return
    for it what they return for the last position. *)
Theorem generatePipeline_index_past_end index :
  Z.of_nat (length (pipeline state)) - 1 <= index ->
  generatePipeline generateStage state index
  = generatePipeline generateStage state (Z.of_nat (length (pipeline state)) - 1)
  /\ generatePipelineAsString generateStageAsString state index
     = generatePipelineAsString generateStageAsString state
         (Z.of_nat (length (pipeline state)) - 1).
Proof.
  intros Hle. split.
  - unfold generatePipeline, reduce.
    rewrite (reduce_from_same_tests index (Z.of_nat (length (pipeline state)) - 1));
      [done|].
    intros i Hi. rewrite Z.add_0_l.
    destruct (Z.leb_spec (Z.of_nat i) index), (Z.leb_spec (Z.of_nat i)
      (Z.of_nat (length (pipeline state)) - 1)); (done || lia).
  - unfold generatePipelineAsString, filter_indexed. do 4 f_equal.
    apply filter_from_same_tests. intros i x Hx. rewrite Z.add_0_l.
    apply lookup_lt_Some in Hx. f_equal.
    destruct (Z.leb_spec (Z.of_nat i) index), (Z.leb_spec (Z.of_nat i)
      (Z.of_nat (length (pipeline state)) - 1)); (done || lia).
Qed.

End PastEnd.

(** ** The properties at the sample store *)



(** Changing the text of the second stage of the sample store. *)
Lemma changeStage_witness :
  snapshot Sample.store 0%nat = Some Sample.stages
  /\ 0 <= 1
  /\ Sample.stages !! Z.to_nat 1 = Some Sample.groupStage
  /\ exists s',
      yields (Sample.run 0%nat (stageChanged "{ _id: 2 }" 1)) Sample.store
        [Sample.matchStage; s']
      /\ stage s' = "{ _id: 2 }"%string
      /\ isComplete s' = Some false.
Proof.
  split; [reflexivity|]. split; [lia|]. split; [reflexivity|].
  destruct (changeStage_keeps_cached_executor Sample.operators "5f00" Sample.env
              Sample.store 0%nat Sample.stages 1 Sample.groupStage "{ _id: 2 }"
              Sample.compile eq_refl ltac:(lia) eq_refl)
    as (s' & Hy & Hst & Hc & _).
  exists s'. split; [exact Hy|]. split; [exact Hst | exact Hc].
Defined.

(** Toggling a sixth stage in the sample store, which has two. *)
Lemma dereferenced_index_out_of_range_witness :
  snapshot Sample.store 0%nat = Some Sample.stages
  /\ dereferenced (stageToggled 5) = Some 5
  /\ ~ valid_index Sample.stages 5
  /\ exists h',
      Sample.run 0%nat (stageToggled 5) Sample.store = (h', Threw TypeError)
      /\ snapshot h' 0%nat = Some Sample.stages.
Proof.
  assert (Hout : ~ valid_index Sample.stages 5) by (unfold valid_index; cbn; lia).
  split; [reflexivity|]. split; [reflexivity|]. split; [exact Hout|].
  destruct (dereferenced_index_out_of_range_throws Sample.operators "5f00"
              Sample.env Sample.store 0%nat Sample.stages (stageToggled 5) 5
              eq_refl eq_refl Hout)
    as (h' & Hrun & _ & Hsnap).
  exists h'. split; [exact Hrun | exact Hsnap].
Defined.

(** Deleting an eighth stage from the sample store. *)
Lemma deleteStage_index_out_of_range_witness :
  snapshot Sample.store 0%nat = Some Sample.stages
  /\ ~ valid_index Sample.stages 7
  /\ yields (Sample.run 0%nat (stageDeleted 7)) Sample.store Sample.stages.
Proof.
  assert (Hout : ~ valid_index Sample.stages 7) by (unfold valid_index; cbn; lia).
  split; [reflexivity|]. split; [exact Hout|].
  exact (deleteStage_index_out_of_range Sample.operators "5f00" Sample.env
           Sample.store 0%nat Sample.stages 7 eq_refl Hout).
Defined.

(** Moving the first stage of the sample store to the second place. *)
Lemma moveStage_moves_one_stage_witness :
  snapshot Sample.store 0%nat = Some Sample.stages
  /\ 0 ≠ 1
  /\ 0 <= 0
  /\ Sample.stages !! Z.to_nat 0 = Some Sample.matchStage
  /\ valid_index Sample.stages 1
  /\ exists ss',
      yields (Sample.run 0%nat (stageMoved 0 1)) Sample.store ss'
      /\ ss' !! 1%nat = Some Sample.matchStage
      /\ delete 1%nat ss' = [Sample.groupStage].
Proof.
  assert (Hin : valid_index Sample.stages 1) by (unfold valid_index; cbn; lia).
  split; [reflexivity|]. split; [lia|]. split; [lia|]. split; [reflexivity|].
  split; [exact Hin|].
  destruct (moveStage_moves_one_stage Sample.operators "5f00" Sample.env
              Sample.store 0%nat Sample.stages 0 1 Sample.matchStage
              eq_refl ltac:(lia) ltac:(lia) eq_refl Hin)
    as (ss' & Hy & Hx & Hd & _).
  exists ss'. split; [exact Hy|]. split; [exact Hx | exact Hd].
Defined.

(** Moving the first stage of the sample store down and up again. *)
Lemma moveStage_there_and_back_witness :
  snapshot Sample.store 0%nat = Some Sample.stages
  /\ 0 ≠ 1
  /\ valid_index Sample.stages 0
  /\ valid_index Sample.stages 1
  /\ exists h1 state1 h2 state2,
      Sample.run 0%nat (stageMoved 0 1) Sample.store = (h1, Normal state1)
      /\ Sample.run state1 (stageMoved 1 0) h1 = (h2, Normal state2)
      /\ snapshot h2 state2 = Some Sample.stages.
Proof.
  assert (H0 : valid_index Sample.stages 0) by (unfold valid_index; cbn; lia).
  assert (H1 : valid_index Sample.stages 1) by (unfold valid_index; cbn; lia).
  split; [reflexivity|]. split; [lia|]. split; [exact H0|]. split; [exact H1|].
  exact (moveStage_there_and_back Sample.operators "5f00" Sample.env
           Sample.store 0%nat Sample.stages 0 1 eq_refl ltac:(lia) H0 H1).
Defined.

(** Moving a sixth stage of the sample store to the front. *)
Lemma moveStage_from_past_end_witness :
  snapshot Sample.store 0%nat = Some Sample.stages
  /\ 5 ≠ 0
  /\ Z.of_nat (length Sample.stages) <= 5
  /\ exists h' state' elems,
      Sample.run 0%nat (stageMoved 5 0) Sample.store = (h', Normal state')
      /\ arrs h' !! state' = Some elems
      /\ length elems = 3%nat
      /\ elems !! 0%nat = Some None
      /\ snapshot h' state' = None.
Proof.
  split; [reflexivity|]. split; [lia|]. split; [cbn; lia|].
  destruct (moveStage_from_past_end_inserts_undefined Sample.operators "5f00"
              Sample.env Sample.store 0%nat Sample.stages 5 0
              eq_refl ltac:(lia) ltac:(cbn; lia))
    as (h' & state' & elems & Hrun & _ & Ha & Hlen & Hx & Hsnap).
  exists h', state', elems.
  split; [exact Hrun|]. split; [exact Ha|]. split; [exact Hlen|].
  split; [exact Hx | exact Hsnap].
Defined.

(** Selecting [$match] on the second stage of the sample store, which is a
    [$group] stage. *)
Lemma selectStageOperator_new_operator_witness :
  snapshot Sample.store 0%nat = Some Sample.stages
  /\ 0 <= 1
  /\ Sample.stages !! Z.to_nat 1 = Some Sample.groupStage
  /\ Some "$match"%string ≠ stageOperator Sample.groupStage
  /\ exists s',
      yields (Sample.run 0%nat (stageOperatorSelected 1 (Some "$match"%string) false))
        Sample.store [Sample.matchStage; s']
      /\ stageOperator s' = Some "$match"%string
      /\ stage s' = "{ query }"%string
      /\ snippet s' = Some "{ query }"%string.
Proof.
  assert (Hne : Some "$match"%string ≠ stageOperator Sample.groupStage)
    by discriminate.
  split; [reflexivity|]. split; [lia|]. split; [reflexivity|]. split; [exact Hne|].
  destruct (selectStageOperator_new_operator Sample.operators "5f00" Sample.env
              Sample.store 0%nat Sample.stages 1 Sample.groupStage
              (Some "$match"%string) false eq_refl ltac:(lia) eq_refl Hne)
    as (s' & value & Hy & -> & _ & _ & Hvalue).
  assert (value = "{ query }"%string) as ->
    by (eapply Hvalue; [reflexivity | reflexivity | discriminate | reflexivity]).
  eexists. split; [exact Hy|]. split; [reflexivity|]. split; reflexivity.
Defined.

(** Deleting the first stage of the sample store leaves a pipeline of
    stage objects. *)
Lemma reducer_keeps_pipeline_of_stages_witness :
  snapshot Sample.store 0%nat = Some Sample.stages
  /\ JsObject.inherited (action_type (stageDeleted 0)) = None
  /\ Sample.run 0%nat (stageDeleted 0) Sample.store
     = (extended Sample.store Sample.stages [Some 3%nat], Normal 1%nat)
  /\ exists ss',
      snapshot (extended Sample.store Sample.stages [Some 3%nat]) 1%nat = Some ss'
      /\ (1 <= length ss' <= 3)%nat.
Proof.
  split; [reflexivity|]. split; [reflexivity|]. split; [reflexivity|].
  exact (reducer_keeps_pipeline_of_stages Sample.operators "5f00" Sample.env
           Sample.store 0%nat Sample.stages (stageDeleted 0)
           (extended Sample.store Sample.stages [Some 3%nat]) 1%nat
           eq_refl eq_refl ltac:(discriminate) eq_refl).
Defined.

(** A [$group] stage on a sampled collection of 200000 documents. *)
Lemma generatePipeline_large_limit_witness :
  inputDocuments_count (Sample.stateOf (CountNum 200000) true [Sample.groupStage])
  = CountNum 200000
  /\ generatePipeline Sample.compile
       (Sample.stateOf (CountNum 200000) true [Sample.groupStage]) 0
     = Normal [LARGE_LIMIT; Compiled (Sample.compile Sample.groupStage); LIMIT]
  /\ LARGE_LIMIT ∈ [LARGE_LIMIT; Compiled (Sample.compile Sample.groupStage); LIMIT]
  /\ 100000 < 200000
  /\ exists (i : nat) stage,
      [Sample.groupStage] !! i = Some stage /\ Z.of_nat i <= 0
      /\ isEnabled stage = true /\ full_scan (stageOperator stage).
Proof.
  assert (Hin : LARGE_LIMIT
                ∈ [LARGE_LIMIT; Compiled (Sample.compile Sample.groupStage); LIMIT])
    by constructor.
  split; [reflexivity|]. split; [reflexivity|]. split; [exact Hin|].
  destruct (generatePipeline_large_limit_known_count Sample.compile
              (Sample.stateOf (CountNum 200000) true [Sample.groupStage]) 0
              200000 _ eq_refl eq_refl Hin)
    as (_ & Hgt & Hstage).
  split; [exact Hgt | exact Hstage].
Defined.

(** The pipeline whose only stage is disabled. *)
Lemma generatePipeline_nothing_enabled_witness :
  (forall (i : nat) stage,
      pipeline Sample.only_disabled !! i = Some stage -> Z.of_nat i <= 0 ->
      isEnabled stage = false)
  /\ generatePipeline Sample.compile Sample.only_disabled 0 = Normal []
  /\ generatePipelineAsString stage Sample.only_disabled 0 = "[]"%string.
Proof.
  assert (Hnone : forall (i : nat) stage,
             pipeline Sample.only_disabled !! i = Some stage -> Z.of_nat i <= 0 ->
             isEnabled stage = false).
  { intros [|i] stage Hi _; [|discriminate Hi].
    injection Hi as <-. reflexivity. }
  split; [exact Hnone|].
  exact (generatePipeline_nothing_enabled Sample.compile stage
           Sample.only_disabled 0 Hnone).
Defined.



(** Running the sample world from the index before the first. *)
Lemma runStage_negative_index_witness :
  snapshot (heap Sample.world) (pipeline Sample.state) = Some Sample.stages
  /\ -1 < 0
  /\ runStage Sample.compile Sample.check (-1) Sample.state Sample.world
     = (Sample.world, Threw TypeError).
Proof.
  split; [reflexivity|]. split; [lia|].
  exact (runStage_negative_index_throws Sample.compile Sample.check (-1)
           Sample.state Sample.world Sample.stages eq_refl ltac:(lia)).
Defined.




(** Adding a stage after the first stage of the sample store and deleting
    it again. *)
Lemma AddAfterStage_then_deleteStage_witness :
  snapshot Sample.store 0%nat = Some Sample.stages
  /\ -1 <= 0 < Z.of_nat (length Sample.stages)
  /\ exists h1 state1 h2 state2,
      Sample.run 0%nat (stageAddedAfter 0) Sample.store = (h1, Normal state1)
      /\ Sample.run state1 (stageDeleted (0 + 1)) h1 = (h2, Normal state2)
      /\ snapshot h2 state2 = Some Sample.stages.
Proof.
  split; [reflexivity|]. split; [cbn; lia|].
  exact (AddAfterStage_then_deleteStage_restores Sample.operators "5f00"
           Sample.env Sample.store 0%nat Sample.stages 0 eq_refl
           ltac:(cbn; lia)).
Defined.

(** The second stage of the sample store loads and gets one document. *)
Lemma loading_then_preview_witness :
  snapshot Sample.store 0%nat = Some Sample.stages
  /\ 0 <= 1
  /\ Sample.stages !! Z.to_nat 1 = Some Sample.groupStage
  /\ exists h1 state1 ss',
      Sample.run 0%nat (loadingStageResults 1) Sample.store = (h1, Normal state1)
      /\ snapshot h1 state1
         = Some [Sample.matchStage; set_isLoading true Sample.groupStage]
      /\ yields (Sample.run state1
                   (stagePreviewUpdated [doc "{}"] 1 None (Some true))) h1 ss'
      /\ yields (Sample.run 0%nat
                   (stagePreviewUpdated [doc "{}"] 1 None (Some true)))
           Sample.store ss'.
Proof.
  split; [reflexivity|]. split; [lia|]. split; [reflexivity|].
  destruct (loading_then_preview_reads_as_preview Sample.operators "5f00"
              Sample.env Sample.store 0%nat Sample.stages 1 Sample.groupStage
              [doc "{}"] None (Some true) eq_refl ltac:(lia) eq_refl)
    as (h1 & state1 & ss' & Hrun & Hss1 & Hy1 & Hy & _).
  exists h1, state1, ss'.
  split; [exact Hrun|]. split; [exact Hss1|]. split; [exact Hy1 | exact Hy].
Defined.

(** The sixth position of a pipeline of one stage. *)
Lemma generatePipeline_index_past_end_witness :
  Z.of_nat (length (pipeline Sample.unknown_count)) - 1 <= 5
  /\ generatePipeline Sample.compile Sample.unknown_count 5
     = generatePipeline Sample.compile Sample.unknown_count 0
  /\ generatePipelineAsString stage Sample.unknown_count 5
     = generatePipelineAsString stage Sample.unknown_count 0.
Proof.
  split; [cbn; lia|].
  exact (generatePipeline_index_past_end Sample.compile stage
           Sample.unknown_count 5 ltac:(cbn; lia)).
Defined.
